(* ===================================================================== *)
(*  SLAB allocator (src/main.cpp): a shallow embedding and its checked   *)
(*  properties.                                                          *)
(*                                                                       *)
(*  Layout assumed for the C++ types (LP64): pointers, size_t and        *)
(*  uintptr_t are 64-bit, uint32_t is 32-bit, so                         *)
(*  sizeof(slabStruct) = 8 + 8 + 4 (+ 4 bytes of padding) = 24.          *)
(*                                                                       *)
(*  Memory is modelled as a finite map from the base address of every    *)
(*  region currently held from the page primitive to the slab header     *)
(*  stored at its start.  Reading or writing a header at an address that *)
(*  is not held (in particular through nullptr) is a fault: the          *)
(*  operation yields None.                                               *)
(* ===================================================================== *)

From Stdlib Require Import ZArith Lia List.
From stdpp Require Import base option list gmap fin_maps.

Open Scope Z_scope.
Set Warnings "-clear-no-such-hyp".

(* --------------------------------------------------------------------- *)
(*  Machine integers                                                     *)
(* --------------------------------------------------------------------- *)

Definition wrap32 (x : Z) : Z := x mod 2 ^ 32.
Definition wrap64 (x : Z) : Z := x mod 2 ^ 64.

(* --------------------------------------------------------------------- *)
(*  Data model                                                           *)
(* --------------------------------------------------------------------- *)

(* struct slabStruct; a pointer is its address, nullptr is 0. *)
Record slabStruct : Type := mkSlab {
  previous : Z;
  next : Z;
  refcnt : Z
}.

Definition sizeof_slabStruct : Z := 24.

(* struct cache.  In the source, complete_slab heads the slabs with no
   object in use, partially_slab the partially occupied ones and
   empty_slab the fully occupied ones (no room left). *)
Record cache : Type := mkCache {
  complete_slab : Z;
  partially_slab : Z;
  empty_slab : Z;
  object_size : Z;
  slab_order : Z;
  slab_objects : Z
}.

(* The page primitive: the regions handed out and not yet returned, each
   with the header bytes at its start, and the log of calls made. *)
Record pages : Type := mkPages {
  mem : gmap Z slabStruct;
  acquired : list Z;
  released : list Z
}.

Record state : Type := mkState {
  st_cache : cache;
  st_pages : pages
}.

Definition set_previous (v : Z) (s : slabStruct) : slabStruct :=
  mkSlab v (next s) (refcnt s).
Definition set_next (v : Z) (s : slabStruct) : slabStruct :=
  mkSlab (previous s) v (refcnt s).
Definition set_refcnt (v : Z) (s : slabStruct) : slabStruct :=
  mkSlab (previous s) (next s) v.

Definition with_complete (v : Z) (c : cache) : cache :=
  mkCache v (partially_slab c) (empty_slab c)
          (object_size c) (slab_order c) (slab_objects c).
Definition with_partially (v : Z) (c : cache) : cache :=
  mkCache (complete_slab c) v (empty_slab c)
          (object_size c) (slab_order c) (slab_objects c).
Definition with_empty (v : Z) (c : cache) : cache :=
  mkCache (complete_slab c) (partially_slab c) v
          (object_size c) (slab_order c) (slab_objects c).

Definition with_object_size (v : Z) (c : cache) : cache :=
  mkCache (complete_slab c) (partially_slab c) (empty_slab c)
          v (slab_order c) (slab_objects c).
Definition with_slab_order (v : Z) (c : cache) : cache :=
  mkCache (complete_slab c) (partially_slab c) (empty_slab c)
          (object_size c) v (slab_objects c).
Definition with_slab_objects (v : Z) (c : cache) : cache :=
  mkCache (complete_slab c) (partially_slab c) (empty_slab c)
          (object_size c) (slab_order c) v.

Definition with_mem (h : gmap Z slabStruct) (p : pages) : pages :=
  mkPages h (acquired p) (released p).

(* --------------------------------------------------------------------- *)
(*  A state-and-fault monad for the allocator's code                     *)
(* --------------------------------------------------------------------- *)

Definition M (A : Type) : Type := state → option (A * state).

Global Instance M_ret : MRet M := λ A x st, Some (x, st).
Global Instance M_bind : MBind M := λ A B f m st,
  match m st with
  | Some (x, st') => f x st'
  | None => None
  end.

Definition fault {A : Type} : M A := λ _, None.

Definition get_cache {A : Type} (f : cache → A) : M A :=
  λ st, Some (f (st_cache st), st).
Definition put_cache (f : cache → cache) : M unit :=
  λ st, Some (tt, mkState (f (st_cache st)) (st_pages st)).

Definition load (a : Z) : M slabStruct :=
  λ st, match mem (st_pages st) !! a with
        | Some s => Some (s, st)
        | None => None
        end.
Definition store (a : Z) (f : slabStruct → slabStruct) : M unit :=
  λ st, match mem (st_pages st) !! a with
        | Some s =>
            Some (tt, mkState (st_cache st)
                        (with_mem (<[a := f s]> (mem (st_pages st))) (st_pages st)))
        | None => None
        end.

(* alloc_slab: the answer of the page primitive is an input of the model:
   the address returned (0 when it refuses) and the uninitialised bytes
   found at the start of the region. *)
Definition alloc_slab (r : Z * slabStruct) (order : Z) : M Z :=
  λ st, if decide (r.1 = 0) then Some (0, st)
        else Some (r.1, mkState (st_cache st)
                          (mkPages (<[r.1 := r.2]> (mem (st_pages st)))
                                   (r.1 :: acquired (st_pages st))
                                   (released (st_pages st)))).

(* free_slab: returning a region that is not held is a fault. *)
Definition free_slab (a : Z) : M unit :=
  λ st, match mem (st_pages st) !! a with
        | Some _ =>
            Some (tt, mkState (st_cache st)
                        (mkPages (delete a (mem (st_pages st)))
                                 (acquired (st_pages st))
                                 (a :: released (st_pages st))))
        | None => None
        end.

(* --------------------------------------------------------------------- *)
(*  smallest_power_of_two, calculate_slab_start                          *)
(* --------------------------------------------------------------------- *)

(* The while loop; a size_t has 64 bits, so 64 iterations always reach
   n = 0. *)
Fixpoint smallest_power_of_two_loop (fuel : nat) (n pow : Z) : Z :=
  match fuel with
  | O => pow
  | S fuel' =>
      if 0 <? n then smallest_power_of_two_loop fuel' (Z.shiftr n 1) (pow + 1)
      else pow
  end.

Definition smallest_power_of_two (n : Z) : Z :=
  smallest_power_of_two_loop 64 n 0.

Definition slab_mask (order : Z) : Z :=
  wrap64 (Z.lnot (wrap64 (Z.shiftl 1 (order + 12)) - 1)).

Definition calculate_slab_start (c : cache) (allocation : Z) : Z :=
  Z.land allocation (slab_mask (slab_order c)).

(* --------------------------------------------------------------------- *)
(*  List primitives                                                      *)
(* --------------------------------------------------------------------- *)

(* The loop of free_list; every iteration returns one held region, so a
   walk over a heap of n regions needs at most n + 1 tests of the loop
   condition before it stops or faults (free_list_fuel_irrelevant: a
   larger bound never changes the outcome). *)
Fixpoint free_list_loop (fuel : nat) (current : Z) : M unit :=
  match fuel with
  | O => fault
  | S fuel' =>
      if decide (current = 0) then mret tt
      else
        s ← load current;
        free_slab current;;
        free_list_loop fuel' (next s)
  end.

Definition free_list (list : Z) : M unit :=
  λ st, free_list_loop (S (size (mem (st_pages st)))) list st.

Definition remove_from_empty_list (slab : Z) : M unit :=
  s ← load slab;
  (if decide (previous s ≠ 0) then
     store (previous s) (set_next (next s))
   else
     e ← get_cache empty_slab;
     if decide (e = slab) then put_cache (with_empty (next s))
     else
       p ← get_cache partially_slab;
       if decide (p = slab) then put_cache (with_partially (next s))
       else mret tt);;
  s ← load slab;
  (if decide (next s ≠ 0) then store (next s) (set_previous (previous s))
   else mret tt);;
  store slab (set_previous 0);;
  store slab (set_next 0).

Definition insert_in_complete_list (slab : Z) : M unit :=
  head ← get_cache complete_slab;
  store slab (set_next head);;
  store slab (set_previous 0);;
  head ← get_cache complete_slab;
  (if decide (head ≠ 0) then store head (set_previous slab) else mret tt);;
  put_cache (with_complete slab).

Definition insert_in_partially_list (slab : Z) : M unit :=
  head ← get_cache partially_slab;
  store slab (set_next head);;
  store slab (set_previous 0);;
  head ← get_cache partially_slab;
  (if decide (head ≠ 0) then store head (set_previous slab) else mret tt);;
  put_cache (with_partially slab).

Definition insert_in_empty_list (slab : Z) : M unit :=
  head ← get_cache empty_slab;
  store slab (set_next head);;
  store slab (set_previous 0);;
  head ← get_cache empty_slab;
  (if decide (head ≠ 0) then store head (set_previous slab) else mret tt);;
  put_cache (with_empty slab).

(* --------------------------------------------------------------------- *)
(*  Public operations                                                    *)
(* --------------------------------------------------------------------- *)

(* cache_setup; object_size is a size_t, the sum wraps, and the division
   by object_size is undefined for 0. *)
Definition cache_setup (size : Z) : M unit :=
  put_cache (with_complete 0);;
  put_cache (with_partially 0);;
  put_cache (with_empty 0);;
  put_cache (with_object_size size);;
  put_cache (with_slab_order
               (smallest_power_of_two (wrap64 (sizeof_slabStruct + size) / 4096)));;
  order ← get_cache slab_order;
  if decide (order > 0) then put_cache (with_slab_objects 1)
  else if decide (size = 0) then fault
  else put_cache (with_slab_objects ((4096 - sizeof_slabStruct) / size)).

Definition cache_release : M unit :=
  c ← get_cache complete_slab; free_list c;;
  p ← get_cache partially_slab; free_list p;;
  e ← get_cache empty_slab; free_list e;;
  put_cache (with_complete 0);;
  put_cache (with_partially 0);;
  put_cache (with_empty 0).

Definition cache_alloc (r : Z * slabStruct) : M Z :=
  partially ← get_cache partially_slab;
  if decide (partially ≠ 0) then
    let current_slab := partially in
    size ← get_cache object_size;
    s ← load current_slab;
    let result :=
      wrap64 (current_slab + sizeof_slabStruct + wrap64 (size * refcnt s)) in
    store current_slab (set_refcnt (wrap32 (refcnt s + 1)));;
    s ← load current_slab;
    objects ← get_cache slab_objects;
    (if decide (refcnt s = objects) then
       put_cache (with_partially (next s));;
       head ← get_cache partially_slab;
       (if decide (head ≠ 0) then store head (set_previous 0) else mret tt);;
       insert_in_empty_list current_slab
     else mret tt);;
    mret result
  else
    complete ← get_cache complete_slab;
    if decide (complete ≠ 0) then
      let current_slab := complete in
      let result := wrap64 (current_slab + sizeof_slabStruct) in
      s ← load current_slab;
      store current_slab (set_refcnt (wrap32 (refcnt s + 1)));;
      s ← load current_slab;
      put_cache (with_complete (next s));;
      head ← get_cache complete_slab;
      (if decide (head ≠ 0) then store head (set_previous 0) else mret tt);;
      s ← load current_slab;
      objects ← get_cache slab_objects;
      (if decide (refcnt s = objects) then insert_in_empty_list current_slab
       else insert_in_partially_list current_slab);;
      mret result
    else
      order ← get_cache slab_order;
      current_slab ← alloc_slab r order;
      let result := wrap64 (current_slab + sizeof_slabStruct) in
      store current_slab (set_refcnt 1);;
      s ← load current_slab;
      objects ← get_cache slab_objects;
      (if decide (refcnt s = objects) then insert_in_empty_list current_slab
       else insert_in_partially_list current_slab);;
      mret result.

Definition cache_free (ptr : Z) : M unit :=
  c ← get_cache id;
  let slab := calculate_slab_start c ptr in
  s ← load slab;
  store slab (set_refcnt (wrap32 (refcnt s - 1)));;
  s ← load slab;
  if decide (refcnt s = 0) then
    remove_from_empty_list slab;;
    insert_in_complete_list slab
  else mret tt.

Definition cache_shrink : M unit :=
  c ← get_cache complete_slab;
  free_list c;;
  put_cache (with_complete 0).

(* --------------------------------------------------------------------- *)
(*  Traces of public calls, with the caller's view of live pointers      *)
(* --------------------------------------------------------------------- *)

(* A public call.  Alloc carries the answer the page primitive gives if
   cache_alloc asks it for a region. *)
Inductive op : Type :=
  | Alloc (r : Z * slabStruct)
  | Free (ptr : Z)
  | Shrink
  | Release.

(* The allocator's state together with what the caller holds: every
   pointer returned by cache_alloc and not freed since, paired with the
   slab it was carved from (current_slab in cache_alloc). *)
Record config : Type := mkConfig {
  cfg_state : state;
  cfg_live : list (Z * Z)
}.

(* The slab cache_alloc carves the object from: the first partially
   occupied slab, else the first unused one, else the region it acquires. *)
Definition alloc_source (r : Z * slabStruct) (c : cache) : Z :=
  if decide (partially_slab c ≠ 0) then partially_slab c
  else if decide (complete_slab c ≠ 0) then complete_slab c
  else r.1.

(* The caller gives up one pointer equal to p. *)
Fixpoint remove_live (p : Z) (live : list (Z * Z)) : list (Z * Z) :=
  match live with
  | [] => []
  | e :: live' => if decide (e.1 = p) then live' else e :: remove_live p live'
  end.

(* One public call.  cache_release returns every region to the page
   primitive, so no pointer into the cache is held afterwards. *)
Definition step (o : op) (cfg : config) : option config :=
  let st := cfg_state cfg in
  match o with
  | Alloc r =>
      match cache_alloc r st with
      | Some (p, st') =>
          Some (mkConfig st' ((p, alloc_source r (st_cache st)) :: cfg_live cfg))
      | None => None
      end
  | Free p =>
      match cache_free p st with
      | Some (_, st') => Some (mkConfig st' (remove_live p (cfg_live cfg)))
      | None => None
      end
  | Shrink =>
      match cache_shrink st with
      | Some (_, st') => Some (mkConfig st' (cfg_live cfg))
      | None => None
      end
  | Release =>
      match cache_release st with
      | Some (_, st') => Some (mkConfig st' [])
      | None => None
      end
  end.

(* What the page primitive promises about a region of the given order:
   its base is a non-null multiple of 4096 * 2^order and the region lies
   inside the address space. *)
Definition region_ok (order a : Z) : Prop :=
  0 < a ∧ a mod 2 ^ (order + 12) = 0 ∧ a + 2 ^ (order + 12) ≤ 2 ^ 64.

(* The preconditions of a call: the page primitive answers null or a
   fresh, aligned region; a freed pointer is one the caller holds. *)
Definition op_ok (cfg : config) (o : op) : Prop :=
  match o with
  | Alloc r =>
      r.1 ≠ 0 →
      region_ok (slab_order (st_cache (cfg_state cfg))) r.1 ∧
      mem (st_pages (cfg_state cfg)) !! r.1 = None
  | Free p => p ∈ (cfg_live cfg).*1
  | Shrink | Release => True
  end.

(* Object sizes for which one object and the header fit a slab of order
   at most 10 under the rule of cache_setup. *)
Definition size_ok (size : Z) : Prop :=
  0 < size ∧ sizeof_slabStruct + size < 4096 * 2 ^ 10.

(* The states between public calls: cache_setup for an accepted object
   size on a cache that holds no region, followed by calls that respect
   their preconditions and return. *)
Inductive reachable (size : Z) : config → Prop :=
  | reach_setup c0 st :
      size_ok size →
      cache_setup size (mkState c0 (mkPages ∅ [] [])) = Some (tt, st) →
      reachable size (mkConfig st [])
  | reach_step cfg o cfg' :
      reachable size cfg →
      op_ok cfg o →
      step o cfg = Some cfg' →
      reachable size cfg'.

(* ===================================================================== *)
(*  Specification vocabulary: chains, heap transformers, the invariant   *)
(* ===================================================================== *)

Section Vocabulary.
Implicit Types (h : gmap Z slabStruct) (c : cache) (acq rel : list Z)
               (l lc lp le : list Z) (live : list (Z * Z)) (x y b : Z).

(* The number of binary digits of n. *)
Definition bit_length (n : Z) : Z :=
  if decide (n ≤ 0) then 0 else Z.log2 n + 1.

(* The order stored by cache_setup, as a function of the object size. *)
Definition setup_order (size : Z) : Z :=
  smallest_power_of_two (wrap64 (sizeof_slabStruct + size) / 4096).

(* One field of the header at an address, if the address is held. *)
Definition field {A : Type} (g : slabStruct → A) h y : option A :=
  g <$> h !! y.

(* The header at x links back to p and forward to n. *)
Definition wired h x (p n : Z) : Prop :=
  x ≠ 0 ∧ field previous h x = Some p ∧ field next h x = Some n.

(* l is a chain segment in h entered from prev and left towards nxt:
   every element's previous is the element before it and its next the
   element after it. *)
Fixpoint dseg h (prev : Z) l (nxt : Z) : Prop :=
  match l with
  | [] => True
  | x :: l' => wired h x prev (hd nxt l') ∧ dseg h x l' nxt
  end.

(* The last element of l, or d when l is empty. *)
Definition last_or (d : Z) l : Z := default d (last l).

(* The heap after pushing x in front of a chain headed by head. *)
Definition push_heap (head x : Z) h : gmap Z slabStruct :=
  let h1 := alter (set_previous 0) x (alter (set_next head) x h) in
  if decide (head ≠ 0) then alter (set_previous x) head h1 else h1.

(* The heap after dropping the first element of a chain whose second
   element is n. *)
Definition pop_heap (n : Z) h : gmap Z slabStruct :=
  if decide (n ≠ 0) then alter (set_previous 0) n h else h.

(* The heap after unlinking x, whose neighbours are p and n. *)
Definition unlink_heap (x p n : Z) h : gmap Z slabStruct :=
  let h1 := if decide (p ≠ 0) then alter (set_next n) p h else h in
  let h2 := if decide (n ≠ 0) then alter (set_previous p) n h1 else h1 in
  alter (set_next 0) x (alter (set_previous 0) x h2).

(* The code shared by insert_in_complete_list, insert_in_partially_list
   and insert_in_empty_list, which differ in the head they use. *)
Definition insert_in_list (get : cache → Z) (set : Z → cache → cache)
    (slab : Z) : M unit :=
  head ← get_cache get;
  store slab (set_next head);;
  store slab (set_previous 0);;
  head ← get_cache get;
  (if decide (head ≠ 0) then store head (set_previous slab) else mret tt);;
  put_cache (set slab).

(* The heads after remove_from_empty_list unlinked x with neighbours
   p and n. *)
Definition unlink_cache (x p n : Z) c : cache :=
  if decide (p ≠ 0) then c
  else if decide (empty_slab c = x) then with_empty n c
  else if decide (partially_slab c = x) then with_partially n c
  else c.

(* The heap once every region of l has been returned. *)
Fixpoint release_all l h : gmap Z slabStruct :=
  match l with
  | [] => h
  | x :: l' => release_all l' (delete x h)
  end.

(* How many held pointers were carved from slab b. *)
Fixpoint count_live b live : Z :=
  match live with
  | [] => 0
  | e :: live' => (if decide (e.2 = b) then 1 else 0) + count_live b live'
  end.

(* The geometry cache_setup establishes and no later call changes: an
   order the page primitive accepts, and at least one object per slab,
   all slots of a slab lying inside it behind the header. *)
Record geometry_ok c : Prop := mkGeometry {
  geo_order : 0 ≤ slab_order c ≤ 10;
  geo_size : 0 < object_size c;
  geo_objects : 1 ≤ slab_objects c;
  geo_fit : sizeof_slabStruct + object_size c * slab_objects c
            ≤ 2 ^ (slab_order c + 12)
}.

(* lc, lp and le are the slabs on the complete, partially and empty
   lists, in list order.  A slab on the empty list is one that was
   filled and has not drained to zero since. *)
Record rep lc lp le c h acq rel live : Prop := mkRep {
  rep_geo : geometry_ok c;
  rep_hc : complete_slab c = hd 0 lc;
  rep_hp : partially_slab c = hd 0 lp;
  rep_he : empty_slab c = hd 0 le;
  rep_dc : dseg h 0 lc 0;
  rep_dp : dseg h 0 lp 0;
  rep_de : dseg h 0 le 0;
  rep_nodup : NoDup (lc ++ lp ++ le);
  rep_dom : ∀ y, is_Some (h !! y) ↔ y ∈ lc ++ lp ++ le;
  rep_region : ∀ y, is_Some (h !! y) → region_ok (slab_order c) y;
  rep_cnt : ∀ y, is_Some (h !! y) →
            field refcnt h y = Some (count_live y live);
  rep_occ_c : ∀ y, y ∈ lc → count_live y live = 0;
  rep_occ_p : ∀ y, y ∈ lp → 0 < count_live y live < slab_objects c;
  rep_occ_e : ∀ y, y ∈ le → 0 < count_live y live ≤ slab_objects c;
  rep_live : ∀ p b, (p, b) ∈ live →
             is_Some (h !! b) ∧
             ∃ k, 0 ≤ k < slab_objects c ∧
                  p = b + sizeof_slabStruct + k * object_size c;
  rep_log : length acq = (length rel + size h)%nat
}.

Definition inv (cfg : config) : Prop :=
  ∃ lc lp le,
    rep lc lp le (st_cache (cfg_state cfg)) (mem (st_pages (cfg_state cfg)))
        (acquired (st_pages (cfg_state cfg)))
        (released (st_pages (cfg_state cfg))) (cfg_live cfg).

(* The chains of a state, without the bookkeeping of the invariant: each
   list is a finite null-terminated chain whose first element has a null
   back link and whose links agree in both directions, and no slab is on
   two lists or twice on one. *)
Definition lists_wf (st : state) : Prop :=
  ∃ lc lp le,
    complete_slab (st_cache st) = hd 0 lc ∧
    partially_slab (st_cache st) = hd 0 lp ∧
    empty_slab (st_cache st) = hd 0 le ∧
    dseg (mem (st_pages st)) 0 lc 0 ∧
    dseg (mem (st_pages st)) 0 lp 0 ∧
    dseg (mem (st_pages st)) 0 le 0 ∧
    NoDup (lc ++ lp ++ le).

End Vocabulary.

Arguments rep_geo {lc lp le c h acq rel live} _.
Arguments rep_hc {lc lp le c h acq rel live} _.
Arguments rep_hp {lc lp le c h acq rel live} _.
Arguments rep_he {lc lp le c h acq rel live} _.
Arguments rep_dc {lc lp le c h acq rel live} _.
Arguments rep_dp {lc lp le c h acq rel live} _.
Arguments rep_de {lc lp le c h acq rel live} _.
Arguments rep_nodup {lc lp le c h acq rel live} _.
Arguments rep_dom {lc lp le c h acq rel live} _.
Arguments rep_region {lc lp le c h acq rel live} _.
Arguments rep_cnt {lc lp le c h acq rel live} _.
Arguments rep_occ_c {lc lp le c h acq rel live} _.
Arguments rep_occ_p {lc lp le c h acq rel live} _.
Arguments rep_occ_e {lc lp le c h acq rel live} _.
Arguments rep_live {lc lp le c h acq rel live} _.
Arguments rep_log {lc lp le c h acq rel live} _.

(* --------------------------------------------------------------------- *)
(*  Executable traces                                                    *)
(* --------------------------------------------------------------------- *)

Global Instance slabStruct_eq_dec : EqDecision slabStruct.
Proof. solve_decision. Defined.

Global Instance region_ok_dec order a : Decision (region_ok order a).
Proof. unfold region_ok. apply _. Defined.

Global Instance size_ok_dec size : Decision (size_ok size).
Proof. unfold size_ok. apply _. Defined.

Global Instance op_ok_dec cfg o : Decision (op_ok cfg o).
Proof. destruct o; simpl; apply _. Defined.

(* cache_setup on a cache that holds nothing yet. *)
Definition boot (c0 : cache) (size : Z) : option config :=
  if bool_decide (size_ok size) then
    match cache_setup size (mkState c0 (mkPages ∅ [] [])) with
    | Some (_, st) => Some (mkConfig st [])
    | None => None
    end
  else None.

(* A sequence of calls, each checked against its preconditions. *)
Fixpoint run (ops : list op) (cfg : config) : option config :=
  match ops with
  | [] => Some cfg
  | o :: ops' =>
      if bool_decide (op_ok cfg o) then
        match step o cfg with
        | Some cfg' => run ops' cfg'
        | None => None
        end
      else None
  end.

Definition session (c0 : cache) (size : Z) (ops : list op) : option config :=
  match boot c0 size with
  | Some cfg => run ops cfg
  | None => None
  end.

(* `cache{}` in main, and some bytes for a region that was never written. *)
Definition blank : cache := mkCache 0 0 0 0 0 0.
Definition stale : slabStruct := mkSlab 3735928559 3735928559 3735928559.
Definition nothing_held : pages := mkPages ∅ [] [].

(* The fields cache_setup derives from the object size. *)
Definition geometry (st : state) : Z * Z * Z :=
  (object_size (st_cache st), slab_order (st_cache st),
   slab_objects (st_cache st)).

(* A computation that, when it returns, leaves an observation of the
   state as it found it. *)
Definition preserves {A X : Type} (f : state → X) (m : M A) : Prop :=
  ∀ st x st', m st = Some (x, st') → f st' = f st.

(* The three lists of a cache, to speak of the insert functions at once. *)
Inductive which_list : Type := Complete | Partially | Empty.

Global Instance which_list_eq_dec : EqDecision which_list.
Proof. solve_decision. Defined.

Definition head_of (w : which_list) (c : cache) : Z :=
  match w with
  | Complete => complete_slab c
  | Partially => partially_slab c
  | Empty => empty_slab c
  end.

Definition insert_in (w : which_list) : Z → M unit :=
  match w with
  | Complete => insert_in_complete_list
  | Partially => insert_in_partially_list
  | Empty => insert_in_empty_list
  end.

(* Two slabs linked 4096 -> 8192, and a third one alone. *)
Definition two_chain : gmap Z slabStruct :=
  <[4096 := mkSlab 0 8192 0]> (<[8192 := mkSlab 4096 0 0]>
    (<[12288 := mkSlab 0 0 1]> ∅)).

(* The calls made so far to alloc_slab (those that returned a region)
   and to free_slab, and the bases of the regions held. *)
Definition acquire_log (st : state) : list Z := acquired (st_pages st).
Definition release_log (st : state) : list Z := released (st_pages st).
Definition held (st : state) : gset Z := dom (mem (st_pages st)).

(* An observation that no write to a header and no change of a head
   alters. *)
Definition relink_proof {X : Type} (f : state → X) : Prop :=
  (∀ a g, preserves f (store a g)) ∧
  (∀ v, preserves f (put_cache (with_complete v))) ∧
  (∀ v, preserves f (put_cache (with_partially v))) ∧
  (∀ v, preserves f (put_cache (with_empty v))).

(* The state cache_setup leaves for 41-byte objects, before any call. *)
Definition idle41 : config :=
  mkConfig (mkState (mkCache 0 0 0 41 0 99) nothing_held) [].

(* A run with two slabs: the one at 4096 filled and then emptied of one
   object, the one at 8192 with one object. *)
Definition busy_ops : list op :=
  [Alloc (4096, stale); Alloc (0, stale); Alloc (8192, stale); Free 4120].

(* --------------------------------------------------------------------- *)
(*  The driver                                                           *)
(* --------------------------------------------------------------------- *)

(* refs.insert(pointer) on a std::set<void*>, kept as the list of its
   elements in increasing order: a pointer already in the set is not
   added again. *)
Fixpoint set_insert (p : Z) (refs : list Z) : list Z :=
  match refs with
  | [] => [p]
  | q :: refs' =>
      if decide (p < q) then p :: q :: refs'
      else if decide (p = q) then q :: refs'
      else q :: set_insert p refs'
  end.

(* What one pass of the loop of main takes from outside: the value of
   the first rand(), the value of the second one, which only the free
   branch draws, and the answer of alloc_slab, which only a cache_alloc
   without a slab to reuse asks for. *)
Record draw : Type := mkDraw {
  coin : Z;
  pick : Z;
  region : Z * slabStruct
}.

(* One pass of the for loop, on the set refs; the printf calls are left
   out. *)
Definition main_pass (d : draw) (refs : list Z) : M (list Z) :=
  if decide (coin d mod 2 ≠ 0) then
    pointer ← cache_alloc (region d);
    mret (if decide (pointer ≠ 0) then set_insert pointer refs else refs)
  else if decide (refs ≠ []) then
    let randomIndex := Z.to_nat (pick d mod Z.of_nat (length refs)) in
    match refs !! randomIndex with
    | Some p => cache_free p;; mret (delete randomIndex refs)
    | None => fault
    end
  else mret refs.

Fixpoint main_loop (draws : list draw) (refs : list Z) : M (list Z) :=
  match draws with
  | [] => mret refs
  | d :: draws' => refs' ← main_pass d refs; main_loop draws' refs'
  end.

(* The while loop: free *refs.begin() and erase it until refs is empty. *)
Fixpoint main_drain (refs : list Z) : M unit :=
  match refs with
  | [] => mret tt
  | p :: refs' => cache_free p;; main_drain refs'
  end.

(* main, started on `cache{}`; draws has one entry for each pass of the
   for loop, 100000 of them in the source. *)
Definition main (draws : list draw) : M unit :=
  cache_setup 41;;
  refs ← main_loop draws [];
  main_drain refs;;
  cache_shrink.

(* The bases of the regions the page primitive is going to answer. *)
Definition regions (draws : list draw) : list Z :=
  (λ d, (region d).1) <$> draws.

(* Between two passes: the cache is in a state between public calls,
   every pointer in refs is one the caller holds, as often, and no
   region still to be answered is held. *)
Definition driver_inv (draws : list draw) (cfg : config) (refs : list Z) : Prop :=
  reachable 41 cfg ∧
  refs ⊆+ (cfg_live cfg).*1 ∧
  ∀ a, a ∈ regions draws → mem (st_pages (cfg_state cfg)) !! a = None.

(* Six passes: alloc, alloc, free, alloc, free, alloc. *)
Definition six_draws : list draw :=
  [mkDraw 1 0 (4096, stale); mkDraw 3 0 (8192, stale);
   mkDraw 4 7 (12288, stale); mkDraw 5 0 (16384, stale);
   mkDraw 0 1 (20480, stale); mkDraw 1 0 (24576, stale)].

(* ===================================================================== *)
(*  Geometry                                                             *)
(* ===================================================================== *)

Section Geometry.

Lemma bit_length_half n : 0 < n → bit_length n = bit_length (Z.shiftr n 1) + 1.
Proof.
  intros Hn. unfold bit_length.
  destruct (decide (n ≤ 0)) as [|_]; [lia|].
  destruct (decide (n = 1)) as [->|Hn1]; [reflexivity|].
  assert (Hhalf : 0 < Z.shiftr n 1).
  { rewrite Z.shiftr_div_pow2 by lia. apply Z.div_str_pos.
    change (2 ^ 1) with 2. lia. }
  destruct (decide (Z.shiftr n 1 ≤ 0)) as [|_]; [lia|].
  rewrite Z.log2_shiftr by lia.
  assert (1 ≤ Z.log2 n) by (apply Z.log2_le_pow2; simpl; lia).
  lia.
Qed.

Lemma smallest_power_of_two_loop_spec fuel n pow :
  0 ≤ n < 2 ^ Z.of_nat fuel →
  smallest_power_of_two_loop fuel n pow = pow + bit_length n.
Proof.
  revert n pow. induction fuel as [|fuel IH]; intros n pow Hn.
  - simpl in *. assert (n = 0) as -> by lia. unfold bit_length; simpl. lia.
  - simpl. destruct (0 <? n) eqn:Hpos.
    + apply Z.ltb_lt in Hpos. rewrite IH.
      * rewrite (bit_length_half n) by lia. lia.
      * rewrite Z.shiftr_div_pow2 by lia. change (2 ^ 1) with 2.
        rewrite Nat2Z.inj_succ, Z.pow_succ_r in Hn by lia.
        split; [apply Z.div_pos; lia|].
        apply Z.div_lt_upper_bound; lia.
    + apply Z.ltb_ge in Hpos. unfold bit_length.
      destruct (decide (n ≤ 0)); lia.
Qed.

Lemma smallest_power_of_two_spec n :
  0 ≤ n < 2 ^ 64 → smallest_power_of_two n = bit_length n.
Proof.
  intros Hn. unfold smallest_power_of_two.
  rewrite smallest_power_of_two_loop_spec; [lia|exact Hn].
Qed.

Lemma bit_length_bounds n :
  0 ≤ n → 0 ≤ bit_length n ∧ n < 2 ^ bit_length n ∧
          (0 < bit_length n → 2 ^ (bit_length n - 1) ≤ n).
Proof.
  intros Hn. unfold bit_length. destruct (decide (n ≤ 0)) as [H0|Hpos].
  - assert (n = 0) as -> by lia. simpl. lia.
  - pose proof (Z.log2_spec n ltac:(lia)) as [Hlo Hhi].
    pose proof (Z.log2_nonneg n).
    replace (Z.log2 n + 1 - 1) with (Z.log2 n) by lia.
    replace (Z.log2 n + 1) with (Z.succ (Z.log2 n)) by lia. lia.
Qed.

(* cache_setup picks the smallest order whose slab is strictly larger
   than the header plus one object. *)
Lemma setup_order_strict size :
  0 ≤ size → sizeof_slabStruct + size < 2 ^ 64 →
  0 ≤ setup_order size ∧
  sizeof_slabStruct + size < 4096 * 2 ^ setup_order size ∧
  (0 < setup_order size →
   4096 * 2 ^ (setup_order size - 1) ≤ sizeof_slabStruct + size).
Proof.
  intros Hs Hlt. unfold setup_order, wrap64.
  rewrite Z.mod_small by (unfold sizeof_slabStruct in *; lia).
  set (x := sizeof_slabStruct + size) in *.
  assert (0 ≤ x) by (unfold x, sizeof_slabStruct; lia).
  assert (0 ≤ x / 4096) by (apply Z.div_pos; lia).
  assert (x / 4096 < 2 ^ 64).
  { apply Z.div_lt_upper_bound; lia. }
  rewrite smallest_power_of_two_spec by lia.
  destruct (bit_length_bounds (x / 4096)) as (Hb0 & Hb1 & Hb2); [lia|].
  split; [exact Hb0|]. split.
  - pose proof (Z.mul_succ_div_gt x 4096 ltac:(lia)). nia.
  - intros Hpos. specialize (Hb2 Hpos).
    pose proof (Z.mul_div_le x 4096 ltac:(lia)). nia.
Qed.

Lemma setup_order_le_10 size :
  size_ok size → 0 ≤ setup_order size ≤ 10.
Proof.
  intros [Hpos Hfit].
  assert (Hlt : sizeof_slabStruct + size < 2 ^ 64).
  { eapply Z.lt_trans; [exact Hfit|]. reflexivity. }
  destruct (setup_order_strict size ltac:(lia) Hlt) as (H0 & _ & Hlow).
  split; [exact H0|].
  destruct (decide (setup_order size ≤ 10)) as [|Hbig]; [assumption|].
  exfalso. specialize (Hlow ltac:(lia)).
  assert (2 ^ 10 ≤ 2 ^ (setup_order size - 1))
    by (apply Z.pow_le_mono_r; lia).
  lia.
Qed.

(* The mask of calculate_slab_start clears exactly the low order + 12
   bits of a 64-bit address. *)
Lemma land_slab_mask order p :
  0 ≤ order ≤ 10 → 0 ≤ p < 2 ^ 64 →
  Z.land p (slab_mask order) = 2 ^ (order + 12) * (p / 2 ^ (order + 12)).
Proof.
  intros Ho Hp. unfold slab_mask, wrap64.
  rewrite Z.shiftl_1_l.
  assert (Hk : 2 ^ (order + 12) < 2 ^ 64)
    by (apply Z.pow_lt_mono_r; lia).
  assert (0 < 2 ^ (order + 12)) by (apply Z.pow_pos_nonneg; lia).
  rewrite (Z.mod_small (2 ^ (order + 12))) by lia.
  replace (2 ^ (order + 12) - 1) with (Z.ones (order + 12))
    by (rewrite Z.ones_equiv; lia).
  rewrite <- Z.land_ones by lia.
  rewrite Z.land_assoc, (Z.land_comm p), <- Z.land_assoc.
  rewrite (Z.land_comm p (Z.ones 64)), Z.land_comm.
  rewrite (Z.land_comm (Z.ones 64) p), Z.land_ones by lia.
  rewrite (Z.mod_small p) by lia.
  rewrite <- Z.ldiff_land, Z.ldiff_ones_r by lia.
  rewrite Z.shiftl_mul_pow2, Z.shiftr_div_pow2 by lia. lia.
Qed.

Lemma slab_start_of_slot order a off :
  0 ≤ order ≤ 10 → region_ok order a → 0 ≤ off < 2 ^ (order + 12) →
  Z.land (a + off) (slab_mask order) = a.
Proof.
  intros Ho (Ha & Hal & Hfit) Hoff.
  rewrite land_slab_mask by lia.
  assert (0 < 2 ^ (order + 12)) by (apply Z.pow_pos_nonneg; lia).
  apply Z.mod_divide in Hal; [|lia]. destruct Hal as [q ->].
  rewrite Z.div_add_l by lia. rewrite (Z.div_small off) by lia. lia.
Qed.

End Geometry.

(* ===================================================================== *)
(*  Doubly-linked chains of slab headers in the heap                     *)
(* ===================================================================== *)

Section Chains.
Implicit Types (h : gmap Z slabStruct) (l : list Z) (x y : Z).

Lemma field_Some_lookup {A : Type} (g : slabStruct → A) h y s :
  h !! y = Some s → field g h y = Some (g s).
Proof. unfold field. intros ->. reflexivity. Qed.

Lemma field_is_Some {A : Type} (g : slabStruct → A) h y :
  is_Some (field g h y) ↔ is_Some (h !! y).
Proof. unfold field. apply fmap_is_Some. Qed.

Lemma field_alter_keep {A : Type} (g : slabStruct → A) f a h y :
  (∀ s, g (f s) = g s) → field g (alter f a h) y = field g h y.
Proof.
  intros Hg. unfold field. rewrite lookup_alter.
  case_decide; [subst a|reflexivity].
  destruct (h !! y); simpl; [rewrite Hg|]; reflexivity.
Qed.

Lemma field_alter_ne {A : Type} (g : slabStruct → A) f a h y :
  a ≠ y → field g (alter f a h) y = field g h y.
Proof. intros Hne. unfold field. rewrite lookup_alter_ne by exact Hne. reflexivity. Qed.

Lemma field_alter_eq {A : Type} (g : slabStruct → A) f a h :
  field g (alter f a h) a = (λ s, g (f s)) <$> h !! a.
Proof.
  unfold field. rewrite lookup_alter_eq. destruct (h !! a); reflexivity.
Qed.

Lemma wired_frame h h' x p n :
  field previous h' x = field previous h x →
  field next h' x = field next h x →
  wired h x p n → wired h' x p n.
Proof. intros Hp Hn (H0 & H1 & H2). split; [exact H0|]. rewrite Hp, Hn. auto. Qed.

Lemma dseg_frame h h' prev l nxt :
  (∀ y, y ∈ l → field previous h' y = field previous h y ∧
                field next h' y = field next h y) →
  dseg h prev l nxt → dseg h' prev l nxt.
Proof.
  revert prev. induction l as [|x l IH]; intros prev Hfr; simpl; [auto|].
  intros [Hw Hd]. split.
  - destruct (Hfr x) as [Hp Hn]; [left|]. eapply wired_frame; eauto.
  - apply IH; [|exact Hd]. intros y Hy. apply Hfr. right. exact Hy.
Qed.

Lemma dseg_elem h prev l nxt y :
  dseg h prev l nxt → y ∈ l → y ≠ 0 ∧ is_Some (h !! y).
Proof.
  revert prev. induction l as [|x l IH]; intros prev Hd Hy.
  - inversion Hy.
  - destruct Hd as [(H0 & Hp & _) Hd]. apply elem_of_cons in Hy as [->|Hy].
    + split; [exact H0|]. apply (field_is_Some previous). rewrite Hp. eauto.
    + eapply IH; eauto.
Qed.

Lemma hd_nonzero h prev l nxt :
  dseg h prev l nxt → (hd 0 l = 0 ↔ l = []).
Proof.
  destruct l as [|x l]; simpl; [tauto|].
  intros [(H0 & _) _]. split; [intros; contradiction|discriminate].
Qed.

Lemma last_or_nonzero h prev l nxt :
  dseg h prev l nxt → (last_or 0 l = 0 ↔ l = []).
Proof.
  intros Hd. unfold last_or. destruct (last l) as [y|] eqn:Hl; simpl.
  - assert (y ∈ l) by (eapply last_Some_elem_of; eauto).
    destruct (dseg_elem _ _ _ _ _ Hd H) as [Hy _].
    split; [intros; contradiction|intros ->; discriminate].
  - apply last_None in Hl. tauto.
Qed.

Lemma dseg_app h prev l1 l2 nxt :
  dseg h prev (l1 ++ l2) nxt ↔
  dseg h prev l1 (hd nxt l2) ∧ dseg h (last_or prev l1) l2 nxt.
Proof.
  revert prev. induction l1 as [|x l1 IH]; intros prev; simpl.
  - unfold last_or; simpl. tauto.
  - rewrite IH.
    assert (Hhd : hd nxt (l1 ++ l2) = hd (hd nxt l2) l1)
      by (destruct l1; reflexivity).
    assert (Hlast : last_or prev (x :: l1) = last_or x l1).
    { unfold last_or. rewrite last_cons. destruct (last l1); reflexivity. }
    rewrite Hhd, Hlast. tauto.
Qed.

(* Re-targeting the back link of the first element. *)
Lemma dseg_rehead h prev l nxt v :
  NoDup l → dseg h prev l nxt →
  dseg (alter (set_previous v) (hd 0 l) h) v l nxt.
Proof.
  destruct l as [|x l]; simpl; [auto|].
  intros Hnd [(H0 & Hp & Hn) Hd]. apply NoDup_cons in Hnd as [Hx _]. split.
  - split; [exact H0|]. split.
    + rewrite field_alter_eq. unfold field in Hp.
      destruct (h !! x); [reflexivity|discriminate].
    + rewrite field_alter_keep by (intros []; reflexivity). exact Hn.
  - eapply dseg_frame; [|exact Hd]. intros y Hy.
    assert (x ≠ y) by (intros ->; contradiction).
    rewrite !field_alter_ne by assumption. auto.
Qed.

(* Re-targeting the forward link of the last element. *)
Lemma dseg_retail h prev l nxt v :
  NoDup l → dseg h prev l nxt →
  dseg (alter (set_next v) (last_or 0 l) h) prev l v.
Proof.
  revert prev. induction l as [|x l IH]; intros prev Hnd; simpl; [auto|].
  intros [(H0 & Hp & Hn) Hd]. apply NoDup_cons in Hnd as [Hx Hnd].
  destruct l as [|x' l].
  - unfold last_or; simpl. split; [|exact I].
    split; [exact H0|]. split.
    + rewrite field_alter_keep by (intros []; reflexivity). exact Hp.
    + rewrite field_alter_eq. unfold field in Hn.
      destruct (h !! x); [reflexivity|discriminate].
  - assert (Hlast : last_or 0 (x :: x' :: l) = last_or 0 (x' :: l)).
    { unfold last_or. rewrite last_cons_cons. reflexivity. }
    rewrite Hlast. split.
    + assert (last_or 0 (x' :: l) ≠ x).
      { unfold last_or. destruct (last (x' :: l)) as [z|] eqn:Hz; simpl.
        - apply last_Some_elem_of in Hz. intros ->. contradiction.
        - apply last_None in Hz. discriminate. }
      eapply wired_frame; [..|split; [exact H0|split; [exact Hp|exact Hn]]];
        rewrite field_alter_ne by assumption; reflexivity.
    + apply IH; assumption.
Qed.

(* The links of an element in the middle of a chain. *)
Lemma dseg_links h prev l1 x l2 nxt :
  dseg h prev (l1 ++ x :: l2) nxt →
  wired h x (last_or prev l1) (hd nxt l2).
Proof.
  intros Hd. apply dseg_app in Hd as [_ Hd]. simpl in Hd. tauto.
Qed.

End Chains.

(* ===================================================================== *)
(*  Running the code: the primitives on an explicit state                *)
(* ===================================================================== *)

Section Running.
Implicit Types (h : gmap Z slabStruct) (c : cache) (acq rel : list Z).

Lemma bind_run {A B : Type} (m : M A) (f : A → M B) st x st' :
  m st = Some (x, st') → (m ≫= f) st = f x st'.
Proof. unfold mbind, M_bind. intros ->. reflexivity. Qed.

Lemma bind_fault {A B : Type} (m : M A) (f : A → M B) st :
  m st = None → (m ≫= f) st = None.
Proof. unfold mbind, M_bind. intros ->. reflexivity. Qed.

Lemma bind_assoc {A B C : Type} (m : M A) (f : A → M B) (g : B → M C) st :
  ((m ≫= f) ≫= g) st = (m ≫= λ x, f x ≫= g) st.
Proof.
  unfold mbind, M_bind. destruct (m st) as [[x st']|]; reflexivity.
Qed.

Lemma load_run h c acq rel a s :
  h !! a = Some s →
  load a (mkState c (mkPages h acq rel)) = Some (s, mkState c (mkPages h acq rel)).
Proof. unfold load; simpl. intros ->. reflexivity. Qed.

Lemma store_run h c acq rel a f :
  is_Some (h !! a) →
  store a f (mkState c (mkPages h acq rel)) =
  Some (tt, mkState c (mkPages (alter f a h) acq rel)).
Proof.
  intros [s Hs]. unfold store, with_mem; simpl. rewrite Hs.
  assert (Heq : <[a := f s]> h = alter f a h).
  { apply map_eq. intros y. rewrite lookup_alter, lookup_insert.
    case_decide; [subst; rewrite Hs|]; reflexivity. }
  rewrite Heq. reflexivity.
Qed.

Lemma get_run {A : Type} (g : cache → A) st :
  get_cache g st = Some (g (st_cache st), st).
Proof. reflexivity. Qed.

Lemma put_run g c pg :
  put_cache g (mkState c pg) = Some (tt, mkState (g c) pg).
Proof. reflexivity. Qed.

End Running.

(* Symbolic execution of one monadic step. *)
Ltac run_get :=
  rewrite ?bind_assoc; erewrite bind_run by (apply get_run); cbn [st_cache].
Ltac run_put :=
  rewrite ?bind_assoc; erewrite bind_run by (apply put_run).
Ltac run_load H :=
  rewrite ?bind_assoc; erewrite bind_run by (apply load_run; exact H).
Ltac run_store :=
  rewrite ?bind_assoc;
  erewrite bind_run
    by (apply store_run; rewrite ?lookup_alter_is_Some; eauto).

Section Primitives.
Implicit Types (h : gmap Z slabStruct) (c : cache) (acq rel : list Z)
               (l : list Z).

Lemma insert_in_list_run get set x h c acq rel :
  is_Some (h !! x) → (get c = 0 ∨ is_Some (h !! get c)) →
  insert_in_list get set x (mkState c (mkPages h acq rel)) =
  Some (tt, mkState (set x c) (mkPages (push_heap (get c) x h) acq rel)).
Proof.
  intros Hx Hhead. unfold insert_in_list, push_heap.
  run_get. run_store. run_store. run_get.
  destruct (decide (get c ≠ 0)) as [Hne|He].
  - destruct Hhead as [?|Hhead]; [contradiction|].
    run_store. reflexivity.
  - erewrite bind_run by reflexivity. reflexivity.
Qed.

Lemma insert_in_complete_list_run x h c acq rel :
  is_Some (h !! x) → (complete_slab c = 0 ∨ is_Some (h !! complete_slab c)) →
  insert_in_complete_list x (mkState c (mkPages h acq rel)) =
  Some (tt, mkState (with_complete x c)
              (mkPages (push_heap (complete_slab c) x h) acq rel)).
Proof. apply (insert_in_list_run complete_slab with_complete). Qed.

Lemma insert_in_partially_list_run x h c acq rel :
  is_Some (h !! x) → (partially_slab c = 0 ∨ is_Some (h !! partially_slab c)) →
  insert_in_partially_list x (mkState c (mkPages h acq rel)) =
  Some (tt, mkState (with_partially x c)
              (mkPages (push_heap (partially_slab c) x h) acq rel)).
Proof. apply (insert_in_list_run partially_slab with_partially). Qed.

Lemma insert_in_empty_list_run x h c acq rel :
  is_Some (h !! x) → (empty_slab c = 0 ∨ is_Some (h !! empty_slab c)) →
  insert_in_empty_list x (mkState c (mkPages h acq rel)) =
  Some (tt, mkState (with_empty x c)
              (mkPages (push_heap (empty_slab c) x h) acq rel)).
Proof. apply (insert_in_list_run empty_slab with_empty). Qed.

End Primitives.

Section Transformers.
Implicit Types (h : gmap Z slabStruct) (c : cache) (acq rel : list Z)
               (l : list Z) (x y : Z).

Lemma remove_from_empty_list_run x s h c acq rel :
  h !! x = Some s →
  (previous s = 0 ∨ (previous s ≠ x ∧ is_Some (h !! previous s))) →
  (next s = 0 ∨ is_Some (h !! next s)) →
  remove_from_empty_list x (mkState c (mkPages h acq rel)) =
  Some (tt, mkState (unlink_cache x (previous s) (next s) c)
              (mkPages (unlink_heap x (previous s) (next s) h) acq rel)).
Proof.
  intros Hx Hp Hn. unfold remove_from_empty_list, unlink_heap, unlink_cache.
  run_load Hx.
  destruct (decide (previous s ≠ 0)) as [Hpne|Hpe].
  - destruct Hp as [?|[Hpx Hp]]; [contradiction|].
    run_store.
    assert (Hx' : alter (set_next (next s)) (previous s) h !! x = Some s)
      by (rewrite lookup_alter_ne by exact Hpx; exact Hx).
    run_load Hx'.
    destruct (decide (next s ≠ 0)) as [Hnne|Hne].
    + destruct Hn as [?|Hn]; [contradiction|].
      run_store. run_store.
      rewrite store_run by (rewrite ?lookup_alter_is_Some; eauto).
      reflexivity.
    + erewrite bind_run by reflexivity. run_store.
      rewrite store_run by (rewrite ?lookup_alter_is_Some; eauto).
      reflexivity.
  - assert (Hhead :
      (e ← get_cache empty_slab;
       if decide (e = x) then put_cache (with_empty (next s))
       else p ← get_cache partially_slab;
            if decide (p = x) then put_cache (with_partially (next s))
            else mret tt) (mkState c (mkPages h acq rel)) =
      Some (tt, mkState
        (if decide (empty_slab c = x) then with_empty (next s) c
         else if decide (partially_slab c = x) then with_partially (next s) c
         else c) (mkPages h acq rel))).
    { run_get. destruct (decide (empty_slab c = x)); [reflexivity|].
      run_get. destruct (decide (partially_slab c = x)); reflexivity. }
    erewrite bind_run by exact Hhead.
    run_load Hx.
    destruct (decide (next s ≠ 0)) as [Hnne|Hne].
    + destruct Hn as [?|Hn]; [contradiction|].
      run_store. run_store.
      rewrite store_run by (rewrite ?lookup_alter_is_Some; eauto).
      reflexivity.
    + erewrite bind_run by reflexivity. run_store.
      rewrite store_run by (rewrite ?lookup_alter_is_Some; eauto).
      reflexivity.
Qed.

Lemma dseg_frame_lookup h h' prev l nxt :
  (∀ y, y ∈ l → h' !! y = h !! y) →
  dseg h prev l nxt → dseg h' prev l nxt.
Proof.
  intros Hfr. apply dseg_frame. intros y Hy. unfold field.
  rewrite (Hfr y Hy). auto.
Qed.

(* --- push --------------------------------------------------------- *)

Lemma push_lookup_other head x h y :
  y ≠ x → y ≠ head → push_heap head x h !! y = h !! y.
Proof.
  intros Hx Hh. unfold push_heap.
  destruct (decide (head ≠ 0)); rewrite !lookup_alter_ne by congruence;
    reflexivity.
Qed.

Lemma push_refcnt head x h y :
  field refcnt (push_heap head x h) y = field refcnt h y.
Proof.
  unfold push_heap.
  destruct (decide (head ≠ 0));
    rewrite !field_alter_keep by (intros []; reflexivity); reflexivity.
Qed.

Lemma push_dseg h l x :
  dseg h 0 l 0 → NoDup l → x ∉ l → x ≠ 0 → is_Some (h !! x) →
  dseg (push_heap (hd 0 l) x h) 0 (x :: l) 0.
Proof.
  intros Hd Hnd Hx H0 [s Hs]. unfold push_heap. simpl.
  assert (Hxl : ∀ y, y ∈ l → x ≠ y) by (intros y Hy ->; contradiction).
  destruct (decide (hd 0 l ≠ 0)) as [Hne|He].
  - destruct l as [|z l]; [contradiction|]. simpl in *.
    assert (x ≠ z) by (apply Hxl; left).
    split.
    + split; [exact H0|]. split.
      * rewrite field_alter_ne by congruence. rewrite field_alter_eq.
        rewrite lookup_alter_eq, Hs. reflexivity.
      * rewrite field_alter_ne by congruence.
        rewrite field_alter_keep by (intros []; reflexivity).
        rewrite field_alter_eq, Hs. reflexivity.
    + apply (dseg_rehead _ 0 (z :: l) 0 x); [exact Hnd|].
      eapply dseg_frame_lookup; [|exact Hd].
      intros y Hy. rewrite !lookup_alter_ne by (apply Hxl; exact Hy).
      reflexivity.
  - assert (l = []) as -> by (apply (hd_nonzero _ _ _ _ Hd); lia).
    simpl. split; [|exact I]. split; [exact H0|]. split.
    + rewrite field_alter_eq, lookup_alter_eq, Hs. reflexivity.
    + rewrite field_alter_keep by (intros []; reflexivity).
      rewrite field_alter_eq, Hs. reflexivity.
Qed.

(* --- pop ---------------------------------------------------------- *)

Lemma pop_lookup_other n h y : y ≠ n → pop_heap n h !! y = h !! y.
Proof.
  intros Hn. unfold pop_heap.
  destruct (decide (n ≠ 0)); rewrite ?lookup_alter_ne by congruence;
    reflexivity.
Qed.

Lemma pop_refcnt n h y : field refcnt (pop_heap n h) y = field refcnt h y.
Proof.
  unfold pop_heap.
  destruct (decide (n ≠ 0));
    rewrite ?field_alter_keep by (intros []; reflexivity); reflexivity.
Qed.

Lemma pop_dseg h prev x l :
  dseg h prev (x :: l) 0 → NoDup (x :: l) →
  dseg (pop_heap (hd 0 l) h) 0 l 0.
Proof.
  simpl. intros [_ Hd] Hnd. apply NoDup_cons in Hnd as [_ Hnd].
  unfold pop_heap. destruct (decide (hd 0 l ≠ 0)) as [Hne|He].
  - apply (dseg_rehead _ x); assumption.
  - assert (l = []) as -> by (apply (hd_nonzero _ _ _ _ Hd); lia).
    exact I.
Qed.

(* --- unlink ------------------------------------------------------- *)

Lemma unlink_lookup_other x p n h y :
  y ≠ x → y ≠ p → y ≠ n → unlink_heap x p n h !! y = h !! y.
Proof.
  intros Hx Hp Hn. unfold unlink_heap.
  destruct (decide (p ≠ 0)); destruct (decide (n ≠ 0));
    rewrite !lookup_alter_ne by congruence; reflexivity.
Qed.

Lemma unlink_refcnt x p n h y :
  field refcnt (unlink_heap x p n h) y = field refcnt h y.
Proof.
  unfold unlink_heap.
  destruct (decide (p ≠ 0)); destruct (decide (n ≠ 0));
    rewrite !field_alter_keep by (intros []; reflexivity); reflexivity.
Qed.

Lemma unlink_dseg h l1 x l2 :
  dseg h 0 (l1 ++ x :: l2) 0 → NoDup (l1 ++ x :: l2) →
  dseg (unlink_heap x (last_or 0 l1) (hd 0 l2) h) 0 (l1 ++ l2) 0.
Proof.
  intros Hd Hnd.
  apply NoDup_app in Hnd as (Hnd1 & Hdisj & Hnd2).
  apply NoDup_cons in Hnd2 as [Hx2 Hnd2].
  assert (Hx1 : x ∉ l1) by (intros Hin; apply (Hdisj x Hin); left).
  assert (H12 : ∀ y, y ∈ l1 → y ∉ l2)
    by (intros y Hy1 Hy2; apply (Hdisj y Hy1); right; exact Hy2).
  apply dseg_app in Hd as [Hd1 Hd2]. simpl in Hd1, Hd2.
  destruct Hd2 as [Hw Hd2].
  pose proof (last_or_nonzero _ _ _ _ Hd1) as Hlast.
  pose proof (hd_nonzero _ _ _ _ Hd2) as Hhd.
  assert (Hp1 : l1 ≠ [] → last_or 0 l1 ∈ l1).
  { intros Hne. unfold last_or. destruct (last l1) as [z|] eqn:Hz; simpl.
    - eapply last_Some_elem_of; eauto.
    - apply last_None in Hz. contradiction. }
  assert (Hn2 : l2 ≠ [] → hd 0 l2 ∈ l2).
  { destruct l2; [congruence|]. intros _. left. }
  apply dseg_app. unfold unlink_heap. split.
  - (* the part before x: its last element now points past x *)
    destruct (decide (last_or 0 l1 ≠ 0)) as [Hpne|Hpe].
    + assert (Hl1 : l1 ≠ []) by (intros E; apply Hpne, Hlast, E).
      eapply dseg_frame; [|apply (dseg_retail _ _ _ _ (hd 0 l2) Hnd1 Hd1)].
      intros y Hy.
      assert (x ≠ y) by (intros ->; contradiction).
      assert (hd 0 l2 ≠ y).
      { intros E. destruct (decide (l2 = [])) as [->|Hl2].
        - simpl in E. subst y.
          destruct (dseg_elem _ _ _ _ _ Hd1 Hy) as [? _]. congruence.
        - apply (H12 y Hy). rewrite <- E. apply Hn2, Hl2. }
      destruct (decide (hd 0 l2 ≠ 0));
        split; rewrite !field_alter_ne by assumption; reflexivity.
    + assert (l1 = []) as -> by (apply Hlast; lia). exact I.
  - (* the part after x: its first element now points before x *)
    destruct (decide (hd 0 l2 ≠ 0)) as [Hnne|Hne].
    + assert (Hl2 : l2 ≠ []) by (intros E; apply Hnne, Hhd, E).
      eapply dseg_frame;
        [|apply (dseg_rehead _ _ _ _ (last_or 0 l1) Hnd2 Hd2)].
      intros y Hy.
      assert (x ≠ y) by (intros ->; contradiction).
      assert (Hpy : last_or 0 l1 ≠ 0 → last_or 0 l1 ≠ y).
      { intros Hpne E. apply (H12 y); [|exact Hy]. rewrite <- E.
        apply Hp1. intros El. apply Hpne, Hlast, El. }
      assert (Hstep : ∀ (A : Type) (g : slabStruct → A) h0,
        field g (alter (set_next 0) x (alter (set_previous 0) x h0)) y =
        field g h0 y).
      { intros A g h0. rewrite !field_alter_ne by assumption. reflexivity. }
      rewrite !Hstep.
      destruct (decide (last_or 0 l1 ≠ 0)) as [Hpne|Hpe]; [|auto].
      specialize (Hpy Hpne).
      destruct (decide (hd 0 l2 = y)) as [Ey|Hny].
      * rewrite Ey. rewrite !field_alter_eq.
        rewrite lookup_alter_ne by exact Hpy. auto.
      * rewrite !(field_alter_ne _ _ (hd 0 l2)) by assumption.
        rewrite !(field_alter_ne _ _ (last_or 0 l1)) by assumption. auto.
    + assert (l2 = []) as -> by (apply Hhd; lia). exact I.
Qed.

End Transformers.

Section Bystanders.
Implicit Types (h : gmap Z slabStruct) (l : list Z) (x y : Z).

Lemma hd_outside l l' y :
  (∀ z, z ∈ l' → z ∉ l) → y ∈ l → y ≠ 0 → y ≠ hd 0 l'.
Proof.
  intros Hdis Hy H0 E. destruct l' as [|z l']; simpl in E; [congruence|].
  subst z. apply (Hdis y); [left|exact Hy].
Qed.

Lemma last_outside l l' y :
  (∀ z, z ∈ l' → z ∉ l) → y ∈ l → y ≠ 0 → y ≠ last_or 0 l'.
Proof.
  intros Hdis Hy H0 E. unfold last_or in E.
  destruct (last l') as [z|] eqn:Hz; simpl in E; [|congruence].
  subst z. apply last_Some_elem_of in Hz. apply (Hdis y); assumption.
Qed.

Lemma push_dseg_other h l lt x :
  dseg h 0 l 0 → x ∉ l → (∀ z, z ∈ lt → z ∉ l) →
  dseg (push_heap (hd 0 lt) x h) 0 l 0.
Proof.
  intros Hd Hx Hdis. eapply dseg_frame_lookup; [|exact Hd].
  intros y Hy. destruct (dseg_elem _ _ _ _ _ Hd Hy) as [H0 _].
  apply push_lookup_other.
  - intros ->. contradiction.
  - eapply hd_outside; eauto.
Qed.

Lemma pop_dseg_other h l ls :
  dseg h 0 l 0 → (∀ z, z ∈ ls → z ∉ l) →
  dseg (pop_heap (hd 0 ls) h) 0 l 0.
Proof.
  intros Hd Hdis. eapply dseg_frame_lookup; [|exact Hd].
  intros y Hy. destruct (dseg_elem _ _ _ _ _ Hd Hy) as [H0 _].
  apply pop_lookup_other. eapply hd_outside; eauto.
Qed.

Lemma unlink_dseg_other h l l1 x l2 :
  dseg h 0 l 0 → x ∉ l → (∀ z, z ∈ l1 → z ∉ l) → (∀ z, z ∈ l2 → z ∉ l) →
  dseg (unlink_heap x (last_or 0 l1) (hd 0 l2) h) 0 l 0.
Proof.
  intros Hd Hx Hdis1 Hdis2. eapply dseg_frame_lookup; [|exact Hd].
  intros y Hy. destruct (dseg_elem _ _ _ _ _ Hd Hy) as [H0 _].
  apply unlink_lookup_other.
  - intros ->. contradiction.
  - eapply last_outside; eauto.
  - eapply hd_outside; eauto.
Qed.

Lemma refcnt_is_Some h h' :
  (∀ y, field refcnt h' y = field refcnt h y) →
  ∀ y, is_Some (h' !! y) ↔ is_Some (h !! y).
Proof.
  intros Hf y. rewrite <- !(field_is_Some refcnt), Hf. reflexivity.
Qed.

Lemma push_is_Some head x h y :
  is_Some (push_heap head x h !! y) ↔ is_Some (h !! y).
Proof. apply refcnt_is_Some. intros. apply push_refcnt. Qed.

Lemma pop_is_Some n h y : is_Some (pop_heap n h !! y) ↔ is_Some (h !! y).
Proof. apply refcnt_is_Some. intros. apply pop_refcnt. Qed.

Lemma unlink_is_Some x p n h y :
  is_Some (unlink_heap x p n h !! y) ↔ is_Some (h !! y).
Proof. apply refcnt_is_Some. intros. apply unlink_refcnt. Qed.

Lemma size_same_dom h h' :
  (∀ y, is_Some (h' !! y) ↔ is_Some (h !! y)) → size h' = size h.
Proof.
  intros Hd. rewrite <- !size_dom. f_equal. apply set_eq. intros y.
  rewrite !elem_of_dom. apply Hd.
Qed.

End Bystanders.

(* ===================================================================== *)
(*  free_list                                                            *)
(* ===================================================================== *)

Section FreeList.
Implicit Types (h : gmap Z slabStruct) (l : list Z) (c : cache).

Lemma lookup_release_all l h y :
  release_all l h !! y = if decide (y ∈ l) then None else h !! y.
Proof.
  revert h. induction l as [|x l IH]; intros h; simpl.
  - destruct (decide (y ∈ [])) as [Hin|]; [inversion Hin|reflexivity].
  - rewrite IH. destruct (decide (y ∈ l)) as [Hy|Hy].
    + rewrite decide_True by (right; exact Hy). reflexivity.
    + destruct (decide (x = y)) as [->|Hne].
      * rewrite decide_True by left. apply lookup_delete_eq.
      * rewrite decide_False
          by (intros Hin; apply elem_of_cons in Hin as [?|?]; congruence).
        apply lookup_delete_ne. exact Hne.
Qed.

Lemma length_le_size l h :
  NoDup l → (∀ y, y ∈ l → is_Some (h !! y)) → (length l ≤ size h)%nat.
Proof.
  revert h. induction l as [|x l IH]; intros h Hnd Hin; simpl; [lia|].
  apply NoDup_cons in Hnd as [Hx Hnd].
  destruct (Hin x) as [s Hs]; [left|].
  assert (size h = S (size (delete x h))) as ->.
  { rewrite map_size_delete_Some by eauto.
    pose proof (map_size_insert_Some x s (delete x h)).
    assert (size h ≠ 0%nat); [|lia].
    intros E. apply map_size_empty_inv in E. subst h.
    rewrite lookup_empty in Hs. discriminate. }
  apply le_n_S, IH; [exact Hnd|].
  intros y Hy. rewrite lookup_delete_ne by (intros ->; contradiction).
  apply Hin. right. exact Hy.
Qed.

Lemma size_release_all l h :
  NoDup l → (∀ y, y ∈ l → is_Some (h !! y)) →
  size h = (length l + size (release_all l h))%nat.
Proof.
  revert h. induction l as [|x l IH]; intros h Hnd Hin; simpl; [lia|].
  apply NoDup_cons in Hnd as [Hx Hnd].
  destruct (Hin x) as [s Hs]; [left|].
  rewrite <- IH.
  - rewrite map_size_delete_Some by eauto.
    assert (size h ≠ 0%nat); [|lia].
    intros E. apply map_size_empty_inv in E. subst h.
    rewrite lookup_empty in Hs. discriminate.
  - exact Hnd.
  - intros y Hy. rewrite lookup_delete_ne by (intros ->; contradiction).
    apply Hin. right. exact Hy.
Qed.

Lemma free_slab_run h c acq rel a :
  is_Some (h !! a) →
  free_slab a (mkState c (mkPages h acq rel)) =
  Some (tt, mkState c (mkPages (delete a h) acq (a :: rel))).
Proof. intros [s Hs]. unfold free_slab; simpl. rewrite Hs. reflexivity. Qed.

(* Walking a chain returns its regions in order. *)
Lemma free_list_loop_run fuel h prev l c acq rel :
  dseg h prev l 0 → NoDup l → (length l < fuel)%nat →
  free_list_loop fuel (hd 0 l) (mkState c (mkPages h acq rel)) =
  Some (tt, mkState c (mkPages (release_all l h) acq (reverse l ++ rel))).
Proof.
  revert h prev l rel. induction fuel as [|fuel IH]; intros h prev l rel Hd Hnd Hlen;
    [lia|].
  destruct l as [|x l]; cbn [hd free_list_loop].
  - rewrite decide_True by reflexivity. reflexivity.
  - simpl in Hd, Hlen. destruct Hd as [(H0 & Hp & Hn) Hd].
    apply NoDup_cons in Hnd as [Hx Hnd].
    rewrite decide_False by exact H0.
    unfold field in Hn. destruct (h !! x) as [s|] eqn:Hs; [|discriminate].
    simpl in Hn. injection Hn as Hn.
    run_load Hs.
    erewrite bind_run by (apply free_slab_run; eauto).
    rewrite Hn. erewrite (IH _ x).
    + rewrite reverse_cons, <- app_assoc. reflexivity.
    + eapply dseg_frame_lookup; [|exact Hd]. intros y Hy.
      apply lookup_delete_ne. intros ->. contradiction.
    + exact Hnd.
    + lia.
Qed.

Lemma free_list_run h prev l c acq rel :
  dseg h prev l 0 → NoDup l →
  free_list (hd 0 l) (mkState c (mkPages h acq rel)) =
  Some (tt, mkState c (mkPages (release_all l h) acq (reverse l ++ rel))).
Proof.
  intros Hd Hnd. unfold free_list. cbn [st_pages mem].
  eapply free_list_loop_run; [exact Hd|exact Hnd|].
  apply Nat.lt_succ_r, length_le_size; [exact Hnd|].
  intros y Hy. eapply dseg_elem; eauto.
Qed.

(* The bound on the number of iterations is never the reason for a
   walk to stop: any larger bound gives the same outcome. *)
Lemma free_list_fuel_irrelevant fuel fuel' h a c acq rel :
  (size h < fuel)%nat → (size h < fuel')%nat →
  free_list_loop fuel a (mkState c (mkPages h acq rel)) =
  free_list_loop fuel' a (mkState c (mkPages h acq rel)).
Proof.
  revert fuel' h a rel. induction fuel as [|fuel IH];
    intros fuel' h a rel Hf Hf'; [lia|].
  destruct fuel' as [|fuel']; [lia|]. simpl.
  destruct (decide (a = 0)); [reflexivity|].
  destruct (h !! a) as [s|] eqn:Hs.
  - run_load Hs. symmetry. run_load Hs. symmetry.
    erewrite !bind_run by (apply free_slab_run; eauto).
    assert (size h = S (size (delete a h))).
    { rewrite map_size_delete_Some by eauto.
      assert (size h ≠ 0%nat); [|lia].
      intros E. apply map_size_empty_inv in E. subst h.
      rewrite lookup_empty in Hs. discriminate. }
    apply IH; lia.
  - rewrite !bind_fault; [reflexivity| |]; unfold load; simpl; rewrite Hs;
      reflexivity.
Qed.

End FreeList.

(* ===================================================================== *)
(*  Counting the pointers a caller holds                                 *)
(* ===================================================================== *)

Section Counting.
Implicit Types (live : list (Z * Z)) (p b : Z).

Lemma count_live_nonneg b live : 0 ≤ count_live b live.
Proof.
  induction live as [|e live IH]; simpl; [lia|].
  destruct (decide (e.2 = b)); lia.
Qed.

Lemma count_live_pos p b live : (p, b) ∈ live → 0 < count_live b live.
Proof.
  induction live as [|e live IH]; intros Hin; [inversion Hin|].
  simpl. pose proof (count_live_nonneg b live).
  apply elem_of_cons in Hin as [<-|Hin].
  - simpl. rewrite decide_True by reflexivity. lia.
  - specialize (IH Hin). destruct (decide (e.2 = b)); lia.
Qed.

Lemma remove_live_elem p live e :
  e ∈ remove_live p live → e ∈ live.
Proof.
  induction live as [|e' live IH]; simpl; [auto|].
  destruct (decide (e'.1 = p)).
  - intros Hin. right. exact Hin.
  - intros Hin. apply elem_of_cons in Hin as [->|Hin]; [left|right; auto].
Qed.

Lemma remove_live_count p b live y :
  p ∈ live.*1 → (∀ b', (p, b') ∈ live → b' = b) →
  count_live y (remove_live p live) =
  count_live y live - (if decide (b = y) then 1 else 0).
Proof.
  induction live as [|e live IH]; intros Hin Hb; [inversion Hin|].
  simpl. destruct (decide (e.1 = p)) as [Ep|Np].
  - assert (e.2 = b) as ->.
    { apply Hb. destruct e as [p' b']; simpl in *. subst p'. left. }
    destruct (decide (e.2 = y)); lia.
  - simpl. rewrite IH.
    + lia.
    + rewrite fmap_cons in Hin. apply elem_of_cons in Hin as [E|Hin];
        [congruence|exact Hin].
    + intros b' Hb'. apply Hb. right. exact Hb'.
Qed.

End Counting.

(* ===================================================================== *)
(*  The invariant of the allocator                                       *)
(* ===================================================================== *)

Section Invariant.
Implicit Types (h : gmap Z slabStruct) (c : cache) (acq rel : list Z)
               (lc lp le : list Z) (live : list (Z * Z)).

Lemma nodup3 lc lp le :
  NoDup (lc ++ lp ++ le) ↔
  NoDup lc ∧ NoDup lp ∧ NoDup le ∧
  (∀ y, y ∈ lc → y ∉ lp) ∧ (∀ y, y ∈ lc → y ∉ le) ∧
  (∀ y, y ∈ lp → y ∉ le).
Proof.
  rewrite !NoDup_app. setoid_rewrite elem_of_app. naive_solver.
Qed.

Lemma slot_bounds c k :
  geometry_ok c → 0 ≤ k < slab_objects c →
  0 ≤ object_size c * k ∧
  sizeof_slabStruct + object_size c * k < 2 ^ (slab_order c + 12) ∧
  2 ^ (slab_order c + 12) ≤ 2 ^ 22 ∧
  slab_objects c < 2 ^ 32.
Proof.
  intros [Ho Hs Hn Hfit] Hk.
  assert (Hpow : 2 ^ (slab_order c + 12) ≤ 2 ^ 22)
    by (apply Z.pow_le_mono_r; lia).
  unfold sizeof_slabStruct in *.
  assert (object_size c * k + object_size c ≤ object_size c * slab_objects c)
    by nia.
  assert (slab_objects c ≤ object_size c * slab_objects c) by nia.
  change (2 ^ 22) with 4194304 in *. change (2 ^ 32) with 4294967296.
  repeat split; nia.
Qed.

Lemma setup_geometry size :
  size_ok size →
  geometry_ok
    (mkCache 0 0 0 size (setup_order size)
       (if decide (setup_order size > 0) then 1
        else (4096 - sizeof_slabStruct) / size)).
Proof.
  intros Hok. pose proof Hok as [Hpos Hfit].
  pose proof (setup_order_le_10 size Hok) as Hord.
  assert (Hlt : sizeof_slabStruct + size < 2 ^ 64)
    by (eapply Z.lt_trans; [exact Hfit|reflexivity]).
  destruct (setup_order_strict size ltac:(lia) Hlt) as (_ & Hup & _).
  split; cbn [slab_order object_size slab_objects]; [exact Hord|exact Hpos| |].
  - destruct (decide (setup_order size > 0)); [lia|].
    apply Z.div_le_lower_bound; [lia|].
    assert (setup_order size = 0) as E by lia. rewrite E in Hup.
    unfold sizeof_slabStruct in *. simpl in Hup. lia.
  - rewrite Z.pow_add_r by lia. change (2 ^ 12) with 4096.
    destruct (decide (setup_order size > 0)).
    + lia.
    + assert (setup_order size = 0) as E by lia. rewrite E.
      pose proof (Z.mul_div_le (4096 - sizeof_slabStruct) size Hpos).
      unfold sizeof_slabStruct in *. simpl. lia.
Qed.

Lemma cache_setup_run size c0 pg :
  size ≠ 0 →
  cache_setup size (mkState c0 pg) =
  Some (tt, mkState
    (mkCache 0 0 0 size (setup_order size)
       (if decide (setup_order size > 0) then 1
        else (4096 - sizeof_slabStruct) / size)) pg).
Proof.
  intros Hne. unfold cache_setup. fold (setup_order size).
  do 5 run_put. run_get.
  cbn [with_slab_order with_object_size with_complete with_partially
       with_empty slab_order].
  destruct (decide (setup_order size > 0)); [reflexivity|].
  rewrite decide_False by exact Hne. reflexivity.
Qed.

Lemma setup_rep size :
  size_ok size →
  rep [] [] []
    (mkCache 0 0 0 size (setup_order size)
       (if decide (setup_order size > 0) then 1
        else (4096 - sizeof_slabStruct) / size)) ∅ [] [] [].
Proof.
  intros Hok. split; try reflexivity; try exact I.
  - apply setup_geometry, Hok.
  - constructor.
  - intros y. rewrite lookup_empty. split; [intros [? ?]; discriminate|].
    intros Hin. inversion Hin.
  - intros y [? Hy]. rewrite lookup_empty in Hy. discriminate.
  - intros y [? Hy]. rewrite lookup_empty in Hy. discriminate.
  - intros y Hin. inversion Hin.
  - intros y Hin. inversion Hin.
  - intros p b Hin. inversion Hin.
Qed.

End Invariant.

(* ===================================================================== *)
(*  The public operations preserve the invariant                         *)
(* ===================================================================== *)

Ltac simpl_cache :=
  cbn [complete_slab partially_slab empty_slab object_size slab_order
       slab_objects with_complete with_partially with_empty].

Section AllocSpec.
Implicit Types (h : gmap Z slabStruct) (c : cache) (acq rel : list Z)
               (lc lp le : list Z) (live : list (Z * Z)).

Lemma dseg_set_refcnt h prev l nxt v a :
  dseg h prev l nxt → dseg (alter (set_refcnt v) a h) prev l nxt.
Proof.
  apply dseg_frame. intros y _.
  rewrite !field_alter_keep by (intros []; reflexivity). auto.
Qed.

Lemma refcnt_set_refcnt h v a y :
  is_Some (h !! a) →
  field refcnt (alter (set_refcnt v) a h) y =
  if decide (a = y) then Some v else field refcnt h y.
Proof.
  intros [s Hs]. destruct (decide (a = y)) as [->|Hne].
  - rewrite field_alter_eq, Hs. reflexivity.
  - apply field_alter_ne. exact Hne.
Qed.

Lemma pop_run n h c acq rel :
  (n = 0 ∨ is_Some (h !! n)) →
  (if decide (n ≠ 0) then store n (set_previous 0) else mret tt)
    (mkState c (mkPages h acq rel)) =
  Some (tt, mkState c (mkPages (pop_heap n h) acq rel)).
Proof.
  intros Hn. unfold pop_heap. destruct (decide (n ≠ 0)) as [Hne|He].
  - destruct Hn as [?|Hn]; [contradiction|]. apply store_run. exact Hn.
  - reflexivity.
Qed.

Lemma hd_in_heap h prev l nxt :
  dseg h prev l nxt → hd 0 l = 0 ∨ is_Some (h !! hd 0 l).
Proof.
  destruct l as [|x l]; [left; reflexivity|]. intros Hd. right.
  eapply dseg_elem; [exact Hd|left].
Qed.

Lemma rep_transfer lc lp le c h acq rel live lc' lp' le' c' h' live' :
  rep lc lp le c h acq rel live →
  object_size c' = object_size c → slab_order c' = slab_order c →
  slab_objects c' = slab_objects c →
  complete_slab c' = hd 0 lc' → partially_slab c' = hd 0 lp' →
  empty_slab c' = hd 0 le' →
  dseg h' 0 lc' 0 → dseg h' 0 lp' 0 → dseg h' 0 le' 0 →
  NoDup (lc' ++ lp' ++ le') →
  (∀ y, y ∈ lc' ++ lp' ++ le' ↔ y ∈ lc ++ lp ++ le) →
  (∀ y, is_Some (h' !! y) ↔ is_Some (h !! y)) →
  (∀ y, is_Some (h !! y) → field refcnt h' y = Some (count_live y live')) →
  (∀ y, y ∈ lc' → count_live y live' = 0) →
  (∀ y, y ∈ lp' → 0 < count_live y live' < slab_objects c) →
  (∀ y, y ∈ le' → 0 < count_live y live' ≤ slab_objects c) →
  (∀ p b, (p, b) ∈ live' →
     (p, b) ∈ live ∨
     (is_Some (h !! b) ∧
      ∃ k, 0 ≤ k < slab_objects c ∧
           p = b + sizeof_slabStruct + k * object_size c)) →
  rep lc' lp' le' c' h' acq rel live'.
Proof.
  intros [Hgeo Hhc Hhp Hhe Hdc Hdp Hde Hnd Hdom Hreg Hcnt Hoc Hop Hoe
          Hlive Hlog] Eos Eor Eob Hc' Hp' He' Hdc' Hdp' Hde' Hnd' Hel Hsome
         Hcnt' Hoc' Hop' Hoe' Hlive'.
  split; try assumption.
  - destruct Hgeo. split; rewrite ?Eos, ?Eor, ?Eob; assumption.
  - intros y. rewrite Hsome, Hel. apply Hdom.
  - intros y Hy. rewrite Eor. apply Hreg, Hsome, Hy.
  - intros y Hy. apply Hcnt', Hsome, Hy.
  - rewrite Eob. exact Hop'.
  - rewrite Eob. exact Hoe'.
  - intros p b Hin. rewrite Eob, Eos, Hsome.
    destruct (Hlive' p b Hin) as [Hold|Hnew]; [apply Hlive, Hold|exact Hnew].
  - rewrite Hlog. f_equal. symmetry. apply size_same_dom, Hsome.
Qed.

Lemma alloc_partial_rep lc a lp le c h acq rel live r :
  rep lc (a :: lp) le c h acq rel live →
  ∃ c' h' lp' le',
    cache_alloc r (mkState c (mkPages h acq rel)) =
    Some (a + sizeof_slabStruct + count_live a live * object_size c,
          mkState c' (mkPages h' acq rel)) ∧
    rep lc lp' le' c' h' acq rel
      ((a + sizeof_slabStruct + count_live a live * object_size c, a) :: live).
Proof.
  intros R. pose proof R as [Hgeo Hhc Hhp Hhe Hdc Hdp Hde Hnd Hdom Hreg Hcnt
                   Hoc Hop Hoe Hlive Hlog].
  set (k := count_live a live).
  assert (Hk : 0 < k < slab_objects c) by (apply Hop; left).
  destruct (slot_bounds c k Hgeo ltac:(lia)) as (Hb1 & Hb2 & Hb3 & Hb4).
  pose proof Hdp as Hdp'. simpl in Hdp'. destruct Hdp' as [(Ha0 & _ & Han) Hdp'].
  assert (Hin : is_Some (h !! a)) by (apply Hdom; set_solver).
  pose proof (Hcnt a Hin) as Hca. fold k in Hca.
  destruct Hin as [s Hs].
  rewrite (field_Some_lookup refcnt _ _ _ Hs) in Hca.
  rewrite (field_Some_lookup next _ _ _ Hs) in Han.
  injection Hca as Hca. injection Han as Han.
  destruct (Hreg a ltac:(eauto)) as (Hr1 & Hr2 & Hr3).
  apply nodup3 in Hnd as (Hnc & Hnp & Hne & Hcp & Hce & Hpe).
  apply NoDup_cons in Hnp as [Hap Hnp].
  simpl in Hhp.
  unfold cache_alloc. run_get. rewrite Hhp.
  rewrite decide_True by exact Ha0. run_get. run_load Hs. run_store.
  assert (Hs1 : alter (set_refcnt (wrap32 (refcnt s + 1))) a h !! a =
                Some (set_refcnt (wrap32 (refcnt s + 1)) s))
    by (rewrite lookup_alter_eq, Hs; reflexivity).
  run_load Hs1. run_get. cbn [refcnt set_refcnt next].
  rewrite Hca.
  assert (Hw32 : wrap32 (k + 1) = k + 1)
    by (unfold wrap32; apply Z.mod_small; lia).
  assert (Hres : wrap64 (a + sizeof_slabStruct + wrap64 (object_size c * k)) =
                 a + sizeof_slabStruct + k * object_size c).
  { unfold wrap64, sizeof_slabStruct in *.
    rewrite (Z.mod_small (object_size c * k)) by lia.
    rewrite Z.mod_small; lia. }
  rewrite Hw32, Hres.
  pose proof (hd_in_heap _ _ _ _ Hdp') as Hhdp.
  pose proof (hd_in_heap _ _ _ _ Hde) as Hhde.
  assert (Hcount : ∀ y, count_live y ((a + sizeof_slabStruct + k * object_size c, a) :: live) =
                        (if decide (a = y) then 1 else 0) + count_live y live)
    by reflexivity.
  assert (Hrc : ∀ y, is_Some (h !! y) →
            field refcnt (alter (set_refcnt (k + 1)) a h) y =
            Some (count_live y ((a + sizeof_slabStruct + k * object_size c, a) :: live))).
  { intros y Hy. rewrite refcnt_set_refcnt by eauto. rewrite Hcount.
    destruct (decide (a = y)) as [<-|]; [f_equal; fold k; lia|].
    rewrite Hcnt by exact Hy. f_equal. }
  assert (Hlv : ∀ p b, (p, b) ∈ (a + sizeof_slabStruct + k * object_size c, a) :: live →
     (p, b) ∈ live ∨
     (is_Some (h !! b) ∧
      ∃ k, 0 ≤ k < slab_objects c ∧
           p = b + sizeof_slabStruct + k * object_size c)).
  { intros p b Hin. apply elem_of_cons in Hin as [E|Hin]; [|left; exact Hin].
    injection E as -> ->. right. split; [eauto|]. exists k. split; [lia|reflexivity]. }
  destruct (decide (k + 1 = slab_objects c)) as [Hfull|Hroom].
  - (* the slab is now full: it moves to the head of the empty list *)
    run_put. run_get. simpl_cache. rewrite Han.
    rewrite ?bind_assoc.
    erewrite bind_run
      by (apply pop_run; rewrite lookup_alter_is_Some; exact Hhdp).
    erewrite bind_run.
    2:{ apply insert_in_empty_list_run; simpl_cache;
        rewrite ?pop_is_Some, ?lookup_alter_is_Some; [eauto|].
        rewrite Hhe. exact Hhde. }
    simpl_cache. rewrite Hhe.
    eexists _, _, lp, (a :: le). split; [reflexivity|].
    eapply rep_transfer;
      [exact R|reflexivity|reflexivity|reflexivity|exact Hhc|reflexivity
      |reflexivity| | | | | | | | | | |].
    + apply push_dseg_other; [|set_solver|set_solver].
      apply pop_dseg_other; [|set_solver]. apply dseg_set_refcnt, Hdc.
    + apply push_dseg_other; [|set_solver|set_solver].
      apply (pop_dseg _ 0 a); [apply dseg_set_refcnt, Hdp|].
      apply NoDup_cons. auto.
    + apply push_dseg; [|exact Hne|set_solver|exact Ha0|].
      * apply pop_dseg_other; [|set_solver]. apply dseg_set_refcnt, Hde.
      * rewrite pop_is_Some, lookup_alter_is_Some. eauto.
    + apply nodup3. repeat split; [assumption..|apply NoDup_cons; split; [set_solver|assumption]| | |]; set_solver.
    + intros y. set_solver.
    + intros y. rewrite push_is_Some, pop_is_Some, lookup_alter_is_Some. reflexivity.
    + intros y Hy. rewrite push_refcnt, pop_refcnt. apply Hrc, Hy.
    + intros y Hy. rewrite Hcount. rewrite decide_False by set_solver.
      rewrite Hoc by exact Hy. reflexivity.
    + intros y Hy. rewrite Hcount. rewrite decide_False by set_solver.
      specialize (Hop y ltac:(set_solver)). lia.
    + intros y Hy. rewrite Hcount. apply elem_of_cons in Hy as [->|Hy].
      * rewrite decide_True by reflexivity. fold k. lia.
      * rewrite decide_False by set_solver. specialize (Hoe y Hy). lia.
    + exact Hlv.
  - (* there is still room: the slab stays where it is *)
    erewrite bind_run by reflexivity.
    eexists _, _, (a :: lp), le. split; [reflexivity|].
    eapply rep_transfer;
      [exact R|reflexivity|reflexivity|reflexivity|exact Hhc|exact Hhp
      |exact Hhe| | | | | | | | | | |]; try assumption.
    + apply dseg_set_refcnt, Hdc.
    + apply dseg_set_refcnt, Hdp.
    + apply dseg_set_refcnt, Hde.
    + apply nodup3. repeat split; try assumption. apply NoDup_cons; auto.
    + reflexivity.
    + intros y. rewrite lookup_alter_is_Some. reflexivity.
    + intros y Hy. rewrite Hcount. rewrite decide_False by set_solver.
      rewrite Hoc by exact Hy. reflexivity.
    + intros y Hy. rewrite Hcount. apply elem_of_cons in Hy as [->|Hy].
      * rewrite decide_True by reflexivity. fold k. lia.
      * rewrite decide_False by set_solver.
        specialize (Hop y ltac:(set_solver)). lia.
    + intros y Hy. rewrite Hcount. rewrite decide_False by set_solver.
      specialize (Hoe y Hy). lia.
Qed.
Lemma alloc_complete_rep a lc le c h acq rel live r :
  rep (a :: lc) [] le c h acq rel live →
  ∃ c' h' lp' le',
    cache_alloc r (mkState c (mkPages h acq rel)) =
    Some (a + sizeof_slabStruct + count_live a live * object_size c,
          mkState c' (mkPages h' acq rel)) ∧
    rep lc lp' le' c' h' acq rel
      ((a + sizeof_slabStruct + count_live a live * object_size c, a) :: live).
Proof.
  intros R. pose proof R as [Hgeo Hhc Hhp Hhe Hdc Hdp Hde Hnd Hdom Hreg Hcnt
                   Hoc Hop Hoe Hlive Hlog].
  set (k := count_live a live).
  assert (Hk : k = 0) by (apply Hoc; left).
  pose proof (geo_objects _ Hgeo) as Hobj.
  destruct (slot_bounds c k Hgeo ltac:(lia)) as (Hb1 & Hb2 & Hb3 & Hb4).
  pose proof Hdc as Hdc'. simpl in Hdc'. destruct Hdc' as [(Ha0 & _ & Han) Hdc'].
  assert (Hin : is_Some (h !! a)) by (apply Hdom; set_solver).
  pose proof (Hcnt a Hin) as Hca. fold k in Hca.
  destruct Hin as [s Hs].
  rewrite (field_Some_lookup refcnt _ _ _ Hs) in Hca.
  rewrite (field_Some_lookup next _ _ _ Hs) in Han.
  injection Hca as Hca. injection Han as Han.
  destruct (Hreg a ltac:(eauto)) as (Hr1 & Hr2 & Hr3).
  apply nodup3 in Hnd as (Hnc & Hnp & Hne & Hcp & Hce & Hpe).
  apply NoDup_cons in Hnc as [Hac Hnc].
  simpl in Hhc, Hhp.
  unfold cache_alloc. run_get. rewrite Hhp.
  rewrite decide_False by (intros E; apply E; reflexivity).
  run_get. rewrite Hhc. rewrite decide_True by exact Ha0.
  run_load Hs. run_store.
  assert (Hs1 : alter (set_refcnt (wrap32 (refcnt s + 1))) a h !! a =
                Some (set_refcnt (wrap32 (refcnt s + 1)) s))
    by (rewrite lookup_alter_eq, Hs; reflexivity).
  run_load Hs1. run_put. run_get. simpl_cache. cbn [refcnt set_refcnt next].
  rewrite Hca, Han.
  assert (Hw32 : wrap32 (k + 1) = k + 1)
    by (unfold wrap32; apply Z.mod_small; lia).
  assert (Hres : wrap64 (a + sizeof_slabStruct) =
                 a + sizeof_slabStruct + k * object_size c).
  { unfold wrap64, sizeof_slabStruct in *. rewrite Z.mod_small; lia. }
  rewrite Hw32, Hres.
  pose proof (hd_in_heap _ _ _ _ Hdc') as Hhdc.
  pose proof (hd_in_heap _ _ _ _ Hde) as Hhde.
  rewrite ?bind_assoc.
  erewrite bind_run
    by (apply pop_run; rewrite lookup_alter_is_Some; exact Hhdc).
  assert (Hs2 : pop_heap (hd 0 lc) (alter (set_refcnt (k + 1)) a h) !! a =
                Some (set_refcnt (k + 1) s)).
  { rewrite pop_lookup_other.
    - rewrite lookup_alter_eq, Hs. reflexivity.
    - intros E. destruct lc as [|z lc]; simpl in E; [congruence|].
      subst z. apply Hac. left. }
  run_load Hs2. run_get. cbn [refcnt set_refcnt]. simpl_cache.
  assert (Hcount : ∀ y, count_live y ((a + sizeof_slabStruct + k * object_size c, a) :: live) =
                        (if decide (a = y) then 1 else 0) + count_live y live)
    by reflexivity.
  assert (Hrc : ∀ y, is_Some (h !! y) →
            field refcnt (alter (set_refcnt (k + 1)) a h) y =
            Some (count_live y ((a + sizeof_slabStruct + k * object_size c, a) :: live))).
  { intros y Hy. rewrite refcnt_set_refcnt by eauto. rewrite Hcount.
    destruct (decide (a = y)) as [<-|]; [f_equal; fold k; lia|].
    rewrite Hcnt by exact Hy. f_equal. }
  assert (Hlv : ∀ p b, (p, b) ∈ (a + sizeof_slabStruct + k * object_size c, a) :: live →
     (p, b) ∈ live ∨
     (is_Some (h !! b) ∧
      ∃ k, 0 ≤ k < slab_objects c ∧
           p = b + sizeof_slabStruct + k * object_size c)).
  { intros p b Hin. apply elem_of_cons in Hin as [E|Hin]; [|left; exact Hin].
    injection E as -> ->. right. split; [eauto|]. exists k. split; [lia|reflexivity]. }
  destruct (decide (k + 1 = slab_objects c)) as [Hfull|Hroom].
  - (* one object per slab: straight to the empty list *)
    erewrite bind_run.
    2:{ apply insert_in_empty_list_run; simpl_cache;
        rewrite ?pop_is_Some, ?lookup_alter_is_Some; [eauto|].
        rewrite Hhe. exact Hhde. }
    simpl_cache. rewrite Hhe.
    eexists _, _, [], (a :: le). split; [reflexivity|].
    eapply rep_transfer;
      [exact R|reflexivity|reflexivity|reflexivity|reflexivity|exact Hhp
      |reflexivity| | | | | | | | | | |].
    + apply push_dseg_other; [|set_solver|set_solver].
      apply (pop_dseg _ 0 a); [apply dseg_set_refcnt, Hdc|].
      apply NoDup_cons. auto.
    + exact I.
    + apply push_dseg; [|exact Hne|set_solver|exact Ha0|].
      * apply pop_dseg_other; [|set_solver]. apply dseg_set_refcnt, Hde.
      * rewrite pop_is_Some, lookup_alter_is_Some. eauto.
    + apply nodup3. repeat split; [assumption..|apply NoDup_cons; split; [set_solver|assumption]| | |]; set_solver.
    + intros y. set_solver.
    + intros y. rewrite push_is_Some, pop_is_Some, lookup_alter_is_Some. reflexivity.
    + intros y Hy. rewrite push_refcnt, pop_refcnt. apply Hrc, Hy.
    + intros y Hy. rewrite Hcount. rewrite decide_False by set_solver.
      rewrite Hoc by set_solver. reflexivity.
    + intros y Hy. inversion Hy.
    + intros y Hy. rewrite Hcount. apply elem_of_cons in Hy as [->|Hy].
      * rewrite decide_True by reflexivity. fold k. lia.
      * rewrite decide_False by set_solver. specialize (Hoe y Hy). lia.
    + exact Hlv.
  - (* the slab becomes partially occupied *)
    erewrite bind_run.
    2:{ apply insert_in_partially_list_run; simpl_cache;
        rewrite ?pop_is_Some, ?lookup_alter_is_Some; [eauto|].
        rewrite Hhp. left. reflexivity. }
    simpl_cache. rewrite Hhp.
    eexists _, _, [a], le. split; [reflexivity|].
    eapply rep_transfer;
      [exact R|reflexivity|reflexivity|reflexivity|reflexivity|reflexivity
      |exact Hhe| | | | | | | | | | |].
    + apply (push_dseg_other _ _ []); [|set_solver|set_solver].
      apply (pop_dseg _ 0 a); [apply dseg_set_refcnt, Hdc|].
      apply NoDup_cons. auto.
    + apply (push_dseg _ []); [exact I|constructor|set_solver|exact Ha0|].
      rewrite pop_is_Some, lookup_alter_is_Some. eauto.
    + apply (push_dseg_other _ _ []); [|set_solver|set_solver].
      apply pop_dseg_other; [|set_solver]. apply dseg_set_refcnt, Hde.
    + apply nodup3. repeat split; [assumption|apply NoDup_singleton|assumption| | |]; set_solver.
    + intros y. set_solver.
    + intros y. rewrite push_is_Some, pop_is_Some, lookup_alter_is_Some. reflexivity.
    + intros y Hy. rewrite push_refcnt, pop_refcnt. apply Hrc, Hy.
    + intros y Hy. rewrite Hcount. rewrite decide_False by set_solver.
      rewrite Hoc by set_solver. reflexivity.
    + intros y Hy. apply list_elem_of_singleton in Hy as ->. rewrite Hcount.
      rewrite decide_True by reflexivity. fold k. lia.
    + intros y Hy. rewrite Hcount. rewrite decide_False by set_solver.
      specialize (Hoe y Hy). lia.
    + exact Hlv.
Qed.
Lemma count_live_absent b live :
  (∀ p, (p, b) ∉ live) → count_live b live = 0.
Proof.
  induction live as [|[p b'] live IH]; intros Hab; [reflexivity|].
  simpl. rewrite decide_False.
  - rewrite IH; [reflexivity|]. intros q Hq. apply (Hab q). right. exact Hq.
  - intros ->. apply (Hab p). left.
Qed.

Lemma alloc_slab_run r order h c acq rel :
  r.1 ≠ 0 →
  alloc_slab r order (mkState c (mkPages h acq rel)) =
  Some (r.1, mkState c (mkPages (<[r.1 := r.2]> h) (r.1 :: acq) rel)).
Proof. intros Hr. unfold alloc_slab. rewrite decide_False by exact Hr. reflexivity. Qed.

Lemma alloc_fresh_rep le c h acq rel live r :
  rep [] [] le c h acq rel live →
  r.1 ≠ 0 → region_ok (slab_order c) r.1 → h !! r.1 = None →
  ∃ c' h' lp' le',
    cache_alloc r (mkState c (mkPages h acq rel)) =
    Some (r.1 + sizeof_slabStruct + count_live r.1 live * object_size c,
          mkState c' (mkPages h' (r.1 :: acq) rel)) ∧
    rep [] lp' le' c' h' (r.1 :: acq) rel
      ((r.1 + sizeof_slabStruct + count_live r.1 live * object_size c, r.1) :: live).
Proof.
  intros R Ha0 Hra Hfresh.
  pose proof R as [Hgeo Hhc Hhp Hhe Hdc Hdp Hde Hnd Hdom Hreg Hcnt
                   Hoc Hop Hoe Hlive Hlog].
  destruct r as [a junk]. cbn [fst snd] in *.
  assert (Hk : count_live a live = 0).
  { apply count_live_absent. intros p Hin.
    destruct (Hlive p a Hin) as [[s Hs] _]. congruence. }
  rewrite Hk.
  pose proof (geo_objects _ Hgeo) as Hobj.
  destruct Hra as (Hr1 & Hr2 & Hr3).
  destruct (slot_bounds c 0 Hgeo ltac:(lia)) as (Hb1 & Hb2 & Hb3 & Hb4).
  apply nodup3 in Hnd as (Hnc & Hnp & Hne & Hcp & Hce & Hpe).
  simpl in Hhc, Hhp.
  assert (Hale : a ∉ le).
  { intros Hin. assert (is_Some (h !! a)) as [s Hs] by (apply Hdom; set_solver).
    congruence. }
  unfold cache_alloc. run_get. rewrite Hhp.
  rewrite decide_False by (intros E; apply E; reflexivity).
  run_get. rewrite Hhc.
  rewrite decide_False by (intros E; apply E; reflexivity).
  run_get. rewrite ?bind_assoc.
  erewrite bind_run by (apply alloc_slab_run; exact Ha0). cbn [fst snd].
  erewrite bind_run by (apply store_run; rewrite lookup_insert_eq; eauto).
  set (h1 := alter (set_refcnt 1) a (<[a := junk]> h)).
  assert (Hs1 : h1 !! a = Some (set_refcnt 1 junk))
    by (unfold h1; rewrite lookup_alter_eq, lookup_insert_eq; reflexivity).
  assert (Hother : ∀ y, y ≠ a → h1 !! y = h !! y).
  { intros y Hy. unfold h1. rewrite lookup_alter_ne, lookup_insert_ne by congruence.
    reflexivity. }
  assert (Hsome1 : ∀ y, is_Some (h1 !! y) ↔ y = a ∨ is_Some (h !! y)).
  { intros y. destruct (decide (y = a)) as [->|Hne'].
    - rewrite Hs1. split; [auto|eauto].
    - rewrite Hother by exact Hne'. split; [auto|intros [?|?]; [contradiction|assumption]]. }
  run_load Hs1. run_get. cbn [refcnt set_refcnt].
  assert (Hres : wrap64 (a + sizeof_slabStruct) =
                 a + sizeof_slabStruct + 0 * object_size c).
  { unfold wrap64, sizeof_slabStruct in *. rewrite Z.mod_small; lia. }
  rewrite Hres.
  pose proof (hd_in_heap _ _ _ _ Hde) as Hhde.
  assert (Hde1 : dseg h1 0 le 0).
  { eapply dseg_frame_lookup; [|exact Hde]. intros y Hy. apply Hother.
    intros ->. contradiction. }
  assert (Hcount : ∀ y, count_live y ((a + sizeof_slabStruct + 0 * object_size c, a) :: live) =
                        (if decide (a = y) then 1 else 0) + count_live y live)
    by reflexivity.
  assert (Hsize : size h1 = S (size h)).
  { unfold h1. rewrite (size_same_dom (<[a:=junk]> h)).
    - apply map_size_insert_None, Hfresh.
    - intros y. apply lookup_alter_is_Some. }
  assert (Hrc : ∀ y, is_Some (h1 !! y) →
     field refcnt h1 y =
     Some (count_live y ((a + sizeof_slabStruct + 0 * object_size c, a) :: live))).
  { intros y Hy. rewrite Hcount. destruct (decide (a = y)) as [<-|Hney].
    - rewrite (field_Some_lookup _ _ _ _ Hs1), Hk. reflexivity.
    - unfold field. rewrite Hother by congruence.
      apply Hsome1 in Hy as [?|Hy]; [congruence|].
      apply Hcnt in Hy. exact Hy. }
  assert (Hlv : ∀ h', (∀ y, is_Some (h' !! y) ↔ is_Some (h1 !! y)) →
     ∀ p b, (p, b) ∈ (a + sizeof_slabStruct + 0 * object_size c, a) :: live →
     is_Some (h' !! b) ∧
      ∃ k, 0 ≤ k < slab_objects c ∧
           p = b + sizeof_slabStruct + k * object_size c).
  { intros h' Hh' p b Hin. rewrite Hh', Hsome1.
    apply elem_of_cons in Hin as [E|Hin].
    - injection E as -> ->. split; [auto|]. exists 0. split; [lia|reflexivity].
    - destruct (Hlive p b Hin) as [? ?]. auto. }
  assert (Hrg : ∀ h', (∀ y, is_Some (h' !! y) ↔ is_Some (h1 !! y)) →
     ∀ y, is_Some (h' !! y) → region_ok (slab_order c) y).
  { intros h' Hh' y Hy. apply Hh', Hsome1 in Hy as [->|Hy];
      [repeat split; assumption|apply Hreg, Hy]. }
  destruct (decide (1 = slab_objects c)) as [Hfull|Hroom].
  - erewrite bind_run.
    2:{ apply insert_in_empty_list_run; simpl_cache; [eauto|].
        rewrite Hhe. destruct Hhde as [?|Hhde]; [auto|].
        right. apply Hsome1. auto. }
    simpl_cache. rewrite Hhe.
    eexists _, _, [], (a :: le). split; [reflexivity|].
    split.
    + destruct Hgeo. split; assumption.
    + exact Hhc.
    + exact Hhp.
    + reflexivity.
    + exact I.
    + exact I.
    + apply push_dseg; [exact Hde1|exact Hne|exact Hale|exact Ha0|eauto].
    + apply nodup3. repeat split; [constructor..|apply NoDup_cons; auto| | |]; set_solver.
    + intros y. rewrite push_is_Some, Hsome1, Hdom. set_solver.
    + apply Hrg. intros y. apply push_is_Some.
    + intros y Hy. rewrite push_refcnt. apply Hrc. apply push_is_Some in Hy. exact Hy.
    + intros y Hy. inversion Hy.
    + intros y Hy. inversion Hy.
    + intros y Hy. rewrite Hcount. apply elem_of_cons in Hy as [->|Hy].
      * rewrite decide_True by reflexivity. simpl_cache. lia.
      * rewrite decide_False by (intros ->; contradiction). specialize (Hoe y Hy).
        simpl_cache. lia.
    + apply Hlv. intros y. apply push_is_Some.
    + cbn [length]. rewrite Hlog.
      rewrite (size_same_dom h1 (push_heap _ _ h1)) by (intros; apply push_is_Some).
      lia.
  - erewrite bind_run.
    2:{ apply insert_in_partially_list_run; simpl_cache; [eauto|].
        rewrite Hhp. left. reflexivity. }
    simpl_cache. rewrite Hhp.
    eexists _, _, [a], le. split; [reflexivity|].
    split.
    + destruct Hgeo. split; assumption.
    + exact Hhc.
    + reflexivity.
    + exact Hhe.
    + exact I.
    + apply (push_dseg _ []); [exact I|constructor|set_solver|exact Ha0|eauto].
    + apply (push_dseg_other _ _ []); [exact Hde1|exact Hale|set_solver].
    + apply nodup3. repeat split; [constructor|apply NoDup_singleton|assumption| | |]; set_solver.
    + intros y. rewrite push_is_Some, Hsome1, Hdom. set_solver.
    + apply Hrg. intros y. apply push_is_Some.
    + intros y Hy. rewrite push_refcnt. apply Hrc. apply push_is_Some in Hy. exact Hy.
    + intros y Hy. inversion Hy.
    + intros y Hy. apply list_elem_of_singleton in Hy as ->. rewrite Hcount.
      rewrite decide_True by reflexivity. simpl_cache. lia.
    + intros y Hy. rewrite Hcount.
      rewrite decide_False by (intros ->; contradiction). specialize (Hoe y Hy).
      simpl_cache. lia.
    + apply Hlv. intros y. apply push_is_Some.
    + cbn [length]. rewrite Hlog.
      rewrite (size_same_dom h1 (push_heap _ _ h1)) by (intros; apply push_is_Some).
      lia.
Qed.
End AllocSpec.

Arguments alloc_partial_rep {lc a lp le c h acq rel live} r _.
Arguments alloc_complete_rep {a lc le c h acq rel live} r _.
Arguments alloc_fresh_rep {le c h acq rel live r} _ _ _ _.

Section FreeSpec.
Implicit Types (h : gmap Z slabStruct) (c : cache) (acq rel : list Z)
               (lc lp le : list Z) (live : list (Z * Z)).

(* Where a held pointer's slab is found, and what it counts. *)
Lemma live_slab lc lp le c h acq rel live p b :
  rep lc lp le c h acq rel live → (p, b) ∈ live →
  calculate_slab_start c p = b ∧
  ∃ s, (h !! b = Some s) ∧ refcnt s = count_live b live ∧
       (0 < count_live b live ≤ slab_objects c) ∧
       (b ∉ lc) ∧ (b ∈ lp ∨ b ∈ le).
Proof.
  intros R Hin. pose proof R as [Hgeo Hhc Hhp Hhe Hdc Hdp Hde Hnd Hdom Hreg
    Hcnt Hoc Hop Hoe Hlive Hlog].
  destruct (Hlive p b Hin) as [Hb (k & Hk & ->)].
  destruct (slot_bounds c k Hgeo Hk) as (Hb1 & Hb2 & _).
  split.
  - unfold calculate_slab_start.
    replace (b + sizeof_slabStruct + k * object_size c)
      with (b + (sizeof_slabStruct + object_size c * k)) by lia.
    apply slab_start_of_slot; [apply Hgeo|apply Hreg, Hb|].
    unfold sizeof_slabStruct in *. lia.
  - pose proof (Hcnt b Hb) as Hc. destruct Hb as [s Hs]. exists s.
    rewrite (field_Some_lookup _ _ _ _ Hs) in Hc. injection Hc as Hc.
    pose proof (count_live_pos _ _ _ Hin) as Hpos.
    assert (Hnc : b ∉ lc) by (intros Hbc; apply Hoc in Hbc; lia).
    assert (Hmem : b ∈ lc ++ lp ++ le) by (apply Hdom; eauto).
    assert (Hpe : b ∈ lp ∨ b ∈ le) by set_solver.
    repeat split; try assumption.
    destruct Hpe as [Hp|He]; [apply Hop in Hp; lia|apply Hoe in He; lia].
Qed.

Lemma free_unlink_run b s h c acq rel lc l1 l2 :
  h !! b = Some s → dseg h 0 (l1 ++ b :: l2) 0 → NoDup (l1 ++ b :: l2) →
  dseg h 0 lc 0 → complete_slab c = hd 0 lc →
  (remove_from_empty_list b;; insert_in_complete_list b)
    (mkState c (mkPages h acq rel)) =
  Some (tt, mkState (with_complete b (unlink_cache b (last_or 0 l1) (hd 0 l2) c))
              (mkPages (push_heap (hd 0 lc) b
                          (unlink_heap b (last_or 0 l1) (hd 0 l2) h)) acq rel)).
Proof.
  intros Hs Hd Hnd Hdc Hhc.
  destruct (dseg_links _ _ _ _ _ _ Hd) as (Hb0 & Hp & Hn).
  rewrite (field_Some_lookup previous _ _ _ Hs) in Hp.
  rewrite (field_Some_lookup next _ _ _ Hs) in Hn.
  injection Hp as Hp. injection Hn as Hn.
  pose proof Hd as Hd'. apply dseg_app in Hd' as [Hd1 Hd2].
  simpl in Hd2. destruct Hd2 as [_ Hd2].
  apply NoDup_app in Hnd as (Hnd1 & Hdisj & Hnd2).
  erewrite bind_run.
  2:{ apply (remove_from_empty_list_run b s); [exact Hs| |].
      - rewrite Hp. destruct (decide (l1 = [])) as [->|Hne]; [left; reflexivity|].
        right. assert (Hlin : last_or 0 l1 ∈ l1).
        { unfold last_or. destruct (last l1) as [z|] eqn:Hz; simpl.
          - eapply last_Some_elem_of; eauto.
          - apply last_None in Hz. contradiction. }
        split.
        + intros E. apply (Hdisj _ Hlin). rewrite E. left.
        + eapply dseg_elem; [exact Hd1|exact Hlin].
      - rewrite Hn. exact (hd_in_heap _ _ _ _ Hd2). }
  rewrite Hp, Hn.
  rewrite insert_in_complete_list_run.
  - assert (Hcc : complete_slab (unlink_cache b (last_or 0 l1) (hd 0 l2) c) =
                  complete_slab c).
    { unfold unlink_cache. repeat case_decide; reflexivity. }
    rewrite Hcc, Hhc. reflexivity.
  - rewrite unlink_is_Some. eauto.
  - assert (Hcc : complete_slab (unlink_cache b (last_or 0 l1) (hd 0 l2) c) =
                  complete_slab c).
    { unfold unlink_cache. repeat case_decide; reflexivity. }
    rewrite Hcc, Hhc, unlink_is_Some. exact (hd_in_heap _ _ _ _ Hdc).
Qed.

Lemma hd_app_nonempty l1 l2 : l1 ≠ [] → hd 0 (l1 ++ l2) = hd 0 l1.
Proof. destruct l1; [congruence|reflexivity]. Qed.

Lemma cache_free_rep lc lp le c h acq rel live p :
  rep lc lp le c h acq rel live → p ∈ live.*1 →
  ∃ c' h' lc' lp' le',
    cache_free p (mkState c (mkPages h acq rel)) =
    Some (tt, mkState c' (mkPages h' acq rel)) ∧
    rep lc' lp' le' c' h' acq rel (remove_live p live).
Proof.
  intros R Hp. pose proof R as [Hgeo Hhc Hhp Hhe Hdc Hdp Hde Hnd Hdom Hreg
    Hcnt Hoc Hop Hoe Hlive Hlog].
  apply list_elem_of_fmap in Hp as ([p' b] & Ep & Hin). simpl in Ep. subst p'.
  destruct (live_slab _ _ _ _ _ _ _ _ _ _ R Hin)
    as (Hmask & s & Hs & Hrc & Hn & Hbc & Hbpe).
  set (n := count_live b live) in *.
  destruct (slot_bounds c 0 Hgeo ltac:(pose proof (geo_objects _ Hgeo); lia))
    as (_ & _ & _ & Hb4).
  assert (Hw32 : wrap32 (n - 1) = n - 1)
    by (unfold wrap32; apply Z.mod_small; lia).
  assert (Hcount : ∀ y, count_live y (remove_live p live) =
                        count_live y live - (if decide (b = y) then 1 else 0)).
  { intros y. apply remove_live_count.
    - apply list_elem_of_fmap. exists (p, b). auto.
    - intros b' Hb'. destruct (live_slab _ _ _ _ _ _ _ _ _ _ R Hb') as [E _].
      congruence. }
  assert (Hlv : ∀ q b', (q, b') ∈ remove_live p live →
     (q, b') ∈ live ∨
     (is_Some (h !! b') ∧
      ∃ k, 0 ≤ k < slab_objects c ∧
           q = b' + sizeof_slabStruct + k * object_size c)).
  { intros q b' Hq. left. eapply remove_live_elem, Hq. }
  assert (Hrc' : ∀ y, is_Some (h !! y) →
            field refcnt (alter (set_refcnt (n - 1)) b h) y =
            Some (count_live y (remove_live p live))).
  { intros y Hy. rewrite refcnt_set_refcnt by eauto. rewrite Hcount.
    destruct (decide (b = y)) as [<-|]; [f_equal|].
    rewrite Hcnt by exact Hy. f_equal. lia. }
  pose proof Hnd as Hnd3.
  apply nodup3 in Hnd3 as (Hnc & Hnp & Hne & Hcp & Hce & Hpe).
  unfold cache_free. run_get. unfold id. rewrite Hmask.
  run_load Hs. run_store.
  assert (Hs1 : alter (set_refcnt (wrap32 (refcnt s - 1))) b h !! b =
                Some (set_refcnt (wrap32 (refcnt s - 1)) s))
    by (rewrite lookup_alter_eq, Hs; reflexivity).
  run_load Hs1. cbn [refcnt set_refcnt]. rewrite Hrc, Hw32.
  rewrite Hrc, Hw32 in Hs1.
  destruct (decide (n - 1 = 0)) as [Hzero|Hpos].
  - (* the slab drained: unlink it and push it on the complete list *)
    destruct Hbpe as [Hbp|Hbe].
    + apply list_elem_of_split in Hbp as (l1 & l2 & ->).
      erewrite (free_unlink_run b _ _ c acq rel lc l1 l2);
        [|exact Hs1|apply dseg_set_refcnt, Hdp|exact Hnp
         |apply dseg_set_refcnt, Hdc|exact Hhc].
      pose proof (last_or_nonzero _ _ _ _ (proj1 (proj1 (dseg_app _ _ _ _ _) Hdp))) as Hl1.
      pose proof Hnp as Hnp'. apply NoDup_app in Hnp' as (Hn1 & Hd12 & Hn2).
      apply NoDup_cons in Hn2 as [Hb2 Hn2].
      assert (Hb0 : b ≠ 0) by (eapply dseg_elem; [exact Hdp|set_solver]).
      eexists _, _, (b :: lc), (l1 ++ l2), le. split; [reflexivity|].
      eapply rep_transfer; [exact R| | | | | | | | | | | | | | | | |].
      * unfold unlink_cache. repeat case_decide; reflexivity.
      * unfold unlink_cache. repeat case_decide; reflexivity.
      * unfold unlink_cache. repeat case_decide; reflexivity.
      * reflexivity.
      * simpl_cache. unfold unlink_cache.
        destruct (decide (last_or 0 l1 ≠ 0)) as [Hne1|He1].
        -- rewrite Hhp. rewrite !hd_app_nonempty; [reflexivity| |];
             intros E; apply Hne1, Hl1, E.
        -- assert (l1 = []) as -> by (apply Hl1; lia). simpl in *.
           rewrite decide_False.
           ++ rewrite decide_True by exact Hhp. reflexivity.
           ++ rewrite Hhe. intros E. destruct le as [|z le]; simpl in E; [congruence|].
              subst z. apply (Hpe b); left.
      * simpl_cache. unfold unlink_cache. repeat case_decide; simpl_cache;
          try assumption.
        exfalso. destruct le as [|z le]; simpl in *; [congruence|].
        apply (Hpe b); [set_solver|]. assert (z = b) as -> by congruence. left.
      * apply push_dseg; [|exact Hnc|exact Hbc|exact Hb0|].
        -- apply unlink_dseg_other; [apply dseg_set_refcnt, Hdc|exact Hbc| |];
             set_solver.
        -- rewrite unlink_is_Some, lookup_alter_is_Some. eauto.
      * apply push_dseg_other; [|set_solver|set_solver].
        apply unlink_dseg; [apply dseg_set_refcnt, Hdp|exact Hnp].
      * apply push_dseg_other; [|set_solver|set_solver].
        apply unlink_dseg_other; [apply dseg_set_refcnt, Hde| | |]; set_solver.
      * apply nodup3. repeat split;
          [apply NoDup_cons; auto|apply NoDup_app; set_solver|assumption| | |];
          set_solver.
      * intros y. set_solver.
      * intros y. rewrite push_is_Some, unlink_is_Some, lookup_alter_is_Some.
        reflexivity.
      * intros y Hy. rewrite push_refcnt, unlink_refcnt. apply Hrc', Hy.
      * intros y Hy. rewrite Hcount. apply elem_of_cons in Hy as [->|Hy].
        -- rewrite decide_True by reflexivity. fold n. lia.
        -- rewrite decide_False by (intros ->; contradiction).
           rewrite Hoc by exact Hy. lia.
      * intros y Hy. rewrite Hcount. rewrite decide_False by set_solver.
        specialize (Hop y ltac:(set_solver)). lia.
      * intros y Hy. rewrite Hcount. rewrite decide_False by set_solver.
        specialize (Hoe y Hy). lia.
      * exact Hlv.
    + apply list_elem_of_split in Hbe as (l1 & l2 & ->).
      erewrite (free_unlink_run b _ _ c acq rel lc l1 l2);
        [|exact Hs1|apply dseg_set_refcnt, Hde|exact Hne
         |apply dseg_set_refcnt, Hdc|exact Hhc].
      pose proof (last_or_nonzero _ _ _ _ (proj1 (proj1 (dseg_app _ _ _ _ _) Hde))) as Hl1.
      pose proof Hne as Hne'. apply NoDup_app in Hne' as (Hn1 & Hd12 & Hn2).
      apply NoDup_cons in Hn2 as [Hb2 Hn2].
      assert (Hb0 : b ≠ 0) by (eapply dseg_elem; [exact Hde|set_solver]).
      eexists _, _, (b :: lc), lp, (l1 ++ l2). split; [reflexivity|].
      eapply rep_transfer; [exact R| | | | | | | | | | | | | | | | |].
      * unfold unlink_cache. repeat case_decide; reflexivity.
      * unfold unlink_cache. repeat case_decide; reflexivity.
      * unfold unlink_cache. repeat case_decide; reflexivity.
      * reflexivity.
      * simpl_cache. unfold unlink_cache. repeat case_decide; simpl_cache;
          try assumption.
        exfalso. destruct lp as [|z lp]; simpl in *; [congruence|].
        apply (Hpe z); [left|]. set_solver.
      * simpl_cache. unfold unlink_cache.
        destruct (decide (last_or 0 l1 ≠ 0)) as [Hne1|He1].
        -- rewrite Hhe. rewrite !hd_app_nonempty; [reflexivity| |];
             intros E; apply Hne1, Hl1, E.
        -- assert (l1 = []) as -> by (apply Hl1; lia). simpl in *.
           rewrite decide_True by exact Hhe. reflexivity.
      * apply push_dseg; [|exact Hnc|exact Hbc|exact Hb0|].
        -- apply unlink_dseg_other; [apply dseg_set_refcnt, Hdc|exact Hbc| |];
             set_solver.
        -- rewrite unlink_is_Some, lookup_alter_is_Some. eauto.
      * apply push_dseg_other; [|set_solver|set_solver].
        apply unlink_dseg_other; [apply dseg_set_refcnt, Hdp| | |]; set_solver.
      * apply push_dseg_other; [|set_solver|set_solver].
        apply unlink_dseg; [apply dseg_set_refcnt, Hde|exact Hne].
      * apply nodup3. repeat split;
          [apply NoDup_cons; auto|assumption|apply NoDup_app; set_solver| | |];
          set_solver.
      * intros y. set_solver.
      * intros y. rewrite push_is_Some, unlink_is_Some, lookup_alter_is_Some.
        reflexivity.
      * intros y Hy. rewrite push_refcnt, unlink_refcnt. apply Hrc', Hy.
      * intros y Hy. rewrite Hcount. apply elem_of_cons in Hy as [->|Hy].
        -- rewrite decide_True by reflexivity. fold n. lia.
        -- rewrite decide_False by (intros ->; contradiction).
           rewrite Hoc by exact Hy. lia.
      * intros y Hy. rewrite Hcount. rewrite decide_False by set_solver.
        specialize (Hop y Hy). lia.
      * intros y Hy. rewrite Hcount. rewrite decide_False by set_solver.
        specialize (Hoe y ltac:(set_solver)). lia.
      * exact Hlv.
  - (* objects remain: the slab stays on its list *)
    eexists _, _, lc, lp, le. split; [reflexivity|].
    eapply rep_transfer;
      [exact R|reflexivity|reflexivity|reflexivity|exact Hhc|exact Hhp
      |exact Hhe| | | | | | | | | | |]; try assumption.
    + apply dseg_set_refcnt, Hdc.
    + apply dseg_set_refcnt, Hdp.
    + apply dseg_set_refcnt, Hde.
    + reflexivity.
    + intros y. rewrite lookup_alter_is_Some. reflexivity.
    + intros y Hy. rewrite Hcount. rewrite decide_False by (intros ->; contradiction).
      rewrite Hoc by exact Hy. lia.
    + intros y Hy. rewrite Hcount. specialize (Hop y Hy).
      destruct (decide (b = y)) as [<-|]; [fold n in Hop|]; lia.
    + intros y Hy. rewrite Hcount. specialize (Hoe y Hy).
      destruct (decide (b = y)) as [<-|]; [fold n in Hoe|]; lia.
Qed.
End FreeSpec.

Arguments live_slab {lc lp le c h acq rel live p b} _ _.
Arguments cache_free_rep {lc lp le c h acq rel live p} _ _.

Section ReclaimSpec.
Implicit Types (h : gmap Z slabStruct) (c : cache) (acq rel : list Z)
               (lc lp le : list Z) (live : list (Z * Z)).

Lemma NoDup_reverse (l : list Z) : NoDup l → NoDup (reverse l).
Proof. intros Hnd. rewrite reverse_Permutation. exact Hnd. Qed.

Lemma release_all_dseg h l l' :
  dseg h 0 l' 0 → (∀ y, y ∈ l → y ∉ l') → dseg (release_all l h) 0 l' 0.
Proof.
  intros Hd Hdis. eapply dseg_frame_lookup; [|exact Hd]. intros y Hy.
  rewrite lookup_release_all. apply decide_False. intros Hin.
  apply (Hdis y Hin Hy).
Qed.

Lemma cache_shrink_run lc lp le c h acq rel live :
  rep lc lp le c h acq rel live →
  cache_shrink (mkState c (mkPages h acq rel)) =
  Some (tt, mkState (with_complete 0 c)
              (mkPages (release_all lc h) acq (reverse lc ++ rel))).
Proof.
  intros [Hgeo Hhc Hhp Hhe Hdc Hdp Hde Hnd Hdom Hreg Hcnt Hoc Hop Hoe
          Hlive Hlog].
  apply nodup3 in Hnd as (Hnc & _).
  unfold cache_shrink. run_get. rewrite Hhc.
  erewrite bind_run by (eapply free_list_run; eassumption).
  reflexivity.
Qed.

Lemma cache_shrink_rep lc lp le c h acq rel live :
  rep lc lp le c h acq rel live →
  rep [] lp le (with_complete 0 c) (release_all lc h) acq
      (reverse lc ++ rel) live.
Proof.
  intros [Hgeo Hhc Hhp Hhe Hdc Hdp Hde Hnd Hdom Hreg Hcnt Hoc Hop Hoe
          Hlive Hlog].
  pose proof Hnd as Hnd3.
  apply nodup3 in Hnd3 as (Hnc & Hnp & Hne & Hcp & Hce & Hpe).
  assert (Hlook : ∀ y, is_Some (release_all lc h !! y) ↔ y ∈ lp ++ le).
  { intros y. rewrite lookup_release_all. destruct (decide (y ∈ lc)) as [Hy|Hy].
    - split; [intros [? ?]; discriminate|]. set_solver.
    - rewrite Hdom. set_solver. }
  assert (Hsub : ∀ y, is_Some (release_all lc h !! y) →
                      release_all lc h !! y = h !! y).
  { intros y Hy. rewrite lookup_release_all in *.
    destruct (decide (y ∈ lc)); [destruct Hy; discriminate|reflexivity]. }
  split.
  - destruct Hgeo. split; assumption.
  - reflexivity.
  - exact Hhp.
  - exact Hhe.
  - exact I.
  - apply release_all_dseg; assumption.
  - apply release_all_dseg; assumption.
  - apply nodup3. repeat split; [constructor|assumption..| | |]; set_solver.
  - exact Hlook.
  - intros y Hy. simpl_cache. apply Hreg. rewrite <- Hsub by exact Hy. exact Hy.
  - intros y Hy. unfold field. rewrite Hsub by exact Hy.
    apply Hcnt. rewrite <- Hsub by exact Hy. exact Hy.
  - intros y Hy. inversion Hy.
  - exact Hop.
  - exact Hoe.
  - intros p b Hin. destruct (Hlive p b Hin) as [Hb Hk]. split; [|exact Hk].
    apply Hlook. apply Hdom in Hb.
    pose proof (count_live_pos _ _ _ Hin).
    assert (b ∉ lc) by (intros Hbc; apply Hoc in Hbc; lia).
    set_solver.
  - rewrite Hlog, length_app, length_reverse.
    rewrite (size_release_all lc h); [lia|exact Hnc|].
    intros y Hy. apply Hdom. set_solver.
Qed.

Lemma cache_release_run lc lp le c h acq rel live :
  rep lc lp le c h acq rel live →
  cache_release (mkState c (mkPages h acq rel)) =
  Some (tt, mkState (with_empty 0 (with_partially 0 (with_complete 0 c)))
              (mkPages ∅ acq
                 (reverse le ++ reverse lp ++ reverse lc ++ rel))).
Proof.
  intros [Hgeo Hhc Hhp Hhe Hdc Hdp Hde Hnd Hdom Hreg Hcnt Hoc Hop Hoe
          Hlive Hlog].
  pose proof Hnd as Hnd3.
  apply nodup3 in Hnd3 as (Hnc & Hnp & Hne & Hcp & Hce & Hpe).
  unfold cache_release. run_get. rewrite Hhc.
  rewrite ?bind_assoc.
  erewrite bind_run by (eapply free_list_run; eassumption).
  run_get. rewrite Hhp. rewrite ?bind_assoc.
  erewrite bind_run.
  2:{ eapply free_list_run; [|exact Hnp]. apply release_all_dseg; eassumption. }
  run_get. rewrite Hhe. rewrite ?bind_assoc.
  erewrite bind_run.
  2:{ eapply free_list_run; [|exact Hne].
      apply release_all_dseg; [apply release_all_dseg; eassumption|assumption]. }
  do 2 run_put.
  assert (Hempty : release_all le (release_all lp (release_all lc h)) = ∅).
  { apply map_eq. intros y. rewrite !lookup_release_all, lookup_empty.
    repeat case_decide; try reflexivity.
    destruct (h !! y) eqn:Hy; [|reflexivity].
    assert (y ∈ lc ++ lp ++ le) by (apply Hdom; eauto). set_solver. }
  rewrite Hempty. reflexivity.
Qed.

Lemma cache_release_rep lc lp le c h acq rel live :
  rep lc lp le c h acq rel live →
  rep [] [] [] (with_empty 0 (with_partially 0 (with_complete 0 c))) ∅ acq
      (reverse le ++ reverse lp ++ reverse lc ++ rel) [].
Proof.
  intros [Hgeo Hhc Hhp Hhe Hdc Hdp Hde Hnd Hdom Hreg Hcnt Hoc Hop Hoe
          Hlive Hlog].
  split; try reflexivity; try exact I.
  - destruct Hgeo. split; assumption.
  - constructor.
  - intros y. rewrite lookup_empty. split; [intros [? ?]; discriminate|].
    intros Hin. inversion Hin.
  - intros y [? Hy]. rewrite lookup_empty in Hy. discriminate.
  - intros y [? Hy]. rewrite lookup_empty in Hy. discriminate.
  - intros y Hin. inversion Hin.
  - intros y Hin. inversion Hin.
  - intros p b Hin. inversion Hin.
  - rewrite Hlog, !length_app, !length_reverse, map_size_empty.
    assert (size h = length (lc ++ lp ++ le)).
    { rewrite (size_release_all (lc ++ lp ++ le) h); [|exact Hnd|].
      - assert (release_all (lc ++ lp ++ le) h = ∅) as ->.
        { apply map_eq. intros y. rewrite lookup_release_all, lookup_empty.
          case_decide; [reflexivity|].
          destruct (h !! y) eqn:Hy; [|reflexivity].
          exfalso. apply H, Hdom. eauto. }
        rewrite map_size_empty. lia.
      - intros y Hy. apply Hdom, Hy. }
    rewrite !length_app in H. lia.
Qed.

End ReclaimSpec.

Arguments cache_shrink_run {lc lp le c h acq rel live} _.
Arguments cache_shrink_rep {lc lp le c h acq rel live} _.
Arguments cache_release_run {lc lp le c h acq rel live} _.
Arguments cache_release_rep {lc lp le c h acq rel live} _.

Section Reachability.
Implicit Types (h : gmap Z slabStruct) (c : cache) (acq rel : list Z)
               (lc lp le : list Z) (live : list (Z * Z)).

(* When the lists that can serve an allocation are empty and the page
   primitive answers null, cache_alloc writes through the null pointer. *)
Lemma alloc_null_faults le c h acq rel live r :
  rep [] [] le c h acq rel live → r.1 = 0 →
  cache_alloc r (mkState c (mkPages h acq rel)) = None.
Proof.
  intros [Hgeo Hhc Hhp Hhe Hdc Hdp Hde Hnd Hdom Hreg Hcnt Hoc Hop Hoe
          Hlive Hlog] Hr.
  simpl in Hhc, Hhp.
  assert (H0 : h !! 0 = None).
  { destruct (h !! 0) eqn:E; [|reflexivity].
    destruct (Hreg 0 ltac:(eauto)) as [? _]. lia. }
  unfold cache_alloc. run_get. rewrite Hhp.
  rewrite decide_False by (intros E; apply E; reflexivity).
  run_get. rewrite Hhc.
  rewrite decide_False by (intros E; apply E; reflexivity).
  run_get. rewrite ?bind_assoc.
  erewrite bind_run
    by (unfold alloc_slab; rewrite decide_True by exact Hr; reflexivity).
  apply bind_fault. unfold store. cbn [st_pages mem]. rewrite H0. reflexivity.
Qed.

Lemma step_inv cfg o cfg' :
  inv cfg → op_ok cfg o → step o cfg = Some cfg' → inv cfg'.
Proof.
  destruct cfg as [[c [h acq rel]] live].
  intros (lc & lp & le & R) Hok Hstep. cbn in R.
  destruct o as [r|p| |]; cbn in Hok, Hstep.
  - (* alloc *)
    destruct lp as [|a lp].
    + destruct lc as [|a lc].
      * destruct (decide (r.1 = 0)) as [Hr|Hr].
        -- rewrite (alloc_null_faults _ _ _ _ _ _ _ R Hr) in Hstep. discriminate.
        -- destruct (Hok Hr) as [Hreg Hfresh].
           destruct (alloc_fresh_rep R Hr Hreg Hfresh)
             as (c' & h' & lp' & le' & Hrun & R').
           rewrite Hrun in Hstep. injection Hstep as <-.
           exists [], lp', le'. cbn.
           assert (alloc_source r c = r.1) as ->; [|exact R'].
           unfold alloc_source. rewrite (rep_hp R), (rep_hc R).
           reflexivity.
      * destruct (alloc_complete_rep r R)
          as (c' & h' & lp' & le' & Hrun & R').
        rewrite Hrun in Hstep. injection Hstep as <-.
        exists lc, lp', le'. cbn.
        assert (alloc_source r c = a) as ->; [|exact R'].
        unfold alloc_source. rewrite (rep_hp R), (rep_hc R).
        cbn [hd]. rewrite decide_False by (intros E; apply E; reflexivity).
        apply decide_True.
        pose proof (rep_dc R) as Hd. simpl in Hd.
        destruct Hd as [[? _] _]. assumption.
    + destruct (alloc_partial_rep r R)
        as (c' & h' & lp' & le' & Hrun & R').
      rewrite Hrun in Hstep. injection Hstep as <-.
      exists lc, lp', le'. cbn.
      assert (alloc_source r c = a) as ->; [|exact R'].
      unfold alloc_source. rewrite (rep_hp R). cbn [hd].
      apply decide_True.
      pose proof (rep_dp R) as Hd. simpl in Hd.
      destruct Hd as [[? _] _]. assumption.
  - (* free *)
    destruct (cache_free_rep R Hok)
      as (c' & h' & lc' & lp' & le' & Hrun & R').
    rewrite Hrun in Hstep. injection Hstep as <-.
    exists lc', lp', le'. exact R'.
  - (* shrink *)
    rewrite (cache_shrink_run R) in Hstep.
    injection Hstep as <-. exists [], lp, le.
    apply cache_shrink_rep, R.
  - (* release *)
    rewrite (cache_release_run R) in Hstep.
    injection Hstep as <-. exists [], [], [].
    apply (cache_release_rep R).
Qed.

Lemma reachable_inv size cfg : reachable size cfg → inv cfg.
Proof.
  induction 1 as [c0 st Hok Hrun|cfg o cfg' _ IH Hok Hstep].
  - rewrite cache_setup_run in Hrun by (destruct Hok; lia).
    injection Hrun as <-. exists [], [], []. apply setup_rep, Hok.
  - eapply step_inv; eauto.
Qed.

(* A call whose preconditions hold returns, unless it is an allocation
   that needs a region the page primitive refuses. *)
Lemma step_returns cfg o :
  inv cfg → op_ok cfg o →
  (∀ r, o = Alloc r →
     r.1 ≠ 0 ∨ partially_slab (st_cache (cfg_state cfg)) ≠ 0
            ∨ complete_slab (st_cache (cfg_state cfg)) ≠ 0) →
  is_Some (step o cfg).
Proof.
  destruct cfg as [[c [h acq rel]] live].
  intros (lc & lp & le & R) Hok Hneed. cbn in R, Hneed.
  destruct o as [r|p| |]; cbn in Hok |- *.
  - destruct lp as [|a lp].
    + destruct lc as [|a lc].
      * destruct (Hneed r eq_refl) as [Hr|[Hp|Hc]].
        -- destruct (Hok Hr) as [Hreg Hfresh].
           destruct (alloc_fresh_rep R Hr Hreg Hfresh)
             as (c' & h' & lp' & le' & Hrun & _).
           rewrite Hrun. eauto.
        -- rewrite (rep_hp R) in Hp. contradiction.
        -- rewrite (rep_hc R) in Hc. contradiction.
      * destruct (alloc_complete_rep r R)
          as (c' & h' & lp' & le' & Hrun & _).
        rewrite Hrun. eauto.
    + destruct (alloc_partial_rep r R)
        as (c' & h' & lp' & le' & Hrun & _).
      rewrite Hrun. eauto.
  - destruct (cache_free_rep R Hok)
      as (c' & h' & lc' & lp' & le' & Hrun & _).
    rewrite Hrun. eauto.
  - rewrite (cache_shrink_run R). eauto.
  - rewrite (cache_release_run R). eauto.
Qed.

End Reachability.

Section Sessions.

Lemma boot_reachable c0 size cfg : boot c0 size = Some cfg → reachable size cfg.
Proof.
  unfold boot. case_bool_decide as Hok; [|discriminate].
  destruct (cache_setup size _) as [[[] st]|] eqn:Hrun; [|discriminate].
  intros [= <-]. eapply reach_setup; eauto.
Qed.

Lemma run_reachable size ops cfg cfg' :
  reachable size cfg → run ops cfg = Some cfg' → reachable size cfg'.
Proof.
  revert cfg. induction ops as [|o ops IH]; intros cfg Hr; simpl.
  - intros [= <-]. exact Hr.
  - case_bool_decide as Hok; [|discriminate].
    destruct (step o cfg) as [cfg1|] eqn:Hstep; [|discriminate].
    apply IH. eapply reach_step; eauto.
Qed.

Lemma session_reachable c0 size ops cfg :
  session c0 size ops = Some cfg → reachable size cfg.
Proof.
  unfold session. destruct (boot c0 size) as [cfg0|] eqn:Hb; [|discriminate].
  apply run_reachable. eapply boot_reachable, Hb.
Qed.

End Sessions.

(* ===================================================================== *)
(*  The claims                                                           *)
(* ===================================================================== *)

(** C1 (the code departs from the claim).  The claim: a pointer returned
    by cache_alloc never equals a slot handed out earlier and not freed
    since.  On the code, after setup for 41-byte objects, two allocations
    (4120 and 4161) and a free of 4120, the caller holds 4161 only; the
    next cache_alloc, whose preconditions hold, returns 4161 again: the
    slot index is the in-use count, which the free lowered to 1. *)
Theorem C1_alloc_returns_live_pointer :
  ∃ cfg cfg',
    reachable 41 cfg ∧ op_ok cfg (Alloc (0, stale)) ∧
    cfg_live cfg = [(4161, 4096)] ∧
    step (Alloc (0, stale)) cfg = Some cfg' ∧
    cfg_live cfg' = [(4161, 4096); (4161, 4096)].
Proof.
  destruct (session blank 41 [Alloc (4096, stale); Alloc (0, stale); Free 4120])
    as [cfg|] eqn:E; [|vm_compute in E; discriminate].
  pose proof (session_reachable _ _ _ _ E) as Hreach.
  vm_compute in E. injection E as <-.
  eexists _, _. split; [exact Hreach|]. split; [intros H; contradiction|].
  split; [reflexivity|]. split; vm_compute; reflexivity.
Qed.

(** C2 (the code departs from the claim).  The claim: between public
    calls a slab is on the full list iff in_use = objects_per_slab, and a
    free that takes a full slab to objects_per_slab - 1 moves it to the
    partial list.  On the code, with 2000-byte objects (two per slab),
    after two allocations and one free the slab at 4096 has in_use = 1
    and is still the head of empty_slab, the list of fully occupied
    slabs, while partially_slab is null. *)
Theorem C2_freed_full_slab_stays_on_full_list :
  ∃ cfg s,
    reachable 2000 cfg ∧
    slab_objects (st_cache (cfg_state cfg)) = 2 ∧
    mem (st_pages (cfg_state cfg)) !! 4096 = Some s ∧ refcnt s = 1 ∧
    empty_slab (st_cache (cfg_state cfg)) = 4096 ∧
    partially_slab (st_cache (cfg_state cfg)) = 0 ∧
    complete_slab (st_cache (cfg_state cfg)) = 0.
Proof.
  destruct (session blank 2000 [Alloc (4096, stale); Alloc (0, stale); Free 6120])
    as [cfg|] eqn:E; [|vm_compute in E; discriminate].
  pose proof (session_reachable _ _ _ _ E) as Hreach.
  vm_compute in E. injection E as <-.
  eexists _, _. split; [exact Hreach|].
  repeat split; vm_compute; reflexivity.
Qed.

(** C3.  For every state reached from cache_setup by calls that respect
    their preconditions, and every pointer p the caller holds, carved
    from slab b: calculate_slab_start gives b; b is a multiple of
    2^(12 + slab_order); the offset of p in the slab is smaller than the
    slab size 4096 * 2^slab_order; and b is a held slab whose refcnt is
    the number of held pointers carved from it, p among them. *)
Theorem C3_slab_start_of_live_pointer size cfg p b :
  reachable size cfg → (p, b) ∈ cfg_live cfg →
  calculate_slab_start (st_cache (cfg_state cfg)) p = b ∧
  b mod 2 ^ (12 + slab_order (st_cache (cfg_state cfg))) = 0 ∧
  (0 ≤ p - b < 4096 * 2 ^ slab_order (st_cache (cfg_state cfg))) ∧
  ∃ s, mem (st_pages (cfg_state cfg)) !! b = Some s ∧
       refcnt s = count_live b (cfg_live cfg) ∧ 0 < refcnt s.
Proof.
  intros Hreach Hin. apply reachable_inv in Hreach as (lc & lp & le & R).
  destruct cfg as [[c [h acq rel]] live]. cbn in *.
  destruct (live_slab R Hin)
    as (Hmask & s & Hs & Hrc & Hn & _).
  destruct (rep_live R p b Hin) as [Hb (k & Hk & Hp)].
  destruct (rep_region R b Hb) as (_ & Hal & _).
  pose proof (rep_geo R) as Hgeo.
  destruct (slot_bounds c k Hgeo Hk) as (Hb1 & Hb2 & _).
  pose proof (geo_order _ Hgeo).
  split; [exact Hmask|]. split; [rewrite Z.add_comm; exact Hal|]. split.
  - rewrite Z.add_comm, Z.pow_add_r in Hb2 by lia.
    change (2 ^ 12) with 4096 in Hb2. unfold sizeof_slabStruct in *. lia.
  - exists s. split; [exact Hs|]. split; [exact Hrc|]. lia.
Qed.

Lemma C3_witness :
  ∃ cfg,
    session blank 41 [Alloc (4096, stale); Alloc (0, stale); Free 4120;
                      Alloc (0, stale)] = Some cfg ∧
    calculate_slab_start (st_cache (cfg_state cfg)) 4161 = 4096 ∧
    4096 mod 2 ^ (12 + slab_order (st_cache (cfg_state cfg))) = 0 ∧
    (0 ≤ 4161 - 4096 < 4096 * 2 ^ slab_order (st_cache (cfg_state cfg))) ∧
    ∃ s, mem (st_pages (cfg_state cfg)) !! 4096 = Some s ∧
         refcnt s = count_live 4096 (cfg_live cfg) ∧ 0 < refcnt s.
Proof.
  eexists. split; [vm_compute; reflexivity|].
  apply (C3_slab_start_of_live_pointer 41 _ 4161 4096).
  - apply (session_reachable blank 41
             [Alloc (4096, stale); Alloc (0, stale); Free 4120; Alloc (0, stale)]).
    vm_compute. reflexivity.
  - left.
Defined.

(** C4 (the code departs from the claim).  The claim: cache_setup picks
    the smallest order with 4096 * 2^order >= header_size + object_size,
    so a sum of exactly 8192 gives order 1 and a sum of at most 4096
    gives order 0.  On the code, object_size = 8168 (sum 8192) gives
    slab_order = 2 and object_size = 4072 (sum 4096) gives slab_order = 1:
    smallest_power_of_two counts the binary digits of the quotient by
    4096, one more than needed at every exact power of two. *)
Theorem C4_order_at_exact_slab_size :
  sizeof_slabStruct + 8168 = 4096 * 2 ^ 1 ∧
  cache_setup 8168 (mkState blank nothing_held) =
    Some (tt, mkState (mkCache 0 0 0 8168 2 1) nothing_held) ∧
  sizeof_slabStruct + 4072 = 4096 * 2 ^ 0 ∧
  cache_setup 4072 (mkState blank nothing_held) =
    Some (tt, mkState (mkCache 0 0 0 4072 1 1) nothing_held).
Proof. repeat split; vm_compute; reflexivity. Qed.

(** C5, counterexample.  The claim: for an object size whose required
    order exceeds 10, cache_setup fails and leaves the cache
    uninitialised.  With object_size = 4194304 the header and one object
    need more than 4096 * 2^10 bytes, yet cache_setup returns normally
    and the cache, whose fields held 7 before, is fully initialised with
    slab_order = 11. *)
Lemma C5_setup_accepts_oversized_object :
  4096 * 2 ^ 10 < sizeof_slabStruct + 4194304 ∧
  cache_setup 4194304 (mkState (mkCache 7 7 7 7 7 7) nothing_held) =
    Some (tt, mkState (mkCache 0 0 0 4194304 11 1) nothing_held).
Proof. split; vm_compute; reflexivity. Qed.

(** C5, amended.  cache_setup has no failure path and reports no
    ConfigTooLarge: for every object size greater than 0 it returns with
    the cache initialised, the three heads null and the object size
    stored; when the header and one object need less than 4096 * 2^10
    bytes, the stored slab_order is between 0 and 10 and slab_objects is
    at least 1. *)
Theorem C5_setup_always_returns size c0 pg :
  0 < size →
  ∃ c, cache_setup size (mkState c0 pg) = Some (tt, mkState c pg) ∧
       complete_slab c = 0 ∧ partially_slab c = 0 ∧ empty_slab c = 0 ∧
       object_size c = size ∧
       (sizeof_slabStruct + size < 4096 * 2 ^ 10 →
        (0 ≤ slab_order c ≤ 10) ∧ 1 ≤ slab_objects c).
Proof.
  intros Hpos. eexists. split; [apply cache_setup_run; lia|].
  simpl_cache. repeat split; try reflexivity.
  - apply (setup_order_le_10 size). split; assumption.
  - apply (setup_order_le_10 size). split; assumption.
  - apply (geo_objects _ (setup_geometry size ltac:(split; assumption))).
Qed.

Lemma C5_witness :
  0 < 41 ∧
  ∃ c, cache_setup 41 (mkState blank nothing_held) =
         Some (tt, mkState c nothing_held) ∧
       complete_slab c = 0 ∧ partially_slab c = 0 ∧ empty_slab c = 0 ∧
       object_size c = 41 ∧
       (sizeof_slabStruct + 41 < 4096 * 2 ^ 10 →
        (0 ≤ slab_order c ≤ 10) ∧ 1 ≤ slab_objects c).
Proof.
  split; [lia|]. apply (C5_setup_always_returns 41 blank nothing_held). lia.
Defined.

(** C6 (the code departs from the claim).  The claim: when the lists are
    empty and alloc_slab returns null, cache_alloc reports the failure
    and leaves the cache as it was.  On the code, right after
    cache_setup for 41-byte objects, a null answer of alloc_slab is not
    tested: cache_alloc stores refcnt through the null pointer, which the
    model records as a fault; no result and no state are returned,
    whatever bytes the region would have held. *)
Theorem C6_alloc_dereferences_null junk :
  cache_setup 41 (mkState blank nothing_held) =
    Some (tt, mkState (mkCache 0 0 0 41 0 99) nothing_held) ∧
  cache_alloc (0, junk) (mkState (mkCache 0 0 0 41 0 99) nothing_held) = None.
Proof. split; vm_compute; reflexivity. Qed.

(* Runs of cache_alloc followed by cache_free of its result in which the
   heads do come back: a slab taken from the complete list, a partial
   slab that the allocation does not fill, and a fresh slab, which ends
   as the only element of the complete list. *)
Lemma alloc_free_heads_examples :
  (∃ cfg p st1 st2,
     session blank 2000 [Alloc (4096, stale); Free 4120] = Some cfg ∧
     cache_alloc (0, stale) (cfg_state cfg) = Some (p, st1) ∧
     cache_free p st1 = Some (tt, st2) ∧
     st_cache st2 = st_cache (cfg_state cfg)) ∧
  (∃ cfg p st1 st2,
     session blank 41 [Alloc (4096, stale)] = Some cfg ∧
     cache_alloc (0, stale) (cfg_state cfg) = Some (p, st1) ∧
     cache_free p st1 = Some (tt, st2) ∧
     st_cache st2 = st_cache (cfg_state cfg)) ∧
  (∃ cfg p st1 st2,
     session blank 41 [] = Some cfg ∧
     cache_alloc (4096, stale) (cfg_state cfg) = Some (p, st1) ∧
     cache_free p st1 = Some (tt, st2) ∧
     st_cache st2 = with_complete 4096 (st_cache (cfg_state cfg))).
Proof.
  repeat split; eexists _, _, _, _;
    (split; [vm_compute; reflexivity|]);
    (split; [vm_compute; reflexivity|]);
    (split; [vm_compute; reflexivity|]); reflexivity.
Qed.

(** C7 (the code departs from the claim).  The claim: cache_alloc
    followed by cache_free of the returned pointer leaves the three heads
    as they were whenever the allocation reused an existing slab.  On the
    code, with 2000-byte objects and one object allocated, the slab at
    4096 heads the partial list; the next cache_alloc reuses it (nothing
    is acquired) and fills it, and cache_free of the pointer it returned
    leaves the slab on empty_slab: the heads go from (0, 4096, 0) to
    (0, 0, 4096).  The defect is the one of C2. *)
Theorem C7_alloc_free_changes_heads :
  ∃ cfg p st1 st2,
    reachable 2000 cfg ∧
    cache_alloc (0, stale) (cfg_state cfg) = Some (p, st1) ∧
    acquired (st_pages st1) = acquired (st_pages (cfg_state cfg)) ∧
    cache_free p st1 = Some (tt, st2) ∧
    (complete_slab (st_cache (cfg_state cfg)),
     partially_slab (st_cache (cfg_state cfg)),
     empty_slab (st_cache (cfg_state cfg))) = (0, 4096, 0) ∧
    (complete_slab (st_cache st2), partially_slab (st_cache st2),
     empty_slab (st_cache st2)) = (0, 0, 4096).
Proof.
  destruct (session blank 2000 [Alloc (4096, stale)])
    as [cfg|] eqn:E; [|vm_compute in E; discriminate].
  pose proof (session_reachable _ _ _ _ E) as Hreach.
  vm_compute in E. injection E as <-.
  eexists _, _, _, _. split; [exact Hreach|].
  split; [vm_compute; reflexivity|].
  split; [reflexivity|].
  split; [vm_compute; reflexivity|].
  split; reflexivity.
Qed.

(** C8.  In every state reached from cache_setup by calls that respect
    their preconditions, slabs with refcnt > 0 included, cache_release
    returns; afterwards the three heads are null, no region is held,
    every region that was held has been passed to free_slab, nothing new
    was acquired, and the number of alloc_slab calls that returned a
    region equals the number of free_slab calls. *)
Theorem C8_release_returns_every_region size cfg :
  reachable size cfg →
  ∃ st',
    cache_release (cfg_state cfg) = Some (tt, st') ∧
    complete_slab (st_cache st') = 0 ∧
    partially_slab (st_cache st') = 0 ∧
    empty_slab (st_cache st') = 0 ∧
    mem (st_pages st') = ∅ ∧
    (∀ y, is_Some (mem (st_pages (cfg_state cfg)) !! y) →
          y ∈ released (st_pages st')) ∧
    acquired (st_pages st') = acquired (st_pages (cfg_state cfg)) ∧
    length (acquired (st_pages st')) = length (released (st_pages st')).
Proof.
  intros Hreach. apply reachable_inv in Hreach as (lc & lp & le & R).
  destruct cfg as [[c [h acq rel]] live]. cbn in *.
  eexists. split; [apply (cache_release_run R)|].
  cbn. repeat split; try reflexivity.
  - intros y Hy. apply (rep_dom R) in Hy.
    rewrite !elem_of_app, !elem_of_reverse.
    rewrite !elem_of_app in Hy. tauto.
  - pose proof (rep_log (cache_release_rep R))
      as Hlog.
    rewrite map_size_empty in Hlog. lia.
Qed.

Lemma C8_witness :
  ∃ cfg,
    session blank 2000
      [Alloc (4096, stale); Alloc (0, stale); Alloc (8192, stale);
       Free 4120; Free 6120; Alloc (0, stale)] = Some cfg ∧
    ∃ st',
      cache_release (cfg_state cfg) = Some (tt, st') ∧
      complete_slab (st_cache st') = 0 ∧
      partially_slab (st_cache st') = 0 ∧
      empty_slab (st_cache st') = 0 ∧
      mem (st_pages st') = ∅ ∧
      (∀ y, is_Some (mem (st_pages (cfg_state cfg)) !! y) →
            y ∈ released (st_pages st')) ∧
      acquired (st_pages st') = acquired (st_pages (cfg_state cfg)) ∧
      length (acquired (st_pages st')) = length (released (st_pages st')).
Proof.
  eexists. split; [vm_compute; reflexivity|].
  apply (C8_release_returns_every_region 2000).
  apply (session_reachable blank 2000
           [Alloc (4096, stale); Alloc (0, stale); Alloc (8192, stale);
            Free 4120; Free 6120; Alloc (0, stale)]).
  vm_compute. reflexivity.
Defined.

(** C9.  In every state reached from cache_setup by calls that respect
    their preconditions, cache_shrink returns; it passes to free_slab
    exactly the slabs of the complete list, each once and in list order,
    and sets complete_slab to null.  The heads of the partially and
    empty lists, the geometry fields, the record of acquisitions and the
    header of every slab that is not on the complete list are unchanged,
    and every slab still held has refcnt different from 0. *)
Theorem C9_shrink_frees_the_complete_list size cfg :
  reachable size cfg →
  ∃ lc st',
    complete_slab (st_cache (cfg_state cfg)) = hd 0 lc ∧
    dseg (mem (st_pages (cfg_state cfg))) 0 lc 0 ∧ NoDup lc ∧
    cache_shrink (cfg_state cfg) = Some (tt, st') ∧
    released (st_pages st') = reverse lc ++ released (st_pages (cfg_state cfg)) ∧
    acquired (st_pages st') = acquired (st_pages (cfg_state cfg)) ∧
    complete_slab (st_cache st') = 0 ∧
    partially_slab (st_cache st') = partially_slab (st_cache (cfg_state cfg)) ∧
    empty_slab (st_cache st') = empty_slab (st_cache (cfg_state cfg)) ∧
    object_size (st_cache st') = object_size (st_cache (cfg_state cfg)) ∧
    slab_order (st_cache st') = slab_order (st_cache (cfg_state cfg)) ∧
    slab_objects (st_cache st') = slab_objects (st_cache (cfg_state cfg)) ∧
    (∀ y, y ∈ lc → mem (st_pages st') !! y = None) ∧
    (∀ y, y ∉ lc →
          mem (st_pages st') !! y = mem (st_pages (cfg_state cfg)) !! y) ∧
    (∀ y s, mem (st_pages st') !! y = Some s → refcnt s ≠ 0).
Proof.
  intros Hreach. apply reachable_inv in Hreach as (lc & lp & le & R).
  destruct cfg as [[c [h acq rel]] live]. cbn in *.
  pose proof (rep_nodup R) as Hnd.
  apply nodup3 in Hnd as (Hnc & _).
  exists lc. eexists.
  split; [apply (rep_hc R)|].
  split; [apply (rep_dc R)|].
  split; [exact Hnc|].
  split; [apply (cache_shrink_run R)|].
  cbn. repeat split; try reflexivity.
  - intros y Hy. rewrite lookup_release_all. apply decide_True, Hy.
  - intros y Hy. rewrite lookup_release_all. apply decide_False, Hy.
  - intros y s Hs.
    pose proof (cache_shrink_rep R) as R'.
    assert (Hy : is_Some (release_all lc h !! y)) by eauto.
    pose proof (rep_cnt R' y Hy) as Hc.
    rewrite (field_Some_lookup _ _ _ _ Hs) in Hc. injection Hc as ->.
    apply (rep_dom R') in Hy. simpl in Hy.
    apply elem_of_app in Hy as [Hp|He].
    + pose proof (rep_occ_p R' y Hp). lia.
    + pose proof (rep_occ_e R' y He). lia.
Qed.

Lemma C9_witness :
  ∃ cfg,
    session blank 2000
      [Alloc (4096, stale); Alloc (0, stale); Alloc (8192, stale);
       Free 4120; Free 6120] = Some cfg ∧
    ∃ lc st',
      complete_slab (st_cache (cfg_state cfg)) = hd 0 lc ∧
      dseg (mem (st_pages (cfg_state cfg))) 0 lc 0 ∧ NoDup lc ∧
      cache_shrink (cfg_state cfg) = Some (tt, st') ∧
      released (st_pages st') = reverse lc ++ released (st_pages (cfg_state cfg)) ∧
      acquired (st_pages st') = acquired (st_pages (cfg_state cfg)) ∧
      complete_slab (st_cache st') = 0 ∧
      partially_slab (st_cache st') = partially_slab (st_cache (cfg_state cfg)) ∧
      empty_slab (st_cache st') = empty_slab (st_cache (cfg_state cfg)) ∧
      object_size (st_cache st') = object_size (st_cache (cfg_state cfg)) ∧
      slab_order (st_cache st') = slab_order (st_cache (cfg_state cfg)) ∧
      slab_objects (st_cache st') = slab_objects (st_cache (cfg_state cfg)) ∧
      (∀ y, y ∈ lc → mem (st_pages st') !! y = None) ∧
      (∀ y, y ∉ lc →
            mem (st_pages st') !! y = mem (st_pages (cfg_state cfg)) !! y) ∧
      (∀ y s, mem (st_pages st') !! y = Some s → refcnt s ≠ 0).
Proof.
  eexists. split; [vm_compute; reflexivity|].
  apply (C9_shrink_frees_the_complete_list 2000).
  apply (session_reachable blank 2000
           [Alloc (4096, stale); Alloc (0, stale); Alloc (8192, stale);
            Free 4120; Free 6120]).
  vm_compute. reflexivity.
Defined.

(** C10.  In every state reached from cache_setup by calls that respect
    their preconditions, hence after every public operation, each of the
    three lists is a finite null-terminated chain whose first element has
    a null previous and in which every element's next points back to it,
    and no slab is on two lists or twice on one; a further call that
    returns keeps this; and the walks of cache_release and cache_shrink
    terminate, passing to free_slab each slab they visit exactly once.
    cache_release passes every held slab and no other address.
    cache_shrink passes exactly the slabs of the chain that starts at
    complete_slab, which are the held slabs with refcnt 0; afterwards
    these are no longer held and every other slab is held with its
    header unchanged. *)
Theorem C10_lists_stay_well_formed size cfg :
  reachable size cfg →
  lists_wf (cfg_state cfg) ∧
  (∀ o cfg', op_ok cfg o → step o cfg = Some cfg' →
             lists_wf (cfg_state cfg')) ∧
  (∃ l st',
     cache_release (cfg_state cfg) = Some (tt, st') ∧
     released (st_pages st') = l ++ released (st_pages (cfg_state cfg)) ∧
     NoDup l ∧
     ∀ y, y ∈ l ↔ is_Some (mem (st_pages (cfg_state cfg)) !! y)) ∧
  (∃ lc l st',
     complete_slab (st_cache (cfg_state cfg)) = hd 0 lc ∧
     dseg (mem (st_pages (cfg_state cfg))) 0 lc 0 ∧
     cache_shrink (cfg_state cfg) = Some (tt, st') ∧
     released (st_pages st') = l ++ released (st_pages (cfg_state cfg)) ∧
     NoDup l ∧
     (∀ y, y ∈ l ↔ y ∈ lc) ∧
     (∀ y, y ∈ l ↔
           ∃ s, mem (st_pages (cfg_state cfg)) !! y = Some s ∧ refcnt s = 0) ∧
     (∀ y, mem (st_pages st') !! y =
           if decide (y ∈ l) then None
           else mem (st_pages (cfg_state cfg)) !! y)).
Proof.
  intros Hreach.
  assert (Hwf : ∀ cfg0, inv cfg0 → lists_wf (cfg_state cfg0)).
  { intros [[c0 [h0 acq0 rel0]] live0] (lc & lp & le & R). cbn in R.
    exists lc, lp, le. destruct R. cbn. tauto. }
  pose proof (reachable_inv _ _ Hreach) as Hinv.
  split; [apply Hwf, Hinv|].
  split; [intros o cfg' Hok Hstep; eapply Hwf, step_inv; eauto|].
  destruct Hinv as (lc & lp & le & R).
  destruct cfg as [[c [h acq rel]] live]. cbn in *.
  pose proof (rep_nodup R) as Hnd.
  pose proof Hnd as Hnd3. apply nodup3 in Hnd3 as (Hnc & _).
  split.
  - exists (reverse le ++ reverse lp ++ reverse lc). eexists.
    split; [apply (cache_release_run R)|].
    cbn. split; [rewrite <- !app_assoc; reflexivity|]. split.
    + rewrite <- !reverse_app. apply NoDup_reverse.
      rewrite <- app_assoc. exact Hnd.
    + intros y. rewrite (rep_dom R).
      rewrite !elem_of_app, !elem_of_reverse. tauto.
  - exists lc, (reverse lc). eexists.
    split; [apply (rep_hc R)|]. split; [apply (rep_dc R)|].
    split; [apply (cache_shrink_run R)|].
    cbn. split; [reflexivity|]. split; [apply NoDup_reverse, Hnc|].
    split; [intros y; apply elem_of_reverse|]. split.
    + intros y. rewrite elem_of_reverse. split.
      * intros Hy.
        assert (Hheld : is_Some (h !! y))
          by (apply (rep_dom R), elem_of_app; left; exact Hy).
        destruct Hheld as [s Hs]. exists s. split; [exact Hs|].
        pose proof (rep_cnt R y ltac:(eauto)) as Hc.
        rewrite (field_Some_lookup refcnt _ _ _ Hs) in Hc. injection Hc as ->.
        apply (rep_occ_c R), Hy.
      * intros (s & Hs & Hz).
        pose proof (rep_cnt R y ltac:(eauto)) as Hc.
        rewrite (field_Some_lookup refcnt _ _ _ Hs) in Hc. injection Hc as Hc.
        pose proof (proj1 (rep_dom R y) ltac:(eauto)) as Hin.
        rewrite !elem_of_app in Hin. destruct Hin as [Hin|[Hin|Hin]].
        -- exact Hin.
        -- apply (rep_occ_p R) in Hin. lia.
        -- apply (rep_occ_e R) in Hin. lia.
    + intros y. rewrite lookup_release_all.
      destruct (decide (y ∈ lc)) as [Hy|Hy], (decide (y ∈ reverse lc)) as [Hr|Hr];
        try reflexivity; rewrite elem_of_reverse in Hr; contradiction.
Qed.

Lemma C10_witness :
  ∃ cfg,
    session blank 2000
      [Alloc (4096, stale); Alloc (0, stale); Alloc (8192, stale);
       Alloc (0, stale); Alloc (12288, stale);
       Free 4120; Free 6120; Free 12312] = Some cfg ∧
    complete_slab (st_cache (cfg_state cfg)) = 12288 ∧
    empty_slab (st_cache (cfg_state cfg)) = 8192 ∧
    lists_wf (cfg_state cfg) ∧
    (∀ o cfg', op_ok cfg o → step o cfg = Some cfg' →
               lists_wf (cfg_state cfg')) ∧
    (∃ l st',
       cache_release (cfg_state cfg) = Some (tt, st') ∧
       released (st_pages st') = l ++ released (st_pages (cfg_state cfg)) ∧
       NoDup l ∧
       ∀ y, y ∈ l ↔ is_Some (mem (st_pages (cfg_state cfg)) !! y)) ∧
    (∃ lc l st',
       complete_slab (st_cache (cfg_state cfg)) = hd 0 lc ∧
       dseg (mem (st_pages (cfg_state cfg))) 0 lc 0 ∧
       cache_shrink (cfg_state cfg) = Some (tt, st') ∧
       released (st_pages st') = l ++ released (st_pages (cfg_state cfg)) ∧
       NoDup l ∧
       (∀ y, y ∈ l ↔ y ∈ lc) ∧
       (∀ y, y ∈ l ↔
             ∃ s, mem (st_pages (cfg_state cfg)) !! y = Some s ∧ refcnt s = 0) ∧
       (∀ y, mem (st_pages st') !! y =
             if decide (y ∈ l) then None
             else mem (st_pages (cfg_state cfg)) !! y)).
Proof.
  eexists. split; [vm_compute; reflexivity|].
  split; [reflexivity|]. split; [reflexivity|].
  apply (C10_lists_stay_well_formed 2000).
  apply (session_reachable blank 2000
           [Alloc (4096, stale); Alloc (0, stale); Alloc (8192, stale);
            Alloc (0, stale); Alloc (12288, stale);
            Free 4120; Free 6120; Free 12312]).
  vm_compute. reflexivity.
Defined.

(* ===================================================================== *)
(*  Further properties of the code                                       *)
(* ===================================================================== *)

(** X1.  smallest_power_of_two returns the number of binary digits of
    its argument: 0 for 0, and otherwise the r with
    2^(r-1) <= n < 2^r; for a 64-bit argument it is at most 64. *)
Theorem X1_smallest_power_of_two_counts_digits n :
  0 ≤ n < 2 ^ 64 →
  (n = 0 → smallest_power_of_two n = 0) ∧
  (0 < n → 2 ^ (smallest_power_of_two n - 1) ≤ n < 2 ^ smallest_power_of_two n) ∧
  (0 ≤ smallest_power_of_two n ≤ 64).
Proof.
  intros Hn. rewrite smallest_power_of_two_spec by exact Hn.
  destruct (bit_length_bounds n ltac:(lia)) as (H0 & Hup & Hlow).
  split; [intros ->; reflexivity|]. split.
  - intros Hpos. split; [|exact Hup]. apply Hlow.
    unfold bit_length. destruct (decide (n ≤ 0)); [lia|].
    pose proof (Z.log2_nonneg n). lia.
  - split; [exact H0|].
    destruct (decide (bit_length n ≤ 64)) as [|Hbig]; [assumption|].
    assert (2 ^ 64 ≤ 2 ^ (bit_length n - 1)) by (apply Z.pow_le_mono_r; lia).
    specialize (Hlow ltac:(lia)). lia.
Qed.

Lemma X1_witness :
  (0 ≤ 5 < 2 ^ 64) ∧
  (5 = 0 → smallest_power_of_two 5 = 0) ∧
  (0 < 5 → 2 ^ (smallest_power_of_two 5 - 1) ≤ 5 < 2 ^ smallest_power_of_two 5) ∧
  (0 ≤ smallest_power_of_two 5 ≤ 64).
Proof.
  split; [lia|]. apply (X1_smallest_power_of_two_counts_digits 5). lia.
Defined.

(** X2.  For a slab order between 0 and 10 and any 64-bit address p,
    calculate_slab_start rounds p down to a multiple of the slab size
    4096 * 2^order: the result is such a multiple, p lies in the slab
    that starts there, and every address of that slab, the start itself
    included, is mapped to the same start. *)
Theorem X2_calculate_slab_start_rounds_down c p :
  0 ≤ slab_order c ≤ 10 → 0 ≤ p < 2 ^ 64 →
  calculate_slab_start c p mod (4096 * 2 ^ slab_order c) = 0 ∧
  (calculate_slab_start c p ≤ p < calculate_slab_start c p + 4096 * 2 ^ slab_order c) ∧
  ∀ q, calculate_slab_start c p ≤ q < calculate_slab_start c p + 4096 * 2 ^ slab_order c →
       calculate_slab_start c q = calculate_slab_start c p.
Proof.
  intros Ho Hp. unfold calculate_slab_start.
  rewrite land_slab_mask by assumption.
  replace (4096 * 2 ^ slab_order c) with (2 ^ (slab_order c + 12))
    by (rewrite Z.pow_add_r by lia; change (2 ^ 12) with 4096; lia).
  set (S := 2 ^ (slab_order c + 12)).
  assert (HS : 0 < S) by (apply Z.pow_pos_nonneg; lia).
  assert (H64 : 2 ^ 64 = S * 2 ^ (64 - (slab_order c + 12))).
  { unfold S. rewrite <- Z.pow_add_r by lia. f_equal. lia. }
  pose proof (Z.mul_div_le p S HS) as Hle.
  pose proof (Z.mul_succ_div_gt p S HS) as Hgt.
  assert (Hq0 : 0 ≤ p / S) by (apply Z.div_pos; lia).
  assert (Hqmax : p / S < 2 ^ (64 - (slab_order c + 12))).
  { apply Z.div_lt_upper_bound; lia. }
  split; [rewrite Z.mul_comm; apply Z.mod_mul; lia|].
  split; [lia|].
  intros q Hq. rewrite land_slab_mask by (try assumption; nia).
  fold S. f_equal. symmetry. apply (Z.div_unique q S (p / S) (q - S * (p / S))); lia.
Qed.

Lemma X2_witness :
  (0 ≤ slab_order (mkCache 0 0 0 5000 2 1) ≤ 10) ∧ (0 ≤ 40000 < 2 ^ 64) ∧
  calculate_slab_start (mkCache 0 0 0 5000 2 1) 40000 mod
    (4096 * 2 ^ slab_order (mkCache 0 0 0 5000 2 1)) = 0 ∧
  (calculate_slab_start (mkCache 0 0 0 5000 2 1) 40000 ≤ 40000 <
   calculate_slab_start (mkCache 0 0 0 5000 2 1) 40000 +
   4096 * 2 ^ slab_order (mkCache 0 0 0 5000 2 1)) ∧
  ∀ q, calculate_slab_start (mkCache 0 0 0 5000 2 1) 40000 ≤ q <
       calculate_slab_start (mkCache 0 0 0 5000 2 1) 40000 +
       4096 * 2 ^ slab_order (mkCache 0 0 0 5000 2 1) →
       calculate_slab_start (mkCache 0 0 0 5000 2 1) q =
       calculate_slab_start (mkCache 0 0 0 5000 2 1) 40000.
Proof.
  split; [simpl; lia|]. split; [lia|].
  apply (X2_calculate_slab_start_rounds_down (mkCache 0 0 0 5000 2 1) 40000);
    simpl; lia.
Defined.

(** X3.  The geometry rule of cache_setup, for an object size above 0
    whose sum with the header does not overflow: the stored order is the
    smallest one whose slab is strictly larger than the header plus one
    object; a positive order comes with one object per slab; order 0
    comes with as many objects as fit in the page behind the header. *)
Theorem X3_setup_geometry_rule size c0 pg :
  0 < size → sizeof_slabStruct + size < 2 ^ 64 →
  ∃ c, cache_setup size (mkState c0 pg) = Some (tt, mkState c pg) ∧
       0 ≤ slab_order c ∧
       sizeof_slabStruct + size < 4096 * 2 ^ slab_order c ∧
       (0 < slab_order c →
        4096 * 2 ^ (slab_order c - 1) ≤ sizeof_slabStruct + size ∧
        slab_objects c = 1) ∧
       (slab_order c = 0 →
        sizeof_slabStruct + size * slab_objects c ≤ 4096 ∧
        4096 < sizeof_slabStruct + size * (slab_objects c + 1)).
Proof.
  intros Hpos Hsum. eexists. split; [apply cache_setup_run; lia|].
  simpl_cache.
  destruct (setup_order_strict size ltac:(lia) Hsum) as (H0 & Hup & Hlow).
  split; [exact H0|]. split; [exact Hup|]. split.
  - intros Ho. split; [apply Hlow, Ho|]. apply decide_True. lia.
  - intros Ho. rewrite decide_False by lia. unfold sizeof_slabStruct.
    pose proof (Z.mul_div_le (4096 - 24) size Hpos).
    pose proof (Z.mul_succ_div_gt (4096 - 24) size Hpos). lia.
Qed.

Lemma X3_witness :
  0 < 41 ∧ sizeof_slabStruct + 41 < 2 ^ 64 ∧
  ∃ c, cache_setup 41 (mkState blank nothing_held) =
         Some (tt, mkState c nothing_held) ∧
       0 ≤ slab_order c ∧
       sizeof_slabStruct + 41 < 4096 * 2 ^ slab_order c ∧
       (0 < slab_order c →
        4096 * 2 ^ (slab_order c - 1) ≤ sizeof_slabStruct + 41 ∧
        slab_objects c = 1) ∧
       (slab_order c = 0 →
        sizeof_slabStruct + 41 * slab_objects c ≤ 4096 ∧
        4096 < sizeof_slabStruct + 41 * (slab_objects c + 1)).
Proof.
  split; [lia|]. split; [reflexivity|].
  apply (X3_setup_geometry_rule 41 blank nothing_held); [lia|reflexivity].
Defined.

(** X4.  For the last 24 values of size_t the sum of header and object
    size wraps around: cache_setup returns with slab_order 0 and
    slab_objects 0, a cache whose slabs have room for no object. *)
Theorem X4_setup_wraps_for_huge_sizes size c0 pg :
  2 ^ 64 - sizeof_slabStruct ≤ size < 2 ^ 64 →
  cache_setup size (mkState c0 pg) =
  Some (tt, mkState (mkCache 0 0 0 size 0 0) pg).
Proof.
  intros Hs. unfold sizeof_slabStruct in Hs.
  rewrite cache_setup_run by lia.
  assert (Ho : setup_order size = 0).
  { unfold setup_order, wrap64, sizeof_slabStruct.
    replace ((24 + size) mod 2 ^ 64) with (24 + size - 2 ^ 64).
    - rewrite Z.div_small by lia. reflexivity.
    - apply (Z.mod_unique (24 + size) (2 ^ 64) 1); lia. }
  rewrite Ho. rewrite decide_False by lia.
  unfold sizeof_slabStruct. rewrite Z.div_small by lia. reflexivity.
Qed.

Lemma X4_witness :
  (2 ^ 64 - sizeof_slabStruct ≤ 2 ^ 64 - 1 < 2 ^ 64) ∧
  cache_setup (2 ^ 64 - 1) (mkState blank nothing_held) =
  Some (tt, mkState (mkCache 0 0 0 (2 ^ 64 - 1) 0 0) nothing_held).
Proof.
  split; [unfold sizeof_slabStruct; lia|].
  apply (X4_setup_wraps_for_huge_sizes (2 ^ 64 - 1) blank nothing_held).
  unfold sizeof_slabStruct. lia.
Defined.

Section ListPrimitives.
Implicit Types (h : gmap Z slabStruct) (c : cache) (acq rel : list Z)
               (l : list Z) (x y : Z).

Lemma unlink_clears_links x p n h :
  is_Some (h !! x) → x ≠ 0 → wired (unlink_heap x p n h) x 0 0.
Proof.
  intros [s Hs] H0. unfold unlink_heap. split; [exact H0|].
  set (h2 := if decide (n ≠ 0) then _ else _).
  assert (is_Some (h2 !! x)) as [s2 Hs2].
  { unfold h2. destruct (decide (p ≠ 0)); destruct (decide (n ≠ 0));
      rewrite ?lookup_alter_is_Some; eauto. }
  split.
  - rewrite field_alter_keep by (intros []; reflexivity).
    rewrite field_alter_eq, Hs2. reflexivity.
  - rewrite field_alter_eq, lookup_alter_eq, Hs2. reflexivity.
Qed.

Lemma insert_in_run w x h c acq rel :
  is_Some (h !! x) → (head_of w c = 0 ∨ is_Some (h !! head_of w c)) →
  insert_in w x (mkState c (mkPages h acq rel)) =
  Some (tt, mkState (match w with
                     | Complete => with_complete x c
                     | Partially => with_partially x c
                     | Empty => with_empty x c
                     end)
              (mkPages (push_heap (head_of w c) x h) acq rel)).
Proof.
  destruct w; simpl; intros Hx Hh;
    [apply insert_in_complete_list_run|apply insert_in_partially_list_run
    |apply insert_in_empty_list_run]; assumption.
Qed.

End ListPrimitives.

(** X5.  free_list on the first element of a null-terminated chain of
    distinct held slabs returns; it passes exactly the slabs of the
    chain to free_slab, in chain order, after which none of them is
    held, and it leaves every other region and the cache untouched. *)
Theorem X5_free_list_releases_the_chain h prev l c acq rel :
  dseg h prev l 0 → NoDup l →
  ∃ h', free_list (hd 0 l) (mkState c (mkPages h acq rel)) =
          Some (tt, mkState c (mkPages h' acq (reverse l ++ rel))) ∧
        (∀ y, y ∈ l → h' !! y = None) ∧
        (∀ y, y ∉ l → h' !! y = h !! y).
Proof.
  intros Hd Hnd. exists (release_all l h).
  split; [eapply free_list_run; eassumption|].
  split; intros y Hy; rewrite lookup_release_all;
    [apply decide_True|apply decide_False]; exact Hy.
Qed.

Lemma X5_witness :
  dseg two_chain 0 [4096; 8192] 0 ∧ NoDup [4096; 8192] ∧
  ∃ h', free_list (hd 0 [4096; 8192]) (mkState blank (mkPages two_chain [] [])) =
          Some (tt, mkState blank (mkPages h' [] (reverse [4096; 8192] ++ []))) ∧
        (∀ y, y ∈ [4096; 8192] → h' !! y = None) ∧
        (∀ y, y ∉ [4096; 8192] → h' !! y = two_chain !! y).
Proof.
  assert (Hd : dseg two_chain 0 [4096; 8192] 0)
    by (repeat split; vm_compute; congruence).
  assert (Hnd : NoDup [4096; 8192])
    by (apply (bool_decide_unpack _); vm_compute; exact I).
  split; [exact Hd|]. split; [exact Hnd|].
  apply (X5_free_list_releases_the_chain two_chain 0 [4096; 8192] blank [] [] Hd Hnd).
Defined.

(** X6.  Each of insert_in_complete_list, insert_in_partially_list and
    insert_in_empty_list, given a held slab x that is not on its list,
    returns and makes x the first element: the head is x, the list is x
    followed by the old list, well linked in both directions.  The other
    two heads, the geometry, every refcnt, the page log, and every
    header other than those of x and of the old first element are left
    as they were. *)
Theorem X6_insert_pushes_front w c h acq rel l x :
  head_of w c = hd 0 l → dseg h 0 l 0 → NoDup l →
  is_Some (h !! x) → x ≠ 0 → x ∉ l →
  ∃ c' h',
    insert_in w x (mkState c (mkPages h acq rel)) =
      Some (tt, mkState c' (mkPages h' acq rel)) ∧
    head_of w c' = x ∧ dseg h' 0 (x :: l) 0 ∧
    (∀ w', w' ≠ w → head_of w' c' = head_of w' c) ∧
    geometry (mkState c' (mkPages h' acq rel)) =
      geometry (mkState c (mkPages h acq rel)) ∧
    (∀ y, field refcnt h' y = field refcnt h y) ∧
    (∀ y, y ≠ x → y ≠ hd 0 l → h' !! y = h !! y).
Proof.
  intros Hhead Hd Hnd Hx H0 Hxl. eexists _, _.
  split.
  { apply insert_in_run; [exact Hx|]. rewrite Hhead. eapply hd_in_heap, Hd. }
  rewrite Hhead.
  split; [destruct w; reflexivity|].
  split; [apply push_dseg; assumption|].
  split; [intros w' Hw; destruct w, w'; try reflexivity; congruence|].
  split; [destruct w; reflexivity|].
  split; [intros y; apply push_refcnt|].
  intros y Hy1 Hy2. apply push_lookup_other; assumption.
Qed.

Lemma X6_witness :
  head_of Partially (mkCache 0 4096 0 41 0 99) = hd 0 [4096; 8192] ∧
  dseg two_chain 0 [4096; 8192] 0 ∧ NoDup [4096; 8192] ∧
  is_Some (two_chain !! 12288) ∧ 12288 ≠ 0 ∧ (12288 ∉ [4096; 8192]) ∧
  ∃ c' h',
    insert_in Partially 12288
      (mkState (mkCache 0 4096 0 41 0 99) (mkPages two_chain [] [])) =
      Some (tt, mkState c' (mkPages h' [] [])) ∧
    head_of Partially c' = 12288 ∧ dseg h' 0 (12288 :: [4096; 8192]) 0 ∧
    (∀ w', w' ≠ Partially →
           head_of w' c' = head_of w' (mkCache 0 4096 0 41 0 99)) ∧
    geometry (mkState c' (mkPages h' [] [])) =
      geometry (mkState (mkCache 0 4096 0 41 0 99) (mkPages two_chain [] [])) ∧
    (∀ y, field refcnt h' y = field refcnt two_chain y) ∧
    (∀ y, y ≠ 12288 → y ≠ hd 0 [4096; 8192] → h' !! y = two_chain !! y).
Proof.
  assert (Hd : dseg two_chain 0 [4096; 8192] 0)
    by (repeat split; vm_compute; congruence).
  assert (Hnd : NoDup [4096; 8192])
    by (apply (bool_decide_unpack _); vm_compute; exact I).
  assert (Hx : is_Some (two_chain !! 12288)) by (vm_compute; eauto).
  assert (Hxl : 12288 ∉ [4096; 8192])
    by (apply (bool_decide_unpack _); vm_compute; exact I).
  split; [reflexivity|]. split; [exact Hd|]. split; [exact Hnd|].
  split; [exact Hx|]. split; [lia|]. split; [exact Hxl|].
  apply (X6_insert_pushes_front Partially (mkCache 0 4096 0 41 0 99) two_chain
           [] [] [4096; 8192] 12288 eq_refl Hd Hnd Hx ltac:(lia) Hxl).
Defined.

(** X7.  remove_from_empty_list, given a slab x anywhere on the
    partially or the empty list, returns and takes x out: the list keeps
    its other elements in order and stays well linked, its head is
    updated when x was first, the previous and next fields of x are
    null, and the other heads, the geometry, every refcnt, the page log
    and every header other than those of x and its two neighbours are
    left as they were. *)
Theorem X7_remove_unlinks w c h acq rel l1 x l2 :
  w ≠ Complete →
  head_of w c = hd 0 (l1 ++ x :: l2) →
  (w = Partially → empty_slab c ≠ x) →
  dseg h 0 (l1 ++ x :: l2) 0 → NoDup (l1 ++ x :: l2) →
  ∃ c' h',
    remove_from_empty_list x (mkState c (mkPages h acq rel)) =
      Some (tt, mkState c' (mkPages h' acq rel)) ∧
    head_of w c' = hd 0 (l1 ++ l2) ∧ dseg h' 0 (l1 ++ l2) 0 ∧
    wired h' x 0 0 ∧
    (∀ w', w' ≠ w → head_of w' c' = head_of w' c) ∧
    geometry (mkState c' (mkPages h' acq rel)) =
      geometry (mkState c (mkPages h acq rel)) ∧
    (∀ y, field refcnt h' y = field refcnt h y) ∧
    (∀ y, y ≠ x → y ≠ last_or 0 l1 → y ≠ hd 0 l2 → h' !! y = h !! y).
Proof.
  intros Hw Hhead Hamb Hd Hnd.
  destruct (dseg_links _ _ _ _ _ _ Hd) as (Hx0 & Hp & Hn).
  assert (Hx : is_Some (h !! x)) by (eapply dseg_elem; [exact Hd|set_solver]).
  destruct Hx as [s Hs].
  rewrite (field_Some_lookup previous _ _ _ Hs) in Hp.
  rewrite (field_Some_lookup next _ _ _ Hs) in Hn.
  injection Hp as Hp. injection Hn as Hn.
  pose proof Hd as Hd'. apply dseg_app in Hd' as [Hd1 Hd2].
  simpl in Hd2. destruct Hd2 as [_ Hd2].
  pose proof Hnd as Hnd'. apply NoDup_app in Hnd' as (Hnd1 & Hdisj & Hnd2).
  pose proof (last_or_nonzero _ _ _ _ Hd1) as Hl1.
  eexists _, _. split.
  { apply (remove_from_empty_list_run x s); [exact Hs| |].
    - rewrite Hp. destruct (decide (l1 = [])) as [->|Hne]; [left; reflexivity|].
      right. assert (Hlin : last_or 0 l1 ∈ l1).
      { unfold last_or. destruct (last l1) as [z|] eqn:Hz; simpl.
        - eapply last_Some_elem_of; eauto.
        - apply last_None in Hz. contradiction. }
      split.
      + intros E. apply (Hdisj _ Hlin). rewrite E. left.
      + eapply dseg_elem; [exact Hd1|exact Hlin].
    - rewrite Hn. exact (hd_in_heap _ _ _ _ Hd2). }
  rewrite Hp, Hn.
  assert (Hc : ∀ w', head_of w' (unlink_cache x (last_or 0 l1) (hd 0 l2) c) =
                     if decide (w' = w) then hd 0 (l1 ++ l2) else head_of w' c).
  { intros w'. unfold unlink_cache.
    destruct (decide (last_or 0 l1 ≠ 0)) as [Hne1|He1].
    - case_decide; [subst w'|reflexivity]. rewrite Hhead.
      rewrite !hd_app_nonempty; [reflexivity| |]; intros E; apply Hne1, Hl1, E.
    - assert (l1 = []) as -> by (apply Hl1; lia). simpl in Hhead |- *.
      destruct w; [congruence| |].
      + rewrite decide_False by (apply Hamb; reflexivity).
        rewrite decide_True by exact Hhead.
        destruct w'; simpl; try reflexivity.
      + rewrite decide_True by exact Hhead.
        destruct w'; simpl; try reflexivity. }
  split; [rewrite Hc; apply decide_True; reflexivity|].
  split; [apply unlink_dseg; assumption|].
  split; [apply unlink_clears_links; eauto|].
  split; [intros w' Hw'; rewrite Hc; apply decide_False, Hw'|].
  split.
  { unfold geometry, unlink_cache; simpl. repeat case_decide; reflexivity. }
  split; [intros y; apply unlink_refcnt|].
  intros y Hy1 Hy2 Hy3. apply unlink_lookup_other; assumption.
Qed.

Lemma X7_witness :
  Empty ≠ Complete ∧
  head_of Empty (mkCache 0 0 4096 41 0 99) = hd 0 ([4096] ++ 8192 :: []) ∧
  (Empty = Partially → empty_slab (mkCache 0 0 4096 41 0 99) ≠ 8192) ∧
  dseg two_chain 0 ([4096] ++ 8192 :: []) 0 ∧ NoDup ([4096] ++ 8192 :: []) ∧
  ∃ c' h',
    remove_from_empty_list 8192
      (mkState (mkCache 0 0 4096 41 0 99) (mkPages two_chain [] [])) =
      Some (tt, mkState c' (mkPages h' [] [])) ∧
    head_of Empty c' = hd 0 ([4096] ++ []) ∧ dseg h' 0 ([4096] ++ []) 0 ∧
    wired h' 8192 0 0 ∧
    (∀ w', w' ≠ Empty → head_of w' c' = head_of w' (mkCache 0 0 4096 41 0 99)) ∧
    geometry (mkState c' (mkPages h' [] [])) =
      geometry (mkState (mkCache 0 0 4096 41 0 99) (mkPages two_chain [] [])) ∧
    (∀ y, field refcnt h' y = field refcnt two_chain y) ∧
    (∀ y, y ≠ 8192 → y ≠ last_or 0 [4096] → y ≠ hd 0 [] →
          h' !! y = two_chain !! y).
Proof.
  assert (Hw : Empty ≠ Complete) by discriminate.
  assert (Hamb : Empty = Partially →
                 empty_slab (mkCache 0 0 4096 41 0 99) ≠ 8192) by discriminate.
  assert (Hd : dseg two_chain 0 ([4096] ++ 8192 :: []) 0)
    by (repeat split; vm_compute; congruence).
  assert (Hnd : NoDup ([4096] ++ 8192 :: []))
    by (apply (bool_decide_unpack _); vm_compute; exact I).
  split; [exact Hw|]. split; [reflexivity|]. split; [exact Hamb|].
  split; [exact Hd|]. split; [exact Hnd|].
  apply (X7_remove_unlinks Empty (mkCache 0 0 4096 41 0 99) two_chain [] []
           [4096] 8192 [] Hw eq_refl Hamb Hd Hnd).
Defined.

(** X8.  remove_from_empty_list never writes complete_slab.  Called on
    the first slab x of the complete list (x heading neither of the
    other two lists), it returns with the cache unchanged, so
    complete_slab still points to x, while the links of x are cleared:
    x is now a list of its own and the slabs that followed it, still
    held and linked among themselves, are reachable from no head. *)
Theorem X8_remove_leaves_complete_head c h acq rel x l :
  complete_slab c = x → partially_slab c ≠ x → empty_slab c ≠ x →
  dseg h 0 (x :: l) 0 → NoDup (x :: l) →
  ∃ h',
    remove_from_empty_list x (mkState c (mkPages h acq rel)) =
      Some (tt, mkState c (mkPages h' acq rel)) ∧
    dseg h' 0 [x] 0 ∧ dseg h' 0 l 0 ∧
    (∀ y, y ∈ l → is_Some (h' !! y)).
Proof.
  intros Hc Hp He Hd Hnd.
  pose proof (dseg_links h 0 [] x l 0 Hd) as (Hx0 & Hpv & Hnx).
  assert (Hx : is_Some (h !! x)) by (eapply dseg_elem; [exact Hd|left]).
  destruct Hx as [s Hs].
  rewrite (field_Some_lookup previous _ _ _ Hs) in Hpv.
  rewrite (field_Some_lookup next _ _ _ Hs) in Hnx.
  injection Hpv as Hpv. injection Hnx as Hnx.
  unfold last_or in Hpv; simpl in Hpv.
  pose proof Hd as [_ Hdl].
  exists (unlink_heap x 0 (hd 0 l) h). split.
  { rewrite (remove_from_empty_list_run x s); [|exact Hs| |].
    - rewrite Hpv, Hnx. unfold unlink_cache.
      rewrite decide_False by (intros E; apply E; reflexivity).
      rewrite decide_False by exact He. rewrite decide_False by exact Hp.
      reflexivity.
    - left. exact Hpv.
    - rewrite Hnx. exact (hd_in_heap _ _ _ _ Hdl). }
  split; [split; [|exact I]; apply unlink_clears_links; eauto|].
  split; [apply (unlink_dseg h [] x l); assumption|].
  intros y Hy. rewrite unlink_is_Some. eapply dseg_elem; [exact Hdl|exact Hy].
Qed.

Lemma X8_witness :
  complete_slab (mkCache 4096 0 0 41 0 99) = 4096 ∧
  partially_slab (mkCache 4096 0 0 41 0 99) ≠ 4096 ∧
  empty_slab (mkCache 4096 0 0 41 0 99) ≠ 4096 ∧
  dseg two_chain 0 (4096 :: [8192]) 0 ∧ NoDup (4096 :: [8192]) ∧
  ∃ h',
    remove_from_empty_list 4096
      (mkState (mkCache 4096 0 0 41 0 99) (mkPages two_chain [] [])) =
      Some (tt, mkState (mkCache 4096 0 0 41 0 99) (mkPages h' [] [])) ∧
    dseg h' 0 [4096] 0 ∧ dseg h' 0 [8192] 0 ∧
    (∀ y, y ∈ [8192] → is_Some (h' !! y)).
Proof.
  assert (Hp : partially_slab (mkCache 4096 0 0 41 0 99) ≠ 4096)
    by (simpl; lia).
  assert (He : empty_slab (mkCache 4096 0 0 41 0 99) ≠ 4096) by (simpl; lia).
  assert (Hd : dseg two_chain 0 (4096 :: [8192]) 0)
    by (repeat split; vm_compute; congruence).
  assert (Hnd : NoDup (4096 :: [8192]))
    by (apply (bool_decide_unpack _); vm_compute; exact I).
  split; [reflexivity|]. split; [exact Hp|]. split; [exact He|].
  split; [exact Hd|]. split; [exact Hnd|].
  apply (X8_remove_leaves_complete_head (mkCache 4096 0 0 41 0 99) two_chain
           [] [] 4096 [8192] eq_refl Hp He Hd Hnd).
Defined.

(* ===================================================================== *)
(*  What the operations leave alone                                      *)
(* ===================================================================== *)

Section Frames.
Context {X : Type} (f : state → X).

Lemma preserves_ret {A : Type} (x : A) : preserves f (mret x).
Proof. intros st y st' [= <- <-]. reflexivity. Qed.

Lemma preserves_bind {A B : Type} (m : M A) (k : A → M B) :
  preserves f m → (∀ x, preserves f (k x)) → preserves f (m ≫= k).
Proof.
  intros Hm Hk st y st'. unfold mbind, M_bind.
  destruct (m st) as [[x st1]|] eqn:E; [|discriminate].
  intros Hrun. rewrite (Hk x _ _ _ Hrun). eapply Hm, E.
Qed.

Lemma preserves_fault {A : Type} : preserves f (@fault A).
Proof. intros st y st' [=]. Qed.

Lemma preserves_get {A : Type} (g : cache → A) : preserves f (get_cache g).
Proof. intros st y st' [= <- <-]. reflexivity. Qed.

Lemma preserves_load a : preserves f (load a).
Proof.
  intros st y st'. unfold load. destruct (mem (st_pages st) !! a); [|discriminate].
  intros [= <- <-]. reflexivity.
Qed.

End Frames.

Create HintDb frames.
#[export] Hint Resolve preserves_ret preserves_fault preserves_get
  preserves_load : frames.

(* Walk through a computation built from binds and tests; the frames of
   its parts are taken from the context and from the hint database. *)
Ltac frame_step :=
  first
    [ apply preserves_bind; [|intros ?]
    | match goal with |- preserves _ (if ?b then _ else _) => destruct b end
    | solve [eauto with frames] ].
Ltac frames := repeat frame_step.

Section FramesOfOperations.
Context {X : Type} (f : state → X) (Hf : relink_proof f).

Lemma insert_in_complete_list_frame x : preserves f (insert_in_complete_list x).
Proof. destruct Hf as (? & ? & ? & ?). unfold insert_in_complete_list. frames. Qed.

Lemma insert_in_partially_list_frame x : preserves f (insert_in_partially_list x).
Proof. destruct Hf as (? & ? & ? & ?). unfold insert_in_partially_list. frames. Qed.

Lemma insert_in_empty_list_frame x : preserves f (insert_in_empty_list x).
Proof. destruct Hf as (? & ? & ? & ?). unfold insert_in_empty_list. frames. Qed.

Lemma remove_from_empty_list_frame x : preserves f (remove_from_empty_list x).
Proof. destruct Hf as (? & ? & ? & ?). unfold remove_from_empty_list. frames. Qed.

Lemma cache_free_frame p : preserves f (cache_free p).
Proof.
  pose proof insert_in_complete_list_frame.
  pose proof remove_from_empty_list_frame.
  destruct Hf as (? & ? & ? & ?). unfold cache_free. frames.
Qed.

Lemma cache_alloc_frame r :
  (∀ order, preserves f (alloc_slab r order)) → preserves f (cache_alloc r).
Proof.
  intros Hal.
  pose proof insert_in_partially_list_frame.
  pose proof insert_in_empty_list_frame.
  destruct Hf as (? & ? & ? & ?). unfold cache_alloc. frames.
Qed.

(* cache_alloc with a slab to reuse does not reach alloc_slab. *)
Lemma cache_alloc_reuse_frame r st p st' :
  partially_slab (st_cache st) ≠ 0 ∨ complete_slab (st_cache st) ≠ 0 →
  cache_alloc r st = Some (p, st') → f st' = f st.
Proof.
  intros Hreuse Hrun.
  pose proof insert_in_partially_list_frame.
  pose proof insert_in_empty_list_frame.
  destruct Hf as (? & ? & ? & ?).
  unfold cache_alloc in Hrun. rewrite (bind_run _ _ _ _ _ (get_run _ _)) in Hrun.
  destruct (decide (partially_slab (st_cache st) ≠ 0)) as [Hp|Hp].
  - revert Hrun. match goal with |- ?m st = _ → _ =>
      assert (Hfr : preserves f m) by frames end.
    apply Hfr.
  - rewrite (bind_run _ _ _ _ _ (get_run _ _)) in Hrun.
    destruct (decide (complete_slab (st_cache st) ≠ 0)) as [Hc|Hc]; [|tauto].
    revert Hrun. match goal with |- ?m st = _ → _ =>
      assert (Hfr : preserves f m) by frames end.
    apply Hfr.
Qed.

(* cache_alloc without a slab to reuse: whatever alloc_slab leaves is
   what the call leaves. *)
Lemma cache_alloc_fresh_frame r st p st' :
  partially_slab (st_cache st) = 0 → complete_slab (st_cache st) = 0 →
  cache_alloc r st = Some (p, st') →
  ∃ a st1, alloc_slab r (slab_order (st_cache st)) st = Some (a, st1) ∧
           f st' = f st1.
Proof.
  intros Hp Hc Hrun.
  pose proof insert_in_partially_list_frame.
  pose proof insert_in_empty_list_frame.
  destruct Hf as (? & ? & ? & ?).
  unfold cache_alloc in Hrun. rewrite (bind_run _ _ _ _ _ (get_run _ _)) in Hrun.
  rewrite decide_False in Hrun by (intros E; apply E, Hp).
  rewrite (bind_run _ _ _ _ _ (get_run _ _)) in Hrun.
  rewrite decide_False in Hrun by (intros E; apply E, Hc).
  rewrite (bind_run _ _ _ _ _ (get_run _ _)) in Hrun.
  destruct (alloc_slab r (slab_order (st_cache st)) st) as [[a st1]|] eqn:Ha.
  - rewrite (bind_run _ _ _ _ _ Ha) in Hrun. exists a, st1. split; [reflexivity|].
    revert Hrun. match goal with |- ?m st1 = _ → _ =>
      assert (Hfr : preserves f m) by frames end.
    apply Hfr.
  - rewrite (bind_fault _ _ _ Ha) in Hrun. discriminate.
Qed.

Lemma free_list_loop_frame fuel a :
  (∀ b, preserves f (free_slab b)) → preserves f (free_list_loop fuel a).
Proof.
  intros Hfr. revert a. induction fuel as [|fuel IH]; intros a; simpl; frames.
Qed.

Lemma free_list_frame a :
  (∀ b, preserves f (free_slab b)) → preserves f (free_list a).
Proof. intros Hfr st y st'. unfold free_list. apply free_list_loop_frame, Hfr. Qed.

Lemma cache_shrink_frame :
  (∀ b, preserves f (free_slab b)) → preserves f cache_shrink.
Proof.
  intros Hfr. pose proof (λ a, free_list_frame a Hfr).
  destruct Hf as (? & ? & ? & ?). unfold cache_shrink. frames.
Qed.

Lemma cache_release_frame :
  (∀ b, preserves f (free_slab b)) → preserves f cache_release.
Proof.
  intros Hfr. pose proof (λ a, free_list_frame a Hfr).
  destruct Hf as (? & ? & ? & ?). unfold cache_release. frames.
Qed.

End FramesOfOperations.

Section FramesOfLogs.

Lemma geometry_relink_proof : relink_proof geometry.
Proof.
  repeat split; intros; intros [c [h acq rel]] y st'; unfold store; simpl;
    try (destruct (h !! _); [|discriminate]); intros [= <- <-]; reflexivity.
Qed.

Lemma acquire_log_relink_proof : relink_proof acquire_log.
Proof.
  repeat split; intros; intros [c [h acq rel]] y st'; unfold store; simpl;
    try (destruct (h !! _); [|discriminate]); intros [= <- <-]; reflexivity.
Qed.

Lemma release_log_relink_proof : relink_proof release_log.
Proof.
  repeat split; intros; intros [c [h acq rel]] y st'; unfold store; simpl;
    try (destruct (h !! _); [|discriminate]); intros [= <- <-]; reflexivity.
Qed.

Lemma held_relink_proof : relink_proof held.
Proof.
  split; [|repeat split; intros v st y st' [= <- <-]; reflexivity].
  intros a g [c [h acq rel]] y st'. unfold store; simpl.
  destruct (h !! a) as [s|] eqn:Hs; [|discriminate]. intros [= <- <-].
  unfold held; simpl. apply set_eq. intros z.
  rewrite !elem_of_dom, lookup_insert. case_decide; [subst|reflexivity].
  rewrite Hs. split; eauto.
Qed.

Lemma alloc_slab_geometry r order : preserves geometry (alloc_slab r order).
Proof.
  intros st y st'. unfold alloc_slab. case_decide; intros [= <- <-]; reflexivity.
Qed.

Lemma alloc_slab_release_log r order : preserves release_log (alloc_slab r order).
Proof.
  intros st y st'. unfold alloc_slab. case_decide; intros [= <- <-]; reflexivity.
Qed.

Lemma free_slab_geometry a : preserves geometry (free_slab a).
Proof.
  intros st y st'. unfold free_slab.
  destruct (mem (st_pages st) !! a); [|discriminate]. intros [= <- <-]. reflexivity.
Qed.

Lemma free_slab_acquire_log a : preserves acquire_log (free_slab a).
Proof.
  intros st y st'. unfold free_slab.
  destruct (mem (st_pages st) !! a); [|discriminate]. intros [= <- <-]. reflexivity.
Qed.

End FramesOfLogs.

(** X9.  In any state whatsoever, a call of cache_alloc, cache_free,
    cache_shrink or cache_release that returns leaves object_size,
    slab_order and slab_objects as cache_setup stored them. *)
Theorem X9_geometry_is_never_changed o cfg cfg' :
  step o cfg = Some cfg' →
  geometry (cfg_state cfg') = geometry (cfg_state cfg).
Proof.
  pose proof geometry_relink_proof as Hg.
  destruct o as [r|p| |]; unfold step.
  - destruct (cache_alloc r (cfg_state cfg)) as [[q st']|] eqn:E; [|discriminate].
    intros [= <-]. simpl.
    eapply (cache_alloc_frame geometry Hg r); [|exact E].
    intros order. apply alloc_slab_geometry.
  - destruct (cache_free p (cfg_state cfg)) as [[[] st']|] eqn:E; [|discriminate].
    intros [= <-]. simpl. eapply (cache_free_frame geometry Hg), E.
  - destruct (cache_shrink (cfg_state cfg)) as [[[] st']|] eqn:E; [|discriminate].
    intros [= <-]. simpl.
    eapply (cache_shrink_frame geometry Hg); [|exact E]. apply free_slab_geometry.
  - destruct (cache_release (cfg_state cfg)) as [[[] st']|] eqn:E; [|discriminate].
    intros [= <-]. simpl.
    eapply (cache_release_frame geometry Hg); [|exact E]. apply free_slab_geometry.
Qed.

Lemma X9_witness :
  ∃ cfg', step (Alloc (4096, stale)) idle41 = Some cfg' ∧
          geometry (cfg_state cfg') = geometry (cfg_state idle41).
Proof.
  eexists. split; [vm_compute; reflexivity|].
  apply (X9_geometry_is_never_changed (Alloc (4096, stale)) idle41).
  vm_compute. reflexivity.
Defined.

(** X10.  Which calls reach the page primitive, in any state whatsoever.
    cache_free that returns has called neither alloc_slab nor free_slab
    and holds the same regions as before.  cache_alloc never calls
    free_slab; when partially_slab or complete_slab is not null it does
    not call alloc_slab either and holds the same regions; when both are
    null it calls alloc_slab once, and a region returned is the one
    added to those held.  cache_shrink and cache_release never call
    alloc_slab. *)
Theorem X10_calls_to_the_page_primitive o cfg cfg' :
  step o cfg = Some cfg' →
  match o with
  | Alloc r =>
      release_log (cfg_state cfg') = release_log (cfg_state cfg) ∧
      (partially_slab (st_cache (cfg_state cfg)) ≠ 0 ∨
       complete_slab (st_cache (cfg_state cfg)) ≠ 0 →
       acquire_log (cfg_state cfg') = acquire_log (cfg_state cfg) ∧
       held (cfg_state cfg') = held (cfg_state cfg)) ∧
      (partially_slab (st_cache (cfg_state cfg)) = 0 →
       complete_slab (st_cache (cfg_state cfg)) = 0 →
       acquire_log (cfg_state cfg') =
         (if decide (r.1 = 0) then acquire_log (cfg_state cfg)
          else r.1 :: acquire_log (cfg_state cfg)) ∧
       held (cfg_state cfg') =
         (if decide (r.1 = 0) then held (cfg_state cfg)
          else {[r.1]} ∪ held (cfg_state cfg)))
  | Free _ =>
      acquire_log (cfg_state cfg') = acquire_log (cfg_state cfg) ∧
      release_log (cfg_state cfg') = release_log (cfg_state cfg) ∧
      held (cfg_state cfg') = held (cfg_state cfg)
  | Shrink | Release =>
      acquire_log (cfg_state cfg') = acquire_log (cfg_state cfg)
  end.
Proof.
  pose proof acquire_log_relink_proof as Ha.
  pose proof release_log_relink_proof as Hr.
  pose proof held_relink_proof as Hh.
  destruct o as [r|p| |]; unfold step.
  - destruct (cache_alloc r (cfg_state cfg)) as [[q st']|] eqn:E; [|discriminate].
    intros [= <-]. simpl. split; [|split].
    + eapply (cache_alloc_frame release_log Hr r); [|exact E].
      intros order. apply alloc_slab_release_log.
    + intros Hreuse. split.
      * eapply (cache_alloc_reuse_frame acquire_log Ha); eassumption.
      * eapply (cache_alloc_reuse_frame held Hh); eassumption.
    + intros Hp Hc. split.
      * destruct (cache_alloc_fresh_frame acquire_log Ha r _ _ _ Hp Hc E)
          as (a & st1 & Hal & ->).
        unfold alloc_slab in Hal. case_decide; injection Hal as <- <-; reflexivity.
      * destruct (cache_alloc_fresh_frame held Hh r _ _ _ Hp Hc E)
          as (a & st1 & Hal & ->).
        unfold alloc_slab in Hal. case_decide; injection Hal as <- <-;
          [reflexivity|]. unfold held; simpl. apply dom_insert_L.
  - destruct (cache_free p (cfg_state cfg)) as [[[] st']|] eqn:E; [|discriminate].
    intros [= <-]. simpl. split; [|split].
    + eapply (cache_free_frame acquire_log Ha), E.
    + eapply (cache_free_frame release_log Hr), E.
    + eapply (cache_free_frame held Hh), E.
  - destruct (cache_shrink (cfg_state cfg)) as [[[] st']|] eqn:E; [|discriminate].
    intros [= <-]. simpl.
    eapply (cache_shrink_frame acquire_log Ha); [|exact E].
    apply free_slab_acquire_log.
  - destruct (cache_release (cfg_state cfg)) as [[[] st']|] eqn:E; [|discriminate].
    intros [= <-]. simpl.
    eapply (cache_release_frame acquire_log Ha); [|exact E].
    apply free_slab_acquire_log.
Qed.

Lemma X10_witness :
  ∃ cfg', step (Alloc (4096, stale)) idle41 = Some cfg' ∧
    release_log (cfg_state cfg') = release_log (cfg_state idle41) ∧
    (partially_slab (st_cache (cfg_state idle41)) ≠ 0 ∨
     complete_slab (st_cache (cfg_state idle41)) ≠ 0 →
     acquire_log (cfg_state cfg') = acquire_log (cfg_state idle41) ∧
     held (cfg_state cfg') = held (cfg_state idle41)) ∧
    (partially_slab (st_cache (cfg_state idle41)) = 0 →
     complete_slab (st_cache (cfg_state idle41)) = 0 →
     acquire_log (cfg_state cfg') =
       (if decide ((4096, stale).1 = 0) then acquire_log (cfg_state idle41)
        else (4096, stale).1 :: acquire_log (cfg_state idle41)) ∧
     held (cfg_state cfg') =
       (if decide ((4096, stale).1 = 0) then held (cfg_state idle41)
        else {[(4096, stale).1]} ∪ held (cfg_state idle41))).
Proof.
  eexists. split; [vm_compute; reflexivity|].
  apply (X10_calls_to_the_page_primitive (Alloc (4096, stale)) idle41).
  vm_compute. reflexivity.
Defined.

(* ===================================================================== *)
(*  Properties of the states between public calls                        *)
(* ===================================================================== *)

Section BetweenCalls.
Implicit Types (h : gmap Z slabStruct) (c : cache) (acq rel : list Z)
               (lc lp le : list Z) (live : list (Z * Z)).

Lemma heads_null_lists_empty lc lp le c h acq rel live :
  rep lc lp le c h acq rel live →
  (partially_slab c = 0 ↔ lp = []) ∧ (complete_slab c = 0 ↔ lc = []) ∧
  (empty_slab c = 0 ↔ le = []).
Proof.
  intros R. rewrite (rep_hp R), (rep_hc R), (rep_he R).
  split; [|split]; eapply hd_nonzero; [apply (rep_dp R)|apply (rep_dc R)
                                       |apply (rep_de R)].
Qed.

(* The pointer an allocation returns, in terms of what the caller holds. *)
Lemma alloc_step_result cfg r cfg' :
  inv cfg → op_ok cfg (Alloc r) → step (Alloc r) cfg = Some cfg' →
  cfg_live cfg' =
    (alloc_source r (st_cache (cfg_state cfg)) + sizeof_slabStruct +
     count_live (alloc_source r (st_cache (cfg_state cfg))) (cfg_live cfg) *
     object_size (st_cache (cfg_state cfg)),
     alloc_source r (st_cache (cfg_state cfg))) :: cfg_live cfg.
Proof.
  destruct cfg as [[c [h acq rel]] live].
  intros (lc & lp & le & R) Hok Hstep. cbn in R, Hok, Hstep |- *.
  destruct lp as [|a lp].
  - destruct lc as [|a lc].
    + destruct (decide (r.1 = 0)) as [Hr|Hr].
      * rewrite (alloc_null_faults _ _ _ _ _ _ _ R Hr) in Hstep. discriminate.
      * destruct (Hok Hr) as [Hreg Hfresh].
        destruct (alloc_fresh_rep R Hr Hreg Hfresh)
          as (c' & h' & lp' & le' & Hrun & _).
        rewrite Hrun in Hstep. injection Hstep as <-. cbn.
        assert (alloc_source r c = r.1) as ->; [|reflexivity].
        unfold alloc_source. rewrite (rep_hp R), (rep_hc R). reflexivity.
    + destruct (alloc_complete_rep r R) as (c' & h' & lp' & le' & Hrun & _).
      rewrite Hrun in Hstep. injection Hstep as <-. cbn.
      assert (alloc_source r c = a) as ->; [|reflexivity].
      unfold alloc_source. rewrite (rep_hp R), (rep_hc R).
      cbn [hd]. rewrite decide_False by (intros E; apply E; reflexivity).
      apply decide_True.
      pose proof (rep_dc R) as Hd. simpl in Hd. destruct Hd as [[? _] _].
      assumption.
  - destruct (alloc_partial_rep r R) as (c' & h' & lp' & le' & Hrun & _).
    rewrite Hrun in Hstep. injection Hstep as <-. cbn.
    assert (alloc_source r c = a) as ->; [|reflexivity].
    unfold alloc_source. rewrite (rep_hp R). cbn [hd]. apply decide_True.
    pose proof (rep_dp R) as Hd. simpl in Hd. destruct Hd as [[? _] _].
    assumption.
Qed.

(* Where a held pointer lies in its slab. *)
Lemma live_chunk_bounds lc lp le c h acq rel live p b :
  rep lc lp le c h acq rel live → (p, b) ∈ live →
  ∃ k, (0 ≤ k < slab_objects c) ∧
       p = b + sizeof_slabStruct + k * object_size c ∧
       b + sizeof_slabStruct + slab_objects c * object_size c
         ≤ b + 4096 * 2 ^ slab_order c ∧
       region_ok (slab_order c) b ∧ 0 < object_size c.
Proof.
  intros R Hin. destruct (rep_live R p b Hin) as [Hb (k & Hk & Hp)].
  pose proof (rep_geo R) as [Ho Hs Hn Hfit].
  exists k. split; [exact Hk|]. split; [exact Hp|]. split.
  - rewrite Z.pow_add_r in Hfit by lia. change (2 ^ 12) with 4096 in Hfit. lia.
  - split; [apply (rep_region R), Hb|exact Hs].
Qed.

Lemma reachable_geometry size cfg :
  reachable size cfg →
  geometry (cfg_state cfg) =
  (size, setup_order size,
   if decide (setup_order size > 0) then 1
   else (4096 - sizeof_slabStruct) / size).
Proof.
  pose proof geometry_relink_proof as Hg.
  induction 1 as [c0 st Hok Hrun|cfg o cfg' _ IH Hok Hstep].
  - rewrite cache_setup_run in Hrun by (destruct Hok; lia).
    injection Hrun as <-. reflexivity.
  - rewrite <- IH. clear IH. destruct o as [r|p| |]; unfold step in Hstep.
    + destruct (cache_alloc r (cfg_state cfg)) as [[q st']|] eqn:E; [|discriminate].
      injection Hstep as <-. simpl.
      eapply (cache_alloc_frame geometry Hg r); [|exact E].
      intros order. apply alloc_slab_geometry.
    + destruct (cache_free p (cfg_state cfg)) as [[[] st']|] eqn:E; [|discriminate].
      injection Hstep as <-. simpl. eapply (cache_free_frame geometry Hg), E.
    + destruct (cache_shrink (cfg_state cfg)) as [[[] st']|] eqn:E; [|discriminate].
      injection Hstep as <-. simpl.
      eapply (cache_shrink_frame geometry Hg); [|exact E]. apply free_slab_geometry.
    + destruct (cache_release (cfg_state cfg)) as [[[] st']|] eqn:E; [|discriminate].
      injection Hstep as <-. simpl.
      eapply (cache_release_frame geometry Hg); [|exact E]. apply free_slab_geometry.
Qed.

End BetweenCalls.

(** X11.  The slot policy of cache_alloc between public calls: the
    pointer returned is the base of the slab it takes the object from
    (the first partially occupied slab, else the first unused one, else
    the region just acquired) plus the header size plus object_size
    times the number of pointers the caller currently holds in that
    slab. *)
Theorem X11_alloc_returns_slot_of_the_count size cfg r cfg' :
  reachable size cfg → op_ok cfg (Alloc r) →
  step (Alloc r) cfg = Some cfg' →
  cfg_live cfg' =
    (alloc_source r (st_cache (cfg_state cfg)) + sizeof_slabStruct +
     count_live (alloc_source r (st_cache (cfg_state cfg))) (cfg_live cfg) *
     object_size (st_cache (cfg_state cfg)),
     alloc_source r (st_cache (cfg_state cfg))) :: cfg_live cfg.
Proof.
  intros Hreach. apply alloc_step_result, (reachable_inv size), Hreach.
Qed.

Lemma X11_witness :
  ∃ cfg cfg',
    session blank 2000 busy_ops = Some cfg ∧
    op_ok cfg (Alloc (0, stale)) ∧
    step (Alloc (0, stale)) cfg = Some cfg' ∧
    cfg_live cfg' =
      (alloc_source (0, stale) (st_cache (cfg_state cfg)) + sizeof_slabStruct +
       count_live (alloc_source (0, stale) (st_cache (cfg_state cfg)))
         (cfg_live cfg) * object_size (st_cache (cfg_state cfg)),
       alloc_source (0, stale) (st_cache (cfg_state cfg))) :: cfg_live cfg.
Proof.
  eexists _, _. split; [vm_compute; reflexivity|].
  assert (Hok : op_ok (mkConfig
            (mkState (mkCache 0 8192 4096 2000 0 2)
               (mkPages (<[4096 := mkSlab 0 0 1]>
                           (<[8192 := mkSlab 0 0 1]> ∅)) [8192; 4096] []))
            [(8216, 8192); (6120, 4096)]) (Alloc (0, stale)))
    by (intros H; contradiction).
  split; [exact Hok|]. split; [vm_compute; reflexivity|].
  apply (X11_alloc_returns_slot_of_the_count 2000 _ (0, stale)).
  - apply (session_reachable blank 2000 busy_ops). vm_compute. reflexivity.
  - exact Hok.
  - vm_compute. reflexivity.
Defined.

(** X12.  Between public calls every chunk the caller holds lies inside
    its slab behind the header: it starts at a whole number of object
    sizes after the header and its object_size bytes end before the
    slab does, and the slab ends inside the address space. *)
Theorem X12_live_chunk_inside_its_slab size cfg p b :
  reachable size cfg → (p, b) ∈ cfg_live cfg →
  b + sizeof_slabStruct ≤ p ∧
  (p - b - sizeof_slabStruct) mod object_size (st_cache (cfg_state cfg)) = 0 ∧
  p + object_size (st_cache (cfg_state cfg))
    ≤ b + 4096 * 2 ^ slab_order (st_cache (cfg_state cfg)) ∧
  b + 4096 * 2 ^ slab_order (st_cache (cfg_state cfg)) ≤ 2 ^ 64.
Proof.
  intros Hreach Hin. apply reachable_inv in Hreach as (lc & lp & le & R).
  destruct cfg as [[c [h acq rel]] live]. cbn in *.
  destruct (live_chunk_bounds _ _ _ _ _ _ _ _ _ _ R Hin)
    as (k & Hk & -> & Hfit & (Hb0 & Hal & Hend) & Hs).
  pose proof (geo_order _ (rep_geo R)) as Ho.
  rewrite Z.pow_add_r in Hend by lia. change (2 ^ 12) with 4096 in Hend.
  split; [nia|]. split.
  - replace (b + sizeof_slabStruct + k * object_size c - b - sizeof_slabStruct)
      with (k * object_size c) by lia.
    apply Z.mod_mul. lia.
  - split; [nia|lia].
Qed.

Lemma X12_witness :
  ∃ cfg,
    session blank 2000 busy_ops = Some cfg ∧
    (6120, 4096) ∈ cfg_live cfg ∧
    4096 + sizeof_slabStruct ≤ 6120 ∧
    (6120 - 4096 - sizeof_slabStruct) mod object_size (st_cache (cfg_state cfg)) = 0 ∧
    6120 + object_size (st_cache (cfg_state cfg))
      ≤ 4096 + 4096 * 2 ^ slab_order (st_cache (cfg_state cfg)) ∧
    4096 + 4096 * 2 ^ slab_order (st_cache (cfg_state cfg)) ≤ 2 ^ 64.
Proof.
  eexists. split; [vm_compute; reflexivity|].
  assert (Hin : (6120, 4096) ∈ [(8216, 8192); (6120, 4096)]) by (right; left).
  split; [exact Hin|].
  apply (X12_live_chunk_inside_its_slab 2000 _ 6120 4096).
  - apply (session_reachable blank 2000 busy_ops). vm_compute. reflexivity.
  - exact Hin.
Defined.

(** X13.  Between public calls two chunks the caller holds never overlap
    in part: either they are the same chunk of the same slab, or their
    object_size bytes are disjoint. *)
Theorem X13_live_chunks_same_or_disjoint size cfg p1 b1 p2 b2 :
  reachable size cfg → (p1, b1) ∈ cfg_live cfg → (p2, b2) ∈ cfg_live cfg →
  (p1 = p2 ∧ b1 = b2) ∨
  p1 + object_size (st_cache (cfg_state cfg)) ≤ p2 ∨
  p2 + object_size (st_cache (cfg_state cfg)) ≤ p1.
Proof.
  intros Hreach Hin1 Hin2. apply reachable_inv in Hreach as (lc & lp & le & R).
  destruct cfg as [[c [h acq rel]] live]. cbn in *.
  destruct (live_chunk_bounds _ _ _ _ _ _ _ _ _ _ R Hin1)
    as (k1 & Hk1 & -> & Hfit1 & (Hb1 & Hal1 & _) & Hs).
  destruct (live_chunk_bounds _ _ _ _ _ _ _ _ _ _ R Hin2)
    as (k2 & Hk2 & -> & Hfit2 & (Hb2 & Hal2 & _) & _).
  pose proof (geo_order _ (rep_geo R)) as Ho.
  rewrite Z.pow_add_r in Hal1, Hal2 by lia.
  change (2 ^ 12) with 4096 in Hal1, Hal2.
  rewrite (Z.mul_comm (2 ^ slab_order c)) in Hal1, Hal2.
  set (S := 4096 * 2 ^ slab_order c) in *.
  assert (HS : 0 < S) by (unfold S; pose proof (Z.pow_pos_nonneg 2 (slab_order c)); lia).
  destruct (decide (b1 = b2)) as [->|Hne].
  - destruct (Z.lt_trichotomy k1 k2) as [Hlt|[->|Hgt]].
    + right; left.
      assert ((k1 + 1) * object_size c ≤ k2 * object_size c)
        by (apply Z.mul_le_mono_nonneg_r; lia).
      lia.
    + left. split; reflexivity.
    + right; right.
      assert ((k2 + 1) * object_size c ≤ k1 * object_size c)
        by (apply Z.mul_le_mono_nonneg_r; lia).
      lia.
  - apply Z.div_exact in Hal1, Hal2; try lia.
    assert (Hq : b1 / S ≠ b2 / S) by congruence.
    assert (Hin : ∀ k, 0 ≤ k < slab_objects c →
              sizeof_slabStruct + k * object_size c + object_size c ≤ S).
    { intros k Hk.
      assert ((k + 1) * object_size c ≤ slab_objects c * object_size c)
        by (apply Z.mul_le_mono_nonneg_r; lia).
      lia. }
    pose proof (Hin k1 Hk1). pose proof (Hin k2 Hk2).
    assert (0 ≤ k1 * object_size c) by (apply Z.mul_nonneg_nonneg; lia).
    assert (0 ≤ k2 * object_size c) by (apply Z.mul_nonneg_nonneg; lia).
    unfold sizeof_slabStruct in *.
    destruct (Z.lt_trichotomy (b1 / S) (b2 / S)) as [Hlt|[?|Hgt]]; [|contradiction|].
    + right; left.
      assert (S * (b1 / S + 1) ≤ S * (b2 / S)) by (apply Z.mul_le_mono_nonneg_l; lia).
      lia.
    + right; right.
      assert (S * (b2 / S + 1) ≤ S * (b1 / S)) by (apply Z.mul_le_mono_nonneg_l; lia).
      lia.
Qed.

Lemma X13_witness :
  ∃ cfg,
    session blank 2000 busy_ops = Some cfg ∧
    (6120, 4096) ∈ cfg_live cfg ∧ (8216, 8192) ∈ cfg_live cfg ∧
    ((6120 = 8216 ∧ 4096 = 8192) ∨
     6120 + object_size (st_cache (cfg_state cfg)) ≤ 8216 ∨
     8216 + object_size (st_cache (cfg_state cfg)) ≤ 6120).
Proof.
  eexists. split; [vm_compute; reflexivity|].
  assert (Hin1 : (6120, 4096) ∈ [(8216, 8192); (6120, 4096)]) by (right; left).
  assert (Hin2 : (8216, 8192) ∈ [(8216, 8192); (6120, 4096)]) by left.
  split; [exact Hin1|]. split; [exact Hin2|].
  apply (X13_live_chunks_same_or_disjoint 2000 _ 6120 4096 8216 8192).
  - apply (session_reachable blank 2000 busy_ops). vm_compute. reflexivity.
  - exact Hin1.
  - exact Hin2.
Defined.

(** X14.  Between public calls a call whose preconditions hold fails to
    return in one case only: a cache_alloc that finds partially_slab
    and complete_slab null and gets null from alloc_slab.  Every
    cache_free, cache_shrink and cache_release, and every other
    cache_alloc, returns. *)
Theorem X14_only_a_refused_region_stops_a_call size cfg o :
  reachable size cfg → op_ok cfg o →
  (step o cfg = None ↔
   ∃ r, o = Alloc r ∧ r.1 = 0 ∧
        partially_slab (st_cache (cfg_state cfg)) = 0 ∧
        complete_slab (st_cache (cfg_state cfg)) = 0).
Proof.
  intros Hreach Hok. pose proof (reachable_inv _ _ Hreach) as Hinv. split.
  - intros Hnone.
    assert (Hdec : (∃ r, o = Alloc r ∧ r.1 = 0 ∧
                      partially_slab (st_cache (cfg_state cfg)) = 0 ∧
                      complete_slab (st_cache (cfg_state cfg)) = 0) ∨
                   (∀ r, o = Alloc r →
                      r.1 ≠ 0 ∨ partially_slab (st_cache (cfg_state cfg)) ≠ 0
                             ∨ complete_slab (st_cache (cfg_state cfg)) ≠ 0)).
    { destruct o as [r|p| |];
        [|right; intros r' [=]|right; intros r' [=]|right; intros r' [=]].
      destruct (decide (r.1 = 0)) as [Hr|Hr];
        [|right; intros r' [= <-]; auto].
      destruct (decide (partially_slab (st_cache (cfg_state cfg)) = 0)) as [Hp|Hp];
        [|right; intros r' [= <-]; auto].
      destruct (decide (complete_slab (st_cache (cfg_state cfg)) = 0)) as [Hc|Hc];
        [|right; intros r' [= <-]; auto].
      left. exists r. auto. }
    destruct Hdec as [Hex|Hneed]; [exact Hex|].
    destruct (step_returns cfg o Hinv Hok Hneed) as [cfg' Hsome]. congruence.
  - intros (r & -> & Hr & Hp & Hc).
    destruct Hinv as (lc & lp & le & R).
    destruct cfg as [[c [h acq rel]] live]. cbn in *.
    destruct (heads_null_lists_empty _ _ _ _ _ _ _ _ R) as (Elp & Elc & _).
    apply Elp in Hp. apply Elc in Hc. subst lp lc.
    rewrite (alloc_null_faults _ _ _ _ _ _ _ R Hr). reflexivity.
Qed.

Lemma X14_witness :
  ∃ cfg,
    session blank 41 [] = Some cfg ∧ op_ok cfg (Alloc (0, stale)) ∧
    (step (Alloc (0, stale)) cfg = None ↔
     ∃ r, Alloc (0, stale) = Alloc r ∧ r.1 = 0 ∧
          partially_slab (st_cache (cfg_state cfg)) = 0 ∧
          complete_slab (st_cache (cfg_state cfg)) = 0).
Proof.
  eexists. split; [vm_compute; reflexivity|].
  assert (Hok : op_ok (mkConfig (mkState (mkCache 0 0 0 41 0 99) nothing_held) [])
                  (Alloc (0, stale))) by (intros H; contradiction).
  split; [exact Hok|].
  apply (X14_only_a_refused_region_stops_a_call 41 _ (Alloc (0, stale))).
  - apply (session_reachable blank 41 []). vm_compute. reflexivity.
  - exact Hok.
Defined.

(** X15.  The occupancy the code keeps between public calls.  Every held
    slab is on exactly one of the three lists, which are well linked;
    its refcnt is the number of pointers the caller holds in it and
    never exceeds slab_objects; it is 0 exactly for the slabs of the
    complete list; a slab of the partially list has room; a slab whose
    refcnt equals slab_objects is on the empty list. *)
Theorem X15_occupancy_between_calls size cfg :
  reachable size cfg →
  ∃ lc lp le,
    complete_slab (st_cache (cfg_state cfg)) = hd 0 lc ∧
    partially_slab (st_cache (cfg_state cfg)) = hd 0 lp ∧
    empty_slab (st_cache (cfg_state cfg)) = hd 0 le ∧
    dseg (mem (st_pages (cfg_state cfg))) 0 lc 0 ∧
    dseg (mem (st_pages (cfg_state cfg))) 0 lp 0 ∧
    dseg (mem (st_pages (cfg_state cfg))) 0 le 0 ∧
    NoDup (lc ++ lp ++ le) ∧
    ∀ y s, mem (st_pages (cfg_state cfg)) !! y = Some s →
      y ∈ lc ++ lp ++ le ∧
      refcnt s = count_live y (cfg_live cfg) ∧
      (0 ≤ refcnt s ≤ slab_objects (st_cache (cfg_state cfg))) ∧
      (refcnt s = 0 ↔ y ∈ lc) ∧
      (y ∈ lp → refcnt s < slab_objects (st_cache (cfg_state cfg))) ∧
      (refcnt s = slab_objects (st_cache (cfg_state cfg)) → y ∈ le).
Proof.
  intros Hreach. apply reachable_inv in Hreach as (lc & lp & le & R).
  destruct cfg as [[c [h acq rel]] live]. cbn in *.
  exists lc, lp, le.
  split; [apply (rep_hc R)|]. split; [apply (rep_hp R)|].
  split; [apply (rep_he R)|]. split; [apply (rep_dc R)|].
  split; [apply (rep_dp R)|]. split; [apply (rep_de R)|].
  split; [apply (rep_nodup R)|].
  intros y s Hs.
  assert (Hy : is_Some (h !! y)) by eauto.
  pose proof (rep_cnt R y Hy) as Hc.
  rewrite (field_Some_lookup _ _ _ _ Hs) in Hc. injection Hc as Hc.
  pose proof (proj1 (rep_dom R y) Hy) as Hin.
  pose proof (geo_objects _ (rep_geo R)) as Hobj.
  pose proof (rep_occ_c R y) as Hoc. pose proof (rep_occ_p R y) as Hop.
  pose proof (rep_occ_e R y) as Hoe.
  rewrite !elem_of_app in Hin.
  split; [rewrite !elem_of_app; exact Hin|]. split; [exact Hc|].
  rewrite Hc.
  split; [destruct Hin as [H|[H|H]]; [apply Hoc in H|apply Hop in H|apply Hoe in H]; lia|].
  split; [split; [intros Hz|exact Hoc]|split].
  - destruct Hin as [H|[H|H]]; [exact H|apply Hop in H; lia|apply Hoe in H; lia].
  - intros H. apply Hop in H. lia.
  - intros Hfull.
    destruct Hin as [H|[H|H]]; [apply Hoc in H; lia|apply Hop in H; lia|exact H].
Qed.

Lemma X15_witness :
  ∃ cfg,
    session blank 2000 busy_ops = Some cfg ∧
    ∃ lc lp le,
        complete_slab (st_cache (cfg_state cfg)) = hd 0 lc ∧
      partially_slab (st_cache (cfg_state cfg)) = hd 0 lp ∧
      empty_slab (st_cache (cfg_state cfg)) = hd 0 le ∧
      dseg (mem (st_pages (cfg_state cfg))) 0 lc 0 ∧
      dseg (mem (st_pages (cfg_state cfg))) 0 lp 0 ∧
      dseg (mem (st_pages (cfg_state cfg))) 0 le 0 ∧
      NoDup (lc ++ lp ++ le) ∧
      ∀ y s, mem (st_pages (cfg_state cfg)) !! y = Some s →
        y ∈ lc ++ lp ++ le ∧
        refcnt s = count_live y (cfg_live cfg) ∧
        (0 ≤ refcnt s ≤ slab_objects (st_cache (cfg_state cfg))) ∧
        (refcnt s = 0 ↔ y ∈ lc) ∧
        (y ∈ lp → refcnt s < slab_objects (st_cache (cfg_state cfg))) ∧
        (refcnt s = slab_objects (st_cache (cfg_state cfg)) → y ∈ le).
Proof.
  eexists. split; [vm_compute; reflexivity|].
  apply (X15_occupancy_between_calls 2000).
  apply (session_reachable blank 2000 busy_ops). vm_compute. reflexivity.
Defined.

(** X16.  With one object per slab (every object size that needs a slab
    order above 0) the partially list stays empty between public calls:
    a slab is either unused or full. *)
Theorem X16_single_object_slabs_are_never_partial size cfg :
  reachable size cfg →
  slab_objects (st_cache (cfg_state cfg)) = 1 →
  partially_slab (st_cache (cfg_state cfg)) = 0.
Proof.
  intros Hreach Hone. apply reachable_inv in Hreach as (lc & lp & le & R).
  destruct cfg as [[c [h acq rel]] live]. cbn in *.
  rewrite (rep_hp R). destruct lp as [|y lp]; [reflexivity|].
  pose proof (rep_occ_p R y ltac:(left)). lia.
Qed.

Lemma X16_witness :
  ∃ cfg,
    session blank 8192 [Alloc (16384, stale); Alloc (32768, stale); Free 16408]
      = Some cfg ∧
    slab_objects (st_cache (cfg_state cfg)) = 1 ∧
    partially_slab (st_cache (cfg_state cfg)) = 0.
Proof.
  eexists. split; [vm_compute; reflexivity|].
  assert (Hone : slab_objects (mkCache 16384 0 32768 8192 2 1) = 1) by reflexivity.
  split; [exact Hone|].
  apply (X16_single_object_slabs_are_never_partial 8192); [|exact Hone].
  apply (session_reachable blank 8192
           [Alloc (16384, stale); Alloc (32768, stale); Free 16408]).
  vm_compute. reflexivity.
Defined.



Section MoreBetweenCalls.
Implicit Types (h : gmap Z slabStruct) (c : cache) (acq rel : list Z)
               (lc lp le : list Z) (live : list (Z * Z)).

Lemma reachable_size_ok size cfg : reachable size cfg → size_ok size.
Proof. induction 1; assumption. Qed.

Lemma with_complete_twice v w c :
  with_complete v (with_complete w c) = with_complete v c.
Proof. destruct c; reflexivity. Qed.



End MoreBetweenCalls.

(** X18.  Between public calls cache_free of a pointer the caller holds
    returns, lowers the refcnt of the slab the pointer rounds down to by
    exactly one, and leaves every other held slab held with the refcnt it
    had. *)
Theorem X18_free_lowers_one_count size cfg p :
  reachable size cfg → p ∈ (cfg_live cfg).*1 →
  ∃ st',
    cache_free p (cfg_state cfg) = Some (tt, st') ∧
    ∀ y s, mem (st_pages (cfg_state cfg)) !! y = Some s →
      ∃ s', mem (st_pages st') !! y = Some s' ∧
            refcnt s' =
            refcnt s -
            (if decide (y = calculate_slab_start (st_cache (cfg_state cfg)) p)
             then 1 else 0).
Proof.
  intros Hreach Hp. apply reachable_inv in Hreach as (lc & lp & le & R).
  destruct cfg as [[c [h acq rel]] live]. cbn in *.
  destruct (cache_free_rep R Hp)
    as (c' & h' & lc' & lp' & le' & Hrun & R').
  eexists. split; [exact Hrun|]. cbn [st_pages mem].
  intros y s Hs.
  pose proof (cache_free_frame held held_relink_proof p _ _ _ Hrun) as Hheld.
  unfold held in Hheld; cbn in Hheld.
  assert (Hy : is_Some (h !! y)) by eauto.
  assert (Hy' : is_Some (h' !! y)).
  { apply elem_of_dom. rewrite Hheld. apply elem_of_dom, Hy. }
  destruct Hy' as [s' Hs']. exists s'. split; [exact Hs'|].
  pose proof (rep_cnt R y Hy) as Hc.
  rewrite (field_Some_lookup refcnt _ _ _ Hs) in Hc. injection Hc as ->.
  pose proof (rep_cnt R' y ltac:(eauto)) as Hc'.
  rewrite (field_Some_lookup refcnt _ _ _ Hs') in Hc'. injection Hc' as ->.
  rewrite (remove_live_count p (calculate_slab_start c p)).
  - destruct (decide (calculate_slab_start c p = y)),
             (decide (y = calculate_slab_start c p)); congruence.
  - exact Hp.
  - intros b' Hb'.
    destruct (live_slab R Hb') as [E _]. congruence.
Qed.

Lemma X18_witness :
  ∃ cfg,
    session blank 2000 busy_ops = Some cfg ∧
    6120 ∈ (cfg_live cfg).*1 ∧
    ∃ st',
      cache_free 6120 (cfg_state cfg) = Some (tt, st') ∧
      ∀ y s, mem (st_pages (cfg_state cfg)) !! y = Some s →
        ∃ s', mem (st_pages st') !! y = Some s' ∧
              refcnt s' =
              refcnt s -
              (if decide (y = calculate_slab_start (st_cache (cfg_state cfg)) 6120)
               then 1 else 0).
Proof.
  eexists. split; [vm_compute; reflexivity|].
  assert (Hin : 6120 ∈ ([(8216, 8192); (6120, 4096)] : list (Z * Z)).*1)
    by (cbn; right; left).
  split; [exact Hin|].
  apply (X18_free_lowers_one_count 2000); [|exact Hin].
  apply (session_reachable blank 2000 busy_ops). vm_compute. reflexivity.
Defined.

(** X19.  Between public calls cache_shrink returns, and a second
    cache_shrink right after it changes nothing: no region is passed to
    free_slab again. *)
Theorem X19_shrink_twice_is_shrink_once size cfg :
  reachable size cfg →
  ∃ st1, cache_shrink (cfg_state cfg) = Some (tt, st1) ∧
         cache_shrink st1 = Some (tt, st1).
Proof.
  intros Hreach. apply reachable_inv in Hreach as (lc & lp & le & R).
  destruct cfg as [[c [h acq rel]] live]. cbn in *.
  eexists. split; [apply (cache_shrink_run R)|].
  rewrite (cache_shrink_run (cache_shrink_rep R)).
  rewrite with_complete_twice. reflexivity.
Qed.

Lemma X19_witness :
  ∃ cfg,
    session blank 2000 (busy_ops ++ [Free 6120]) = Some cfg ∧
    ∃ st1, cache_shrink (cfg_state cfg) = Some (tt, st1) ∧
           cache_shrink st1 = Some (tt, st1).
Proof.
  eexists. split; [vm_compute; reflexivity|].
  apply (X19_shrink_twice_is_shrink_once 2000).
  apply (session_reachable blank 2000 (busy_ops ++ [Free 6120])).
  vm_compute. reflexivity.
Defined.

(** X20.  cache_release brings the cache back to the state cache_setup
    left it in: it returns, no region is held, the three heads are null
    and the geometry is that of the object size, so that cache_setup
    with the same object size changes nothing after it. *)
Theorem X20_release_restores_the_setup_state size cfg :
  reachable size cfg →
  ∃ st', cache_release (cfg_state cfg) = Some (tt, st') ∧
         mem (st_pages st') = ∅ ∧
         st_cache st' =
           mkCache 0 0 0 size (setup_order size)
             (if decide (setup_order size > 0) then 1
              else (4096 - sizeof_slabStruct) / size) ∧
         cache_setup size st' = Some (tt, st').
Proof.
  intros Hreach. pose proof (reachable_size_ok _ _ Hreach) as [Hsize _].
  pose proof (reachable_geometry _ _ Hreach) as Hgeo.
  apply reachable_inv in Hreach as (lc & lp & le & R).
  destruct cfg as [[c [h acq rel]] live].
  cbn [cfg_state cfg_live st_cache st_pages mem acquired released] in *.
  unfold geometry in Hgeo. cbn [st_cache] in Hgeo.
  eexists. split; [apply (cache_release_run R)|].
  split; [reflexivity|]. cbn [st_cache].
  assert (Hc : with_empty 0 (with_partially 0 (with_complete 0 c)) =
               mkCache 0 0 0 size (setup_order size)
                 (if decide (setup_order size > 0) then 1
                  else (4096 - sizeof_slabStruct) / size)).
  { destruct c as [cc cp ce os so sn].
    cbn [object_size slab_order slab_objects] in Hgeo.
    injection Hgeo as -> -> ->. reflexivity. }
  split; [exact Hc|]. rewrite Hc. apply cache_setup_run. lia.
Qed.

Lemma X20_witness :
  ∃ cfg,
    session blank 2000 busy_ops = Some cfg ∧
    ∃ st', cache_release (cfg_state cfg) = Some (tt, st') ∧
           mem (st_pages st') = ∅ ∧
           st_cache st' =
             mkCache 0 0 0 2000 (setup_order 2000)
               (if decide (setup_order 2000 > 0) then 1
                else (4096 - sizeof_slabStruct) / 2000) ∧
           cache_setup 2000 st' = Some (tt, st').
Proof.
  eexists. split; [vm_compute; reflexivity|].
  apply (X20_release_restores_the_setup_state 2000).
  apply (session_reachable blank 2000 busy_ops). vm_compute. reflexivity.
Defined.



(** X22.  cache_free moves a slab only when its refcnt reaches exactly
    zero.  For a pointer that rounds down to a held slab whose refcnt is
    not 1, the call returns and changes nothing but that refcnt, which
    it lowers by one modulo 2^32: a slab that was unused, as after a
    second free of the same pointer, is left on its list with refcnt
    4294967295. *)
Theorem X22_free_only_counts_unless_the_slab_drains c h acq rel p s :
  h !! calculate_slab_start c p = Some s →
  0 ≤ refcnt s < 2 ^ 32 → refcnt s ≠ 1 →
  cache_free p (mkState c (mkPages h acq rel)) =
    Some (tt, mkState c
                (mkPages (<[calculate_slab_start c p :=
                            set_refcnt (wrap32 (refcnt s - 1)) s]> h) acq rel)) ∧
  (refcnt s = 0 → wrap32 (refcnt s - 1) = 4294967295).
Proof.
  intros Hs Hrange Hne. split.
  - unfold cache_free. run_get. unfold id.
    run_load Hs. run_store.
    assert (Hs1 : alter (set_refcnt (wrap32 (refcnt s - 1)))
                    (calculate_slab_start c p) h !! calculate_slab_start c p =
                  Some (set_refcnt (wrap32 (refcnt s - 1)) s))
      by (rewrite lookup_alter_eq, Hs; reflexivity).
    run_load Hs1. cbn [refcnt set_refcnt].
    rewrite decide_False.
    + assert (Heq : <[calculate_slab_start c p :=
                        set_refcnt (wrap32 (refcnt s - 1)) s]> h =
                    alter (set_refcnt (wrap32 (refcnt s - 1)))
                      (calculate_slab_start c p) h).
      { apply map_eq. intros y. rewrite lookup_alter, lookup_insert.
        case_decide; [subst; rewrite Hs|]; reflexivity. }
      rewrite Heq. reflexivity.
    + unfold wrap32. destruct (decide (refcnt s = 0)) as [->|Hz].
      * vm_compute. discriminate.
      * rewrite Z.mod_small by lia. lia.
  - intros ->. reflexivity.
Qed.

Lemma X22_witness :
  ∃ cfg,
    session blank 2000 [Alloc (4096, stale); Free 4120] = Some cfg ∧
    mem (st_pages (cfg_state cfg)) !! 4096 = Some (mkSlab 0 0 0) ∧
    cache_free 4120 (cfg_state cfg) =
      Some (tt, mkState (st_cache (cfg_state cfg))
                  (mkPages (<[4096 := mkSlab 0 0 4294967295]>
                              (mem (st_pages (cfg_state cfg)))) [4096] [])).
Proof.
  eexists. split; [vm_compute; reflexivity|].
  split; [vm_compute; reflexivity|].
  refine (proj1 (X22_free_only_counts_unless_the_slab_drains
                   (mkCache 4096 0 0 2000 0 2) _ [4096] [] 4120 (mkSlab 0 0 0)
                   _ _ _)).
  - vm_compute. reflexivity.
  - cbn. lia.
  - cbn. lia.
Defined.

(** X23.  cache_setup on a cache that is in use forgets its slabs
    without releasing them: it returns for every object size other than
    0, calls neither page primitive and leaves every header as it was,
    and a cache_release after it passes nothing to free_slab, so the
    regions held before stay held. *)
Theorem X23_setup_forgets_the_slabs_it_held size c pg :
  size ≠ 0 →
  ∃ c',
    cache_setup size (mkState c pg) = Some (tt, mkState c' pg) ∧
    complete_slab c' = 0 ∧ partially_slab c' = 0 ∧ empty_slab c' = 0 ∧
    cache_release (mkState c' pg) = Some (tt, mkState c' pg).
Proof.
  intros Hne. eexists. split; [apply cache_setup_run, Hne|].
  split; [reflexivity|]. split; [reflexivity|]. split; [reflexivity|].
  destruct pg as [h acq rel].
  unfold cache_release. run_get. simpl_cache. rewrite ?bind_assoc.
  erewrite bind_run by (apply (free_list_run h 0 []); [exact I|constructor]).
  run_get. simpl_cache. rewrite ?bind_assoc.
  erewrite bind_run by (apply (free_list_run _ 0 []); [exact I|constructor]).
  run_get. simpl_cache. rewrite ?bind_assoc.
  erewrite bind_run by (apply (free_list_run _ 0 []); [exact I|constructor]).
  do 2 run_put. reflexivity.
Qed.

Lemma X23_witness :
  ∃ cfg c',
    session blank 2000 busy_ops = Some cfg ∧
    cache_setup 41 (cfg_state cfg) = Some (tt, mkState c' (st_pages (cfg_state cfg))) ∧
    complete_slab c' = 0 ∧ partially_slab c' = 0 ∧ empty_slab c' = 0 ∧
    cache_release (mkState c' (st_pages (cfg_state cfg))) =
      Some (tt, mkState c' (st_pages (cfg_state cfg))).
Proof.
  eexists.
  destruct (X23_setup_forgets_the_slabs_it_held 41 (mkCache 0 8192 4096 2000 0 2)
              (mkPages (<[8192 := mkSlab 0 0 1]> (<[4096 := mkSlab 0 0 1]> ∅))
                 [8192; 4096] []) ltac:(lia)) as (c' & H).
  exists c'. split; [vm_compute; reflexivity|]. exact H.
Defined.

Section Driver.
Implicit Types (refs : list Z) (live : list (Z * Z)) (draws : list draw).

Lemma set_insert_submseteq p refs : set_insert p refs ⊆+ p :: refs.
Proof.
  induction refs as [|q refs IH]; simpl; [reflexivity|].
  repeat case_decide; [reflexivity|apply submseteq_cons; reflexivity|].
  etrans; [apply submseteq_skip, IH|].
  apply Permutation_submseteq, Permutation_swap.
Qed.

Lemma remove_live_Permutation p live :
  p ∈ live.*1 → live.*1 ≡ₚ p :: (remove_live p live).*1.
Proof.
  induction live as [|e live IH]; intros Hin; [inversion Hin|].
  simpl. case_decide as He; [rewrite He; reflexivity|].
  rewrite fmap_cons. rewrite Permutation_swap. apply Permutation_skip, IH.
  rewrite fmap_cons in Hin. apply elem_of_cons in Hin as [E|Hin]; [|exact Hin].
  congruence.
Qed.

(* Giving up a pointer of refs by a cache_free keeps the rest held. *)
Lemma submseteq_remove_live p refs refs' live :
  refs ≡ₚ p :: refs' → refs ⊆+ live.*1 →
  p ∈ live.*1 ∧ refs' ⊆+ (remove_live p live).*1.
Proof.
  intros Hperm Hsub.
  assert (Hin : p ∈ live.*1).
  { eapply elem_of_submseteq; [|exact Hsub]. rewrite Hperm. left. }
  split; [exact Hin|].
  apply (submseteq_app_inv_l _ _ [p]). simpl.
  rewrite <- Hperm, <- (remove_live_Permutation p live Hin). exact Hsub.
Qed.

(* cache_alloc holds afterwards at most the region it was answered in
   addition to those it held. *)
Lemma cache_alloc_held r st p st' a :
  cache_alloc r st = Some (p, st') →
  a ≠ r.1 → mem (st_pages st) !! a = None → mem (st_pages st') !! a = None.
Proof.
  intros Hrun Hne Hfresh.
  pose proof held_relink_proof as Hh.
  assert (Hsub : held st' = held st ∨ held st' = {[r.1]} ∪ held st).
  { destruct (decide (partially_slab (st_cache st) ≠ 0)) as [Hp|Hp].
    - left. eapply (cache_alloc_reuse_frame held Hh); [left; exact Hp|exact Hrun].
    - destruct (decide (complete_slab (st_cache st) ≠ 0)) as [Hc|Hc].
      + left. eapply (cache_alloc_reuse_frame held Hh); [right; exact Hc|exact Hrun].
      + assert (Hp0 : partially_slab (st_cache st) = 0)
          by (destruct (decide (partially_slab (st_cache st) = 0)) as [E|N];
              [exact E|destruct (Hp N)]).
        assert (Hc0 : complete_slab (st_cache st) = 0)
          by (destruct (decide (complete_slab (st_cache st) = 0)) as [E|N];
              [exact E|destruct (Hc N)]).
        destruct (cache_alloc_fresh_frame held Hh r _ _ _ Hp0 Hc0 Hrun)
          as (b & st1 & Hal & ->).
        unfold alloc_slab in Hal. case_decide; injection Hal as <- <-;
          [left; reflexivity|right]. unfold held; simpl. apply dom_insert_L. }
  apply not_elem_of_dom. apply not_elem_of_dom in Hfresh.
  fold (held st'). fold (held st) in Hfresh.
  destruct Hsub as [->| ->]; set_solver.
Qed.

Lemma cache_free_held p st st' :
  cache_free p st = Some (tt, st') → held st' = held st.
Proof. apply (cache_free_frame held held_relink_proof). Qed.

Lemma driver_slab_order cfg : reachable 41 cfg → slab_order (st_cache (cfg_state cfg)) = 0.
Proof.
  intros Hreach. apply reachable_geometry in Hreach. unfold geometry in Hreach.
  injection Hreach as _ -> _. vm_compute. reflexivity.
Qed.

(* A cache_free of a pointer held, from a state between public calls. *)
Lemma driver_free draws cfg refs refs' p :
  driver_inv draws cfg refs → refs ≡ₚ p :: refs' →
  ∃ st', cache_free p (cfg_state cfg) = Some (tt, st') ∧
         driver_inv draws (mkConfig st' (remove_live p (cfg_live cfg))) refs'.
Proof.
  intros (Hreach & Hsub & Hfresh) Hperm.
  destruct (submseteq_remove_live _ _ _ _ Hperm Hsub) as [Hin Hsub'].
  assert (Hok : op_ok cfg (Free p)) by exact Hin.
  destruct (step_returns cfg (Free p) (reachable_inv _ _ Hreach) Hok
              ltac:(intros r [=])) as [cfg' Hstep].
  pose proof (reach_step _ _ _ _ Hreach Hok Hstep) as Hreach'.
  unfold step in Hstep.
  destruct (cache_free p (cfg_state cfg)) as [[[] st']|] eqn:E; [|discriminate].
  injection Hstep as <-. exists st'. split; [reflexivity|].
  split; [exact Hreach'|]. split; [exact Hsub'|].
  intros a Ha. cbn. apply not_elem_of_dom. fold (held st').
  rewrite (cache_free_held _ _ _ E). apply not_elem_of_dom, Hfresh, Ha.
Qed.

Lemma main_pass_ok d draws cfg refs :
  region_ok 0 (region d).1 → (region d).1 ∉ regions draws →
  driver_inv (d :: draws) cfg refs →
  ∃ refs' st' live',
    main_pass d refs (cfg_state cfg) = Some (refs', st') ∧
    driver_inv draws (mkConfig st' live') refs'.
Proof.
  intros Hreg Hnew Hinv.
  assert (Hrest : driver_inv draws cfg refs).
  { destruct Hinv as (Hreach & Hsub & Hfresh). repeat split; try assumption.
    intros a Ha. apply Hfresh. unfold regions. rewrite fmap_cons. right. exact Ha. }
  unfold main_pass. destruct (decide (coin d mod 2 ≠ 0)) as [Hcoin|Hcoin].
  - destruct Hinv as (Hreach & Hsub & Hfresh).
    assert (Hok : op_ok cfg (Alloc (region d))).
    { intros _. rewrite (driver_slab_order _ Hreach). split; [exact Hreg|].
      apply Hfresh. unfold regions. rewrite fmap_cons. left. }
    assert (Hnz : (region d).1 ≠ 0) by (destruct Hreg; lia).
    destruct (step_returns cfg (Alloc (region d)) (reachable_inv _ _ Hreach) Hok
                ltac:(intros r [= <-]; left; exact Hnz)) as [cfg' Hstep].
    pose proof (reach_step _ _ _ _ Hreach Hok Hstep) as Hreach'.
    unfold step in Hstep.
    destruct (cache_alloc (region d) (cfg_state cfg)) as [[p st']|] eqn:E;
      [|discriminate].
    injection Hstep as <-.
    eexists _, st', _. rewrite (bind_run _ _ _ _ _ E).
    split; [reflexivity|]. split; [exact Hreach'|]. split.
    + cbn [cfg_live]. rewrite fmap_cons. cbn [fst].
      case_decide.
      * etrans; [apply set_insert_submseteq|]. apply submseteq_skip, Hsub.
      * apply submseteq_cons, Hsub.
    + intros a Ha. cbn [cfg_state].
      apply (cache_alloc_held _ _ _ _ _ E).
      * intros ->. apply Hnew, Ha.
      * apply Hfresh. unfold regions. rewrite fmap_cons. right. exact Ha.
  - destruct (decide (refs ≠ [])) as [Hne|He].
    + assert (Hlen : (0 < length refs)%nat)
        by (destruct refs; [congruence|simpl; lia]).
      assert (Hlt : (Z.to_nat (pick d mod Z.of_nat (length refs)) < length refs)%nat).
      { pose proof (Z.mod_pos_bound (pick d) (Z.of_nat (length refs)) ltac:(lia)).
        lia. }
      destruct (lookup_lt_is_Some_2 _ _ Hlt) as [p Hp]. rewrite Hp.
      destruct (driver_free draws cfg refs _ p Hrest (delete_Permutation _ _ _ Hp))
        as (st' & Hrun & Hinv').
      eexists _, st', _. rewrite (bind_run _ _ _ _ _ Hrun).
      split; [reflexivity|exact Hinv'].
    + destruct cfg as [st live]. eexists _, st, live. split; [reflexivity|exact Hrest].
Qed.

Lemma main_loop_ok draws : ∀ cfg refs,
  Forall (λ d, region_ok 0 (region d).1) draws →
  NoDup (regions draws) →
  driver_inv draws cfg refs →
  ∃ refs' st' live',
    main_loop draws refs (cfg_state cfg) = Some (refs', st') ∧
    driver_inv [] (mkConfig st' live') refs'.
Proof.
  induction draws as [|d draws IH]; intros cfg refs Hreg Hnd Hinv.
  - destruct cfg as [st live]. exists refs, st, live. split; [reflexivity|exact Hinv].
  - apply Forall_cons in Hreg as [Hd Hreg].
    unfold regions in Hnd. rewrite fmap_cons in Hnd.
    apply NoDup_cons in Hnd as [Hnew Hnd].
    destruct (main_pass_ok d draws cfg refs Hd Hnew Hinv)
      as (refs1 & st1 & live1 & Hrun & Hinv1).
    destruct (IH (mkConfig st1 live1) refs1 Hreg Hnd Hinv1)
      as (refs' & st' & live' & Hloop & Hinv').
    exists refs', st', live'. split; [|exact Hinv'].
    cbn [main_loop]. rewrite (bind_run _ _ _ _ _ Hrun). exact Hloop.
Qed.

Lemma main_drain_ok refs : ∀ cfg,
  driver_inv [] cfg refs →
  ∃ st' live',
    main_drain refs (cfg_state cfg) = Some (tt, st') ∧
    reachable 41 (mkConfig st' live').
Proof.
  induction refs as [|p refs IH]; intros cfg Hinv.
  - destruct cfg as [st live]. exists st, live. split; [reflexivity|apply Hinv].
  - destruct (driver_free [] cfg (p :: refs) refs p Hinv ltac:(reflexivity))
      as (st1 & Hrun & Hinv1).
    destruct (IH _ Hinv1) as (st' & live' & Hdrain & Hreach).
    exists st', live'. split; [|exact Hreach].
    cbn [main_drain]. rewrite (bind_run _ _ _ _ _ Hrun). exact Hdrain.
Qed.

End Driver.

(** X24.  main stays within the preconditions of the calls it makes.
    When the page primitive answers each request with a non-null region
    aligned to 4096 that it has not answered before, main runs to its
    end without dereferencing a null or unheld address, whatever rand()
    returns and however many passes the loop makes; the state it ends in
    is one of the states between public calls for object size 41, and
    complete_slab is null there. *)
Theorem X24_main_runs_within_the_preconditions draws :
  Forall (λ d, region_ok 0 (region d).1) draws →
  NoDup (regions draws) →
  ∃ st live,
    main draws (mkState blank nothing_held) = Some (tt, st) ∧
    reachable 41 (mkConfig st live) ∧
    complete_slab (st_cache st) = 0.
Proof.
  intros Hreg Hnd.
  assert (Hsize : size_ok 41) by (apply (bool_decide_unpack _); vm_compute; reflexivity).
  pose proof (cache_setup_run 41 blank nothing_held ltac:(lia)) as Hsetup.
  set (st0 := mkState _ nothing_held) in Hsetup at 2.
  assert (Hinv0 : driver_inv draws (mkConfig st0 []) []).
  { split; [exact (reach_setup 41 blank st0 Hsize Hsetup)|].
    split; [reflexivity|]. intros a _. apply lookup_empty. }
  destruct (main_loop_ok draws _ _ Hreg Hnd Hinv0)
    as (refs1 & st1 & live1 & Hloop & Hinv1).
  destruct (main_drain_ok refs1 _ Hinv1) as (st2 & live2 & Hdrain & Hreach2).
  pose proof (reachable_inv _ _ Hreach2) as (lc & lp & le & R).
  destruct st2 as [c2 [h2 acq2 rel2]]. cbn in R.
  pose proof (cache_shrink_run R) as Hshrink.
  eexists _, live2. split; [|split].
  - unfold main. rewrite (bind_run _ _ _ _ _ Hsetup).
    cbn in Hloop. rewrite (bind_run _ _ _ _ _ Hloop).
    cbn in Hdrain. rewrite (bind_run _ _ _ _ _ Hdrain). exact Hshrink.
  - apply (reach_step 41 (mkConfig (mkState c2 (mkPages h2 acq2 rel2)) live2) Shrink).
    + exact Hreach2.
    + exact I.
    + unfold step. cbn [cfg_state cfg_live]. rewrite Hshrink. reflexivity.
  - destruct c2; reflexivity.
Qed.

Lemma X24_witness :
  ∃ st live,
    main six_draws (mkState blank nothing_held) = Some (tt, st) ∧
    reachable 41 (mkConfig st live) ∧
    complete_slab (st_cache st) = 0.
Proof.
  apply (X24_main_runs_within_the_preconditions six_draws).
  - apply (bool_decide_unpack _). vm_compute. reflexivity.
  - apply (bool_decide_unpack _). vm_compute. reflexivity.
Defined.
